(** * The scene loader of mitsuba2 (src/libcore/xml.cpp)

    A shallow embedding of the XML scene loader: the upgrade of old
    documents ([upgrade_tree]), the recursive parser of pass 1 ([parse_xml])
    and the instantiation of pass 2 ([instantiate_node]); then the notions
    that the statements use and a platform with example documents; then the
    properties of the loader that its description states, C1 to C10, each
    proved, or refuted on an example and proved in an amended form; then
    further properties of the code, X1 to X30, on the helpers of the loader
    ([string_offset], [register_class], [check_attributes], [detail::stof]),
    on what pass 1 and pass 2 keep, and on the upgrade.

    Conventions of the embedding.
    - A C++ function that can throw returns an [outcome]: [Ok] for a normal
      return, [Throw] for an exception that leaves the function, [Stuck]
      where the embedding assigns no result (behaviour that C++ leaves
      undefined, and the few situations listed at [stuck]).
    - Objects passed by reference and mutated ([XMLParseContext],
      [Properties], [ParameterList], the argument counter) are threaded
      through as explicit state.
    - Services that the loader calls but does not define (string to number
      conversion, float arithmetic, transforms, the plugin manager, the file
      system) are the fields of the class [Platform]; every definition and
      theorem is parametric in it. *)

From Stdlib Require Import ZArith NArith Ascii String List Bool Lia.
From Stdlib Require QArith.
From stdpp Require Import base option gmap strings list pretty.

Open Scope string_scope.
Open Scope list_scope.
Set Warnings "-register-all".

(** ** Outcomes *)

(** The text of an exception, named after the place that raises it. *)
Inductive message : Type :=
| VersionParts                                    (* the constructor of Version *)
| TrailingCharacters (s : string)                 (* check_whitespace_only *)
| ConversionFailed (s : string)                   (* std::stof, std::stoll, std::stoul *)
| UnexpectedAttribute (attr elem : string)        (* check_attributes *)
| MissingAttribute (attr elem : string)
| MixValueXYZ                                     (* expand_value_to_xyz *)
| ValueElementCount
| NamedVectorCount (attr : string)                (* parse_named_vector *)
| BadFloatValues (s : string)
| BadFloatValue (s : string)                      (* parse_vector and others *)
| UnexpectedContent                               (* parse_xml *)
| UnexpectedTag (elem : string)
| RootNotObject (elem : string)
| TransformOnlyOps
| OpsOnlyInTransform
| ChildOfProperty (elem : string)
| MissingVersion (elem : string)
| BadVersion (s : string)
| ReservedName (name elem : string)
| ReservedId (id elem : string)
| DuplicateId (elem id : string) (mapper : string) (previous : Z)
| NoClassForTag (elem : string)
| ReferencedIdNotFound (id : string)
| DefaultNameEmpty
| IncludeNotFound (file : string)
| IncludeRecursion
| IncludeLoadFailed (file : string)
| BadInteger (s : string)
| BadBoolean (s : string)
| ColorCount (s : string)
| BadColor (s : string)
| RgbCount (s : string)
| BadRgb (s : string)
| RgbRange
| BadConstantSpectrum (s : string)
| SpectrumPairExpected
| BadSpectrumPair (s : string)
| WavelengthOrder
| IrregularSpectrum
| InvalidLookat
| MatrixCount
| UnhandledElement (elem : string)
| UnknownObject (id : string)                     (* instantiate_node *)
| PluginFailed (cls plugin : string) (why : string)
| UnreferencedObject (name cls plugin : string)
| UnreferencedProperties (names : list string) (cls plugin : string)
| External (why : string).                        (* raised by a platform service *)

(** An exception. [Plain] is raised by [Throw] or by the C++ library and
    carries no location. [Located] is raised by [XMLSource::throw_error] and
    reads [Error while loading "src" (at off): m]; [Near] is the variant of
    [instantiate_node] ([(near off)]). [Rewrapped] is [throw_error(node, "%s",
    e.what())]: the text of [e] behind a new location. *)
Inductive exception : Type :=
| Plain (m : message)
| Located (src_id : string) (off : Z) (m : message)
| Near (src_id : string) (off : Z) (m : message)
| Rewrapped (src_id : string) (off : Z) (inner : exception).

(** Where the embedding assigns no result. *)
Inductive stuck : Type :=
| OutOfBounds (pos len : N)   (* std::string::operator[] beyond size(): undefined *)
| UseAfterFree                (* a node handle used after remove_child freed it *)
| VersionBelowRoot            (* a version attribute below the root of a document:
                                 upgrade_tree would rewrite the whole document while
                                 it is traversed, which a tree passed by value does
                                 not represent *)
| NullPointer                 (* a null class pointer dereferenced *)
| OutOfFuel.                  (* a loop or recursion that did not end within its fuel *)

Inductive outcome (A : Type) : Type :=
| Ok (a : A)
| Throw (e : exception)
| Stuck (s : stuck).
Arguments Ok {A} a.
Arguments Throw {A} e.
Arguments Stuck {A} s.

#[global] Instance outcome_ret : MRet outcome := λ A a, Ok a.
#[global] Instance outcome_bind : MBind outcome := λ A B f m,
  match m with
  | Ok a => f a
  | Throw e => Throw e
  | Stuck s => Stuck s
  end.

#[global] Instance outcome_fmap : FMap outcome := λ A B f m,
  match m with
  | Ok a => Ok (f a)
  | Throw e => Throw e
  | Stuck s => Stuck s
  end.

(** [try { m } catch (const std::exception &e) { h e }]. *)
Definition try_catch {A} (m : outcome A) (h : exception → outcome A) : outcome A :=
  match m with
  | Throw e => h e
  | _ => m
  end.

(** A conversion of the C++ library: [None] is a thrown exception. *)
Definition or_throw {A} (o : option A) (e : exception) : outcome A :=
  match o with
  | Some a => Ok a
  | None => Throw e
  end.

Definition is_throw {A} (m : outcome A) : bool :=
  match m with Throw _ => true | _ => false end.

(** ** Characters and strings *)

(** <cctype> in the "C" locale; bytes above 127 belong to no class. *)
Definition isspace (c : ascii) : bool :=
  let n := N_of_ascii c in ((9 <=? n) && (n <=? 13) || (n =? 32))%N.
Definition islower (c : ascii) : bool :=
  let n := N_of_ascii c in ((97 <=? n) && (n <=? 122))%N.
Definition isupper (c : ascii) : bool :=
  let n := N_of_ascii c in ((65 <=? n) && (n <=? 90))%N.
Definition tolower (c : ascii) : ascii :=
  if isupper c then ascii_of_N (N_of_ascii c + 32) else c.

Definition strlen (s : string) : N := N.of_nat (String.length s).

(** [s.substr(pos)] and [s.substr(pos, n)] for [pos <= s.size()]. *)
Fixpoint substr_from (s : string) (pos : nat) : string :=
  match pos, s with
  | O, _ => s
  | S p, String _ s' => substr_from s' p
  | S _, EmptyString => EmptyString
  end.
Definition substr (s : string) (pos n : nat) : string := String.substring pos n s.

(** size_t is 64 bits wide; [a - b] wraps around. *)
Definition size_t_modulus : Z := 2 ^ 64.
Definition size_t_sub (a b : N) : N :=
  Z.to_N ((Z.of_N a - Z.of_N b) mod size_t_modulus).

(** [s[i]]: the character at [i], the terminating null at [i = s.size()],
    undefined beyond. *)
Definition string_at (s : string) (i : N) : outcome ascii :=
  match String.get (N.to_nat i) s with
  | Some c => Ok c
  | None => if (i =? strlen s)%N then Ok zero else Stuck (OutOfBounds i (strlen s))
  end.

(** ** Version *)

Record Version : Type := mkVersion { major : N; minor : N; patch : N }.

Definition Version_eqb (a b : Version) : bool :=
  ((major a =? major b) && (minor a =? minor b) && (patch a =? patch b))%N.

(** [operator<]: the order of [std::tie(major, minor, patch)]. *)
Definition Version_ltb (a b : Version) : bool :=
  ((major a <? major b)
   || (major a =? major b) && ((minor a <? minor b)
       || (minor a =? minor b) && (patch a <? patch b)))%N.

(** ** upgrade_tree, first rewrite: camelCase to underscore_case *)

(** The inner [while (i < name.length() && std::isupper(name[i]))] loop,
    run on the text from position [i] on: it lowers the run of capitals that
    starts there and returns the rewritten text with the length of the run. *)
Fixpoint lower_run (s : string) : string * N :=
  match s with
  | EmptyString => (EmptyString, 0%N)
  | String c s' =>
      if isupper c
      then let '(r, k) := lower_run s' in (String (tolower c) r, (k + 1)%N)
      else (s, 0%N)
  end.

(** One pass of the [for (size_t i = 0; i < name.length() - 1; ++i)] loop
    per unit of fuel. The index itself never wraps: it stays within two
    positions of the length of the string. *)
Fixpoint camel_loop (fuel : nat) (name : string) (i : N) : outcome string :=
  match fuel with
  | O => Stuck OutOfFuel
  | S fuel' =>
      if (i <? size_t_sub (strlen name) 1)%N then
        c ← string_at name i;
        if islower c then
          d ← string_at name (i + 1);
          if isupper d then
            let head := substr name 0 (N.to_nat i + 1) in
            let '(tail, k) := lower_run (substr_from name (N.to_nat i + 1)) in
            camel_loop fuel' (head +:+ "_" +:+ tail) (i + 2 + k + 1)
          else camel_loop fuel' name (i + 1)
        else camel_loop fuel' name (i + 1)
      else Ok name
  end.

(** The rewrite of one [name] attribute. *)
Definition upgrade_name (name : string) : outcome string :=
  camel_loop (String.length name + 2) name 0.

(** ** XML documents *)

Inductive node_type : Type :=
| node_element | node_pcdata | node_cdata | node_comment | node_pi
| node_declaration | node_doctype.

#[global] Instance node_type_eq_dec : EqDecision node_type.
Proof. solve_decision. Defined.

(** A node of a pugixml document: its type, name, attributes in document
    order (pugixml keeps duplicates), children and [offset_debug()]. *)
Inductive xml_node : Type :=
| XmlNode (ty : node_type) (name : string) (attrs : list (string * string))
          (children : list xml_node) (offset : Z).

Definition n_type (n : xml_node) : node_type := let 'XmlNode t _ _ _ _ := n in t.
Definition n_name (n : xml_node) : string := let 'XmlNode _ s _ _ _ := n in s.
Definition n_attrs (n : xml_node) : list (string * string) :=
  let 'XmlNode _ _ a _ _ := n in a.
Definition n_children (n : xml_node) : list xml_node := let 'XmlNode _ _ _ c _ := n in c.
Definition n_offset (n : xml_node) : Z := let 'XmlNode _ _ _ _ o := n in o.

Definition is_element (n : xml_node) : bool := bool_decide (n_type n = node_element).

Definition attrs := list (string * string).

(** [node.attribute(name)]: the first attribute of that name. *)
Fixpoint attribute (name : string) (a : attrs) : option string :=
  match a with
  | [] => None
  | (k, v) :: a' => if String.eqb k name then Some v else attribute name a'
  end.

(** [node.attribute(name).value()]: empty when there is no such attribute. *)
Definition attribute_value (name : string) (a : attrs) : string :=
  default "" (attribute name a).

Definition has_attribute (name : string) (a : attrs) : bool :=
  bool_decide (is_Some (attribute name a)).

Definition append_attribute (name value : string) (a : attrs) : attrs :=
  a ++ [(name, value)].

(** [node.remove_attribute(name)] removes the first attribute of that name. *)
Fixpoint remove_attribute (name : string) (a : attrs) : attrs :=
  match a with
  | [] => []
  | (k, v) :: a' => if String.eqb k name then a' else (k, v) :: remove_attribute name a'
  end.

(** ** string_offset, file_offset *)

(** What the two helpers return: the text [line L, col C], or the text
    [byte offset N]. *)
Inductive position : Type :=
| LineCol (line col : Z)
| ByteOffset (pos : Z).

Definition newline : ascii := "010"%char.

(** The [for] loop over one buffer, from the index [i] on: [inl] is the
    [return] inside the loop, [inr] holds [line] and [line_start] after it.
    [line], [line_start], [offset] and [i] are of type int in the source and
    integers here: the two agree on a text of less than 2^31 characters,
    beyond which the int overflows. *)
Fixpoint scan_buffer (buffer : list ascii) (pos offset i line line_start : Z)
    : position + Z * Z :=
  match buffer with
  | [] => inr (line, line_start)
  | c :: buffer' =>
      if Ascii.eqb c newline then
        if (pos <=? offset + i)%Z then inl (LineCol (line + 1) (pos - line_start))
        else scan_buffer buffer' pos offset (i + 1) (line + 1) (offset + i)
      else scan_buffer buffer' pos offset (i + 1) line line_start
  end.

(** [while (is.good())], one pass per unit of fuel. [stream] is what the stream
    [is] has left; [is.read(buffer, size)] takes up to [size] characters of it,
    and the stream stays good when it got them all. *)
Fixpoint offset_loop (fuel size : nat) (stream : list ascii)
    (pos offset line line_start : Z)
    : outcome position :=
  match fuel with
  | O => Stuck OutOfFuel
  | S fuel' =>
      let buffer := take size stream in
      match scan_buffer buffer pos offset 0 line line_start with
      | inl p => Ok p
      | inr (line, line_start) =>
          let offset := (offset + Z.of_nat (length buffer))%Z in
          if (size <=? length stream)%nat
          then offset_loop fuel' size (drop size stream) pos offset line line_start
          else Ok (ByteOffset pos)
      end
  end.

(** [sizeof(buffer)]. *)
Definition buffer_size : nat := 1024.

(** [string_offset(string, pos)]. *)
Definition string_offset (string : string) (pos : Z) : outcome position :=
  let stream := list_ascii_of_string string in
  offset_loop (S (length stream)) buffer_size stream pos 0 0 0.

(** [file_offset(filename, pos)] runs the same loop on the stream of the
    file; [content] is what the file holds. *)
Definition file_offset (content : string) (pos : Z) : outcome position :=
  let stream := list_ascii_of_string content in
  offset_loop (S (length stream)) buffer_size stream pos 0 0 0.

(** ** The platform *)

(** What the loader calls and does not define: the C++ library, enoki's
    floats and transforms, the string helpers of mitsuba/core/string.h, the
    class registry, the plugin manager and the file system. *)
Class Platform : Type := {
  (* floats *)
  Float : Type;
  f0 : Float;                          (* 0.f *)
  f1 : Float;                          (* 1.f *)
  fsub : Float → Float → Float;
  fmul : Float → Float → Float;
  fdiv : Float → Float → Float;
  flt : Float → Float → bool;          (* a < b, and b > a *)
  feq : Float → Float → bool;          (* a == b *)
  Epsilon : Float;                     (* math::Epsilon *)
  emitter_unit_conversion : Float;     (* 100.0f / 10568.0f *)
  cie_y_reciprocal : Float;            (* 0.0093583f *)
  wavelength_span : Float;             (* MTS_WAVELENGTH_MAX - MTS_WAVELENGTH_MIN *)
  (* the C++ library: the converted value and the number of characters
     read, None where the conversion throws *)
  std_stof : string → option (Float * nat);
  std_stoll : string → option (Z * nat);
  std_stoul : string → option N;
  std_to_string : Float → string;
  (* mitsuba/core/string.h *)
  tokenize : string → string → list string;     (* the text, the delimiters *)
  default_delim : string;                       (* the delimiters when none are given *)
  to_lower : string → string;
  starts_with : string → string → bool;
  replace_inplace : string → string → string → string;  (* str, source, target *)
  (* transforms *)
  Transform4f : Type;
  transform_identity : Transform4f;                      (* Transform4f() *)
  transform_mul : Transform4f → Transform4f → Transform4f;
  transform_translate : Float * Float * Float → Transform4f;
  transform_scale : Float * Float * Float → Transform4f;
  transform_rotate : Float * Float * Float → Float → Transform4f;
  transform_look_at :
    Float * Float * Float → Float * Float * Float → Float * Float * Float → Transform4f;
  transform_of_matrix : list Float → Transform4f;        (* 16 entries, by rows *)
  transform_has_nan : Transform4f → bool;
  luminance : Float * Float * Float → Float;
  (* classes, objects and plugins *)
  Class : Type;
  class_name : Class → string;
  class_alias : Class → string;
  class_variant : Class → string;
  construct_key : string → string → string;              (* Class::construct_key *)
  class_for_name : string → string → Class;              (* Class::for_name *)
  Object : Type;
  object_expand : Object → list Object;                  (* Object::expand *)
  cie_y_sum : Object → Float;   (* the sum of cie1931_y(w) * eval(w) over the wavelengths *)
  MTS_VERSION : Version;
  MTS_XML_INCLUDE_MAX_RECURSION : nat;
  (* the file system: FileResolver::resolve, fs::exists, and
     pugi::xml_document::load_file followed by doc.begin(): None when the
     result reports a failure, else the first node of the document *)
  fs_resolve : string → string;
  fs_exists : string → bool;
  load_file_begin : string → option xml_node
}.

(** Monadic traversal of a list, left to right. *)
Definition mapM {A B} (f : A → outcome B) : list A → outcome (list B) :=
  fix go l :=
    match l with
    | [] => Ok []
    | x :: l' => y ← f x; ys ← go l'; Ok (y :: ys)
    end.

Definition foldM {A S} (f : S → A → outcome S) : list A → S → outcome S :=
  fix go l s :=
    match l with
    | [] => Ok s
    | x :: l' => s' ← f s x; go l' s'
    end.

Section Loader.
Context `{P : Platform}.

Definition Vector3f : Type := Float * Float * Float.

(** ** detail::stof, detail::stoll *)

(** [check_whitespace_only(s, offset)]. *)
Definition check_whitespace_only (s : string) (offset : nat) : outcome unit :=
  if forallb isspace (list_ascii_of_string (substr_from s offset))
  then Ok tt
  else Throw (Plain (TrailingCharacters s)).

Definition stof (s : string) : outcome Float :=
  '(result, offset) ← or_throw (std_stof s) (Plain (ConversionFailed s));
  _ ← check_whitespace_only s offset;
  Ok result.

Definition stoll (s : string) : outcome Z :=
  '(result, offset) ← or_throw (std_stoll s) (Plain (ConversionFailed s));
  _ ← check_whitespace_only s offset;
  Ok result.

(** ** upgrade_tree *)

(** First rewrite: [for (result : node.select_nodes("//@name"))]. The query
    starts at the root of the document, whatever [node] is; every attribute
    called [name] is rewritten, in document order. *)
Definition upgrade_name_attr (kv : string * string) : outcome (string * string) :=
  if String.eqb kv.1 "name" then v ← upgrade_name kv.2; Ok (kv.1, v) else Ok kv.

Fixpoint upgrade_names (n : xml_node) : outcome xml_node :=
  let 'XmlNode ty name a chs off := n in
  a' ← mapM upgrade_name_attr a;
  chs' ← mapM upgrade_names chs;
  Ok (XmlNode ty name a' chs' off).

(** Second rewrite: every element called [lookAt] becomes [lookat]. *)
Fixpoint rename_lookat (n : xml_node) : xml_node :=
  let 'XmlNode ty name a chs off := n in
  XmlNode ty
    (if bool_decide (ty = node_element) && String.eqb name "lookAt" then "lookat" else name)
    a (map rename_lookat chs) off.

(** Third rewrite. [float[@name='nm']]: a child element [float] one of whose
    [name] attributes is [nm]. *)
Definition is_uv_float (nm : string) (c : xml_node) : bool :=
  is_element c && String.eqb (n_name c) "float"
  && existsb (λ kv, String.eqb kv.1 "name" && String.eqb kv.2 nm) (n_attrs c).

(** The test of the query
    [//node()[float[@name='uoffset' or @name='voffset' or @name='uscale' or @name='vscale']]]. *)
Definition selects_uv (n : xml_node) : bool :=
  existsb (λ c, is_uv_float "uoffset" c || is_uv_float "voffset" c
                || is_uv_float "uscale" c || is_uv_float "vscale" c) (n_children n).

(** Whether the query selects a node of the subtree. *)
Fixpoint subtree_selects_uv (n : xml_node) : bool :=
  selects_uv n || (let 'XmlNode _ _ _ chs _ := n in existsb subtree_selects_uv chs).

(** [n.select_node("float[@name='nm']")]: the position of the first such
    child, standing for the node handle. *)
Fixpoint find_index {A} (p : A → bool) (l : list A) : option nat :=
  match l with
  | [] => None
  | x :: l' => if p x then Some 0 else S <$> find_index p l'
  end.

(** One of the four [if (uoffset) { ... = stof(...); n.remove_child(uoffset); }]
    blocks: [removed] holds the children removed so far, [dflt] the value the
    component has when the child is absent. *)
Definition take_uv (chs : list xml_node) (removed : list nat) (h : option nat)
    (dflt : Float) : outcome (Float * list nat) :=
  match h with
  | None => Ok (dflt, removed)
  | Some i =>
      if bool_decide (i ∈ removed) then Stuck UseAfterFree
      else
        match chs !! i with
        | Some c => v ← stof (attribute_value "value" (n_attrs c)); Ok (v, i :: removed)
        | None => Ok (dflt, removed)
        end
  end.

Definition uv_component (tag : string) (x y : Float) : xml_node :=
  XmlNode node_element tag [("x", std_to_string x); ("y", std_to_string y)] [] (-1).

(** The body of the loop for one selected node: the new list of children
    and the positions removed from the old list. *)
Definition rewrite_uv (chs : list xml_node) : outcome (list nat * xml_node) :=
  let uoffset := find_index (is_uv_float "uoffset") chs in
  let voffset := find_index (is_uv_float "voffset") chs in
  let uscale := find_index (is_uv_float "uscale") chs in
  let vscale := find_index (is_uv_float "vscale") chs in
  '(ox, r1) ← take_uv chs [] uoffset f0;
  '(oy, r2) ← take_uv chs r1 voffset f0;
  '(sx, r3) ← take_uv chs r2 uscale f1;
  '(sy, r4) ← take_uv chs r3 vscale f1;
  let translate :=
    if negb (feq ox f0) || negb (feq oy f0) then [uv_component "translate" ox oy] else [] in
  let scale :=
    if negb (feq sx f1) || negb (feq sy f1) then [uv_component "scale" sx sy] else [] in
  Ok (r4, XmlNode node_element "transform" [("name", "to_uv")] (translate ++ scale) (-1)).

(** The children that stay, each rewritten in turn. A removed child is
    freed with its subtree; if the query had selected a node in there, the
    loop reaches a freed node. *)
Definition keep_children (rec : xml_node → outcome xml_node) (removed : list nat)
    : nat → list xml_node → outcome (list xml_node) :=
  fix go i l :=
    match l with
    | [] => Ok []
    | c :: l' =>
        if bool_decide (i ∈ removed) then
          if subtree_selects_uv c then Stuck UseAfterFree else go (S i) l'
        else c' ← rec c; cs ← go (S i) l'; Ok (c' :: cs)
    end.

Fixpoint upgrade_uv (n : xml_node) : outcome xml_node :=
  let 'XmlNode ty name a chs off := n in
  if selects_uv n then
    '(removed, trafo) ← rewrite_uv chs;
    kept ← keep_children upgrade_uv removed 0 chs;
    Ok (XmlNode ty name a (kept ++ [trafo]) off)
  else
    chs' ← mapM upgrade_uv chs;
    Ok (XmlNode ty name a chs' off).

(** [upgrade_tree(src, node, version)] for [node] the root element of its
    document; [modified] is [src.modified]. *)
Definition upgrade_tree (modified : bool) (node : xml_node) (version : Version)
    : outcome (xml_node * bool) :=
  if Version_eqb version MTS_VERSION then Ok (node, modified)
  else if Version_ltb version (mkVersion 2 0 0) then
    n1 ← upgrade_names node;
    n3 ← upgrade_uv (rename_lookat n1);
    Ok (n3, true)
  else Ok (node, true).

(** ** The data of pass 1 *)

(** The supported XML tags. *)
Inductive ETag : Type :=
| EBoolean | EInteger | EFloat | EString | EPoint | EVector | ESpectrum | ERGB
| EColor | ETransform | ETranslate | EMatrix | ERotate | EScale | ELookAt | EObject
| ENamedReference | EInclude | EAlias | EDefault | EInvalid.

#[global] Instance ETag_eq_dec : EqDecision ETag.
Proof. solve_decision. Defined.

(** The values a property holds. [PPointer] is the array a stored pointer
    points to. *)
Inductive prop_value : Type :=
| PBool (b : bool)
| PLong (z : Z)
| PFloat (f : Float)
| PString (s : string)
| PVector3f (v : Vector3f)
| PPoint3f (v : Vector3f)
| PColor (c : Vector3f)
| PTransform (t : Transform4f)
| PObject (o : Object)
| PNamedReference (id : string)
| PPointer (data : list Float).

(** Modelled from the spec: the class Properties (mitsuba/core/properties.h is
    not among the sources), "a mapping from parameter name to a typed value,
    preserving insertion". A setter replaces the value of a name that is
    present and appends a new name. *)
Record Properties : Type := mkProperties {
  plugin_name : string;
  props_id : string;
  entries : list (string * prop_value)
}.

Definition Properties_new (plugin : string) : Properties := mkProperties plugin "" [].

Fixpoint entries_set (name : string) (v : prop_value) (l : list (string * prop_value))
    : list (string * prop_value) :=
  match l with
  | [] => [(name, v)]
  | (k, w) :: l' =>
      if String.eqb k name then (k, v) :: l' else (k, w) :: entries_set name v l'
  end.

Fixpoint entries_get (name : string) (l : list (string * prop_value)) : option prop_value :=
  match l with
  | [] => None
  | (k, w) :: l' => if String.eqb k name then Some w else entries_get name l'
  end.

Definition props_set (name : string) (v : prop_value) (p : Properties) : Properties :=
  mkProperties (plugin_name p) (props_id p) (entries_set name v (entries p)).
Definition props_get (name : string) (p : Properties) : option prop_value :=
  entries_get name (entries p).
Definition set_id (id : string) (p : Properties) : Properties :=
  mkProperties (plugin_name p) id (entries p).
Definition set_plugin_name (plugin : string) (p : Properties) : Properties :=
  mkProperties plugin (props_id p) (entries p).

(** [props.named_references()]. *)
Definition named_references (p : Properties) : list (string * string) :=
  omap (λ kv, match kv.2 with PNamedReference id => Some (kv.1, id) | _ => None end)
       (entries p).

(** One entry of [XMLParseContext::instances]; the offset mapper of the
    source is identified by [src_id], the mutex is not represented. *)
Record XMLObject : Type := mkXMLObject {
  o_props : Properties;
  o_class : option Class;
  o_src_id : string;
  o_alias : string;
  o_location : Z;
  o_object : option Object
}.

Definition XMLObject_new : XMLObject :=
  mkXMLObject (Properties_new "") None "" "" 0 None.

Record XMLParseContext : Type := mkContext {
  instances : gmap string XMLObject;
  transform : Transform4f;
  id_counter : N;
  variant : string;
  monochrome : bool
}.

Definition set_instances (m : gmap string XMLObject) (c : XMLParseContext) :=
  mkContext m (transform c) (id_counter c) (variant c) (monochrome c).
Definition set_transform (t : Transform4f) (c : XMLParseContext) :=
  mkContext (instances c) t (id_counter c) (variant c) (monochrome c).
Definition set_id_counter (k : N) (c : XMLParseContext) :=
  mkContext (instances c) (transform c) k (variant c) (monochrome c).

Definition ParameterList : Type := list (string * string).

(** The tag tables that [register_class] fills. *)
Record Registry : Type := mkRegistry {
  tags : gmap string ETag;
  tag_class : gmap string Class
}.

Definition initial_tags : gmap string ETag :=
  <["boolean" := EBoolean]> (<["integer" := EInteger]> (<["float" := EFloat]>
  (<["string" := EString]> (<["point" := EPoint]> (<["vector" := EVector]>
  (<["transform" := ETransform]> (<["translate" := ETranslate]>
  (<["matrix" := EMatrix]> (<["rotate" := ERotate]> (<["scale" := EScale]>
  (<["lookat" := ELookAt]> (<["ref" := ENamedReference]> (<["spectrum" := ESpectrum]>
  (<["rgb" := ERGB]> (<["color" := EColor]> (<["include" := EInclude]>
  (<["alias" := EAlias]> (<["default" := EDefault]> ∅)))))))))))))))))).

(** [register_class(class_)]; [None] is the state before the first call,
    when both tables are null pointers. *)
Definition register_class (r : option Registry) (class_ : Class) : Registry :=
  let r0 := default (mkRegistry initial_tags ∅) r in
  let tag_name := class_alias class_ in
  let tag_key := construct_key tag_name (class_variant class_) in
  let r1 :=
    match tags r0 !! tag_name with
    | None => mkRegistry (<[tag_name := EObject]> (tags r0)) (<[tag_key := class_]> (tag_class r0))
    | Some t =>
        if bool_decide (t ≠ EObject)
        then mkRegistry (tags r0) (<[tag_key := class_]> (tag_class r0))
        else r0
    end in
  if String.eqb tag_name "spectrum"
  then mkRegistry (<["texture" := EObject]> (tags r1))
                  (<[construct_key "texture" (class_variant class_) := class_]> (tag_class r1))
  else r1.

(** ** Helpers of the parser *)

(** [src.throw_error(node, m)], for the source called [src] and a node at
    byte offset [off]. *)
Definition throw_error {A} (src : string) (off : Z) (m : message) : outcome A :=
  Throw (Located src off m).

(** [try { m } catch (...) { src.throw_error(node, msg) }]. *)
Definition catch_all {A} (m : outcome A) (src : string) (off : Z) (msg : message)
    : outcome A :=
  try_catch m (λ _, throw_error src off msg).

(** The loop of [check_attributes]: the attribute that is not expected, or
    the expected names that are left and [found_one]. *)
Fixpoint check_attributes_loop (a : attrs) (expected : list string) (found_one : bool)
    : string + (list string * bool) :=
  match a with
  | [] => inr (expected, found_one)
  | (k, _) :: a' =>
      if bool_decide (k ∈ expected)
      then check_attributes_loop a' (filter (λ x, x ≠ k) expected) true
      else inl k
  end.

(** [check_attributes(src, node, attrs, expect_all)]. [expected] lists the
    std::set in its own order (sorted), so that its head is [*attrs.begin()]. *)
Definition check_attributes (src : string) (off : Z) (elem : string) (a : attrs)
    (expected : list string) (expect_all : bool) : outcome unit :=
  match check_attributes_loop a expected false with
  | inl k => throw_error src off (UnexpectedAttribute k elem)
  | inr (rest, found_one) =>
      match rest with
      | m :: _ =>
          if negb found_one || expect_all
          then throw_error src off (MissingAttribute m elem)
          else Ok tt
      | [] => Ok tt
      end
  end.

(** [expand_value_to_xyz(src, node)]: the attributes of the node afterwards. *)
Definition expand_value_to_xyz (src : string) (off : Z) (a : attrs) : outcome attrs :=
  match attribute "value" a with
  | Some value =>
      let list := tokenize value default_delim in
      if has_attribute "x" a || has_attribute "y" a || has_attribute "z" a
      then throw_error src off MixValueXYZ
      else
        match list with
        | [t] =>
            Ok (remove_attribute "value"
                  (append_attribute "z" t (append_attribute "y" t (append_attribute "x" t a))))
        | [t0; t1; t2] =>
            Ok (remove_attribute "value"
                  (append_attribute "z" t2 (append_attribute "y" t1 (append_attribute "x" t0 a))))
        | _ => throw_error src off ValueElementCount
        end
  | None => Ok a
  end.

(** [parse_named_vector(src, node, attr_name)]. *)
Definition parse_named_vector (src : string) (off : Z) (a : attrs) (attr_name : string)
    : outcome Vector3f :=
  let vec_str := attribute_value attr_name a in
  match tokenize vec_str default_delim with
  | [t0; t1; t2] =>
      catch_all (x ← stof t0; y ← stof t1; z ← stof t2; Ok (x, y, z))
                src off (BadFloatValues vec_str)
  | _ => throw_error src off (NamedVectorCount attr_name)
  end.

(** One component of [parse_vector]: [value = node.attribute(c).value();
    if (!value.empty()) x = detail::stof(value);], with the [catch (...)]
    that reports [value]. *)
Definition parse_component (src : string) (off : Z) (a : attrs) (c : string)
    (def_val : Float) : outcome Float :=
  let value := attribute_value c a in
  if String.eqb value "" then Ok def_val
  else catch_all (stof value) src off (BadFloatValue value).

(** [parse_vector(src, node, def_val)]. *)
Definition parse_vector (src : string) (off : Z) (a : attrs) (def_val : Float)
    : outcome Vector3f :=
  x ← parse_component src off a "x" def_val;
  y ← parse_component src off a "y" def_val;
  z ← parse_component src off a "z" def_val;
  Ok (x, y, z).

(** The constructor of [Version] from text, with the [catch] of [parse_xml]
    around it: any failure is one and the same error there. The fields are
    unsigned int, 32 bits wide. *)
Definition parse_version (value : string) : option Version :=
  match tokenize value " ." with
  | [a; b; c] =>
      x ← std_stoul a; y ← std_stoul b; z ← std_stoul c;
      Some (mkVersion (x mod 2 ^ 32) (y mod 2 ^ 32) (z mod 2 ^ 32))
  | _ => None
  end.

End Loader.

(** The plugin manager: [PluginManager::instance()->create_object(props,
    class_)] returns the text of the exception it throws, or the object
    with the names of the properties that the constructor queried. *)
Class PluginManager `{P : Platform} : Type := {
  create_object : Properties → Class → string + (Object * list string)
}.

Section Pass1.
Context `{PM : PluginManager}.

(** The tag tables at the time of loading. *)
Variable reg : Registry.

(** What [parse_xml] takes by reference and may change: [src.modified],
    [ctx], [props], [param] and [arg_counter]. *)
Record pstate : Type := mkState {
  ps_modified : bool;
  ps_ctx : XMLParseContext;
  ps_props : Properties;
  ps_param : ParameterList;
  ps_arg_counter : N
}.

Definition with_ctx (c : XMLParseContext) (s : pstate) : pstate :=
  mkState (ps_modified s) c (ps_props s) (ps_param s) (ps_arg_counter s).
Definition with_props (p : Properties) (s : pstate) : pstate :=
  mkState (ps_modified s) (ps_ctx s) p (ps_param s) (ps_arg_counter s).
Definition with_param (l : ParameterList) (s : pstate) : pstate :=
  mkState (ps_modified s) (ps_ctx s) (ps_props s) l (ps_arg_counter s).
Definition with_arg_counter (k : N) (s : pstate) : pstate :=
  mkState (ps_modified s) (ps_ctx s) (ps_props s) (ps_param s) k.
Definition with_modified (b : bool) (s : pstate) : pstate :=
  mkState b (ps_ctx s) (ps_props s) (ps_param s) (ps_arg_counter s).

(** [props.set_...(node.attribute("name").value(), v)] on the state. *)
Definition bind_property (a : attrs) (v : prop_value) (s : pstate) : pstate :=
  with_props (props_set (attribute_value "name" a) v (ps_props s)) s.

Definition new_object (props : Properties) (c : Class) : outcome Object :=
  match create_object props c with
  | inl why => Throw (Plain (External why))
  | inr (obj, _) => Ok obj
  end.

(** *** Parameter substitution *)

Definition contains_dollar (value : string) : bool :=
  existsb (Ascii.eqb "$"%char) (list_ascii_of_string value).

(** [for (const auto &kv : param) string::replace_inplace(value, "$" + kv.first, kv.second)]. *)
Definition substitute_value (param : ParameterList) (value : string) : string :=
  fold_left (λ v kv, replace_inplace v ("$" +:+ kv.1) kv.2) param value.

(** The first block of [parse_xml]. *)
Definition substitute (param : ParameterList) (a : attrs) : attrs :=
  match param with
  | [] => a
  | _ => map (λ kv, if contains_dollar kv.2 then (kv.1, substitute_value param kv.2) else kv) a
  end.

(** *** The cases of the switch that hold a value *)

Definition case_EString (src : string) (off : Z) (elem : string) (a : attrs) (s : pstate)
    : outcome pstate :=
  _ ← check_attributes src off elem a ["name"; "value"] true;
  Ok (bind_property a (PString (attribute_value "value" a)) s).

Definition case_EFloat (src : string) (off : Z) (elem : string) (a : attrs) (s : pstate)
    : outcome pstate :=
  _ ← check_attributes src off elem a ["name"; "value"] true;
  let value := attribute_value "value" a in
  value_float ← catch_all (stof value) src off (BadFloatValue value);
  Ok (bind_property a (PFloat value_float) s).

Definition case_EInteger (src : string) (off : Z) (elem : string) (a : attrs) (s : pstate)
    : outcome pstate :=
  _ ← check_attributes src off elem a ["name"; "value"] true;
  let value := attribute_value "value" a in
  value_long ← catch_all (stoll value) src off (BadInteger value);
  Ok (bind_property a (PLong value_long) s).

Definition case_EBoolean (src : string) (off : Z) (elem : string) (a : attrs) (s : pstate)
    : outcome pstate :=
  _ ← check_attributes src off elem a ["name"; "value"] true;
  let value := to_lower (attribute_value "value" a) in
  result ←
    (if String.eqb value "true" then Ok true
     else if String.eqb value "false" then Ok false
     else throw_error src off (BadBoolean value));
  Ok (bind_property a (PBool result) s).

Definition case_EVector (src : string) (off : Z) (elem : string) (a : attrs) (s : pstate)
    : outcome pstate :=
  a ← expand_value_to_xyz src off a;
  _ ← check_attributes src off elem a ["name"; "x"; "y"; "z"] true;
  v ← parse_vector src off a f0;
  Ok (bind_property a (PVector3f v) s).

Definition case_EPoint (src : string) (off : Z) (elem : string) (a : attrs) (s : pstate)
    : outcome pstate :=
  a ← expand_value_to_xyz src off a;
  _ ← check_attributes src off elem a ["name"; "x"; "y"; "z"] true;
  v ← parse_vector src off a f0;
  Ok (bind_property a (PPoint3f v) s).

Definition case_EColor (src : string) (off : Z) (elem : string) (a : attrs) (s : pstate)
    : outcome pstate :=
  _ ← check_attributes src off elem a ["name"; "value"] true;
  let value := attribute_value "value" a in
  match tokenize value default_delim with
  | [t0; t1; t2] =>
      catch_all
        (r ← stof t0; g ← stof t1; b ← stof t2;
         let col :=
           if monochrome (ps_ctx s)
           then let l := luminance (r, g, b) in (l, l, l)
           else (r, g, b) in
         Ok (bind_property a (PColor col) s))
        src off (BadColor value)
  | _ => throw_error src off (ColorCount value)
  end.

Definition spectrum_class (s : pstate) : Class :=
  class_for_name "spectrum" (variant (ps_ctx s)).

Definition case_ERGB (src : string) (off : Z) (elem : string) (a : attrs)
    (within_emitter : bool) (s : pstate) : outcome pstate :=
  _ ← check_attributes src off elem a ["name"; "value"] true;
  let value := attribute_value "value" a in
  let tokens := tokenize value default_delim in
  let tokens := match tokens with [t] => [t; t; t] | _ => tokens end in
  match tokens with
  | [t0; t1; t2] =>
      let props2 := Properties_new (if within_emitter then "srgb_d65" else "srgb") in
      '(r, g, b) ← catch_all (r ← stof t0; g ← stof t1; b ← stof t2; Ok (r, g, b))
                             src off (BadRgb value);
      let props2 := props_set "color" (PColor (r, g, b)) props2 in
      if negb within_emitter
         && (flt r f0 || flt f1 r || flt g f0 || flt f1 g || flt b f0 || flt f1 b)
      then throw_error src off RgbRange
      else if negb (monochrome (ps_ctx s)) then
        obj ← new_object props2 (spectrum_class s);
        Ok (bind_property a (PObject obj) s)
      else
        let lum := luminance (r, g, b) in
        let props2 := props_set "value" (PFloat lum) (Properties_new "uniform") in
        obj ← new_object props2 (spectrum_class s);
        Ok (bind_property a (PObject obj) s)
  | _ => throw_error src off (RgbCount value)
  end.

(** *** The spectrum case *)

(** The variables of the loop over the wavelength:value pairs. *)
Record spectrum_acc : Type := mkAcc {
  wavelengths : list Float;
  values : list Float;
  is_regular : bool;
  interval : Float
}.

(** The head of the loop body: the token is split at the colon and its two
    halves are converted. *)
Definition spectrum_pair (src : string) (off : Z) (token : string)
    : outcome (Float * Float) :=
  match tokenize token ":" with
  | [p0; p1] =>
      catch_all (w ← stof p0; v ← stof p1; Ok (w, v)) src off (BadSpectrumPair token)
  | _ => throw_error src off SpectrumPairExpected
  end.

(** One pass of [for (const std::string &token : tokens)]. *)
Definition spectrum_step (src : string) (off : Z) (unit_conversion : Float)
    (acc : spectrum_acc) (token : string) : outcome spectrum_acc :=
  '(wavelength, value) ← spectrum_pair src off token;
  let value := fmul value unit_conversion in
  let ws := wavelengths acc ++ [wavelength] in
  let vs := values acc ++ [value] in
  let n := length ws in
  if (n <=? 1)%nat then Ok (mkAcc ws vs (is_regular acc) (interval acc))
  else
    let distance := fsub (nth (n - 1) ws f0) (nth (n - 2) ws f0) in
    if flt distance f0 then throw_error src off WavelengthOrder
    else if (n =? 2)%nat then Ok (mkAcc ws vs (is_regular acc) distance)
    else if flt Epsilon (fsub distance (interval acc))
         then Ok (mkAcc ws vs false (interval acc))
         else Ok (mkAcc ws vs (is_regular acc) (interval acc)).

(** [v.front()] and [v.back()], undefined on an empty vector. *)
Definition front (v : list Float) : outcome Float :=
  match v with x :: _ => Ok x | [] => Stuck (OutOfBounds 0 0) end.
Definition back (v : list Float) : outcome Float :=
  match last v with Some x => Ok x | None => Stuck (OutOfBounds 0 0) end.

(** The properties of the interpolated spectrum. *)
Definition interpolated_properties (lambda_min lambda_max : Float) (size : nat)
    (data : list Float) : Properties :=
  props_set "values" (PPointer data)
    (props_set "size" (PLong (Z.of_nat size))
      (props_set "lambda_max" (PFloat lambda_max)
        (props_set "lambda_min" (PFloat lambda_min) (Properties_new "interpolated")))).

(** What is bound once the interpolated spectrum is made: the spectrum
    itself, or in monochrome mode the uniform spectrum of its average. *)
Definition bind_interpolated (a : attrs) (obj : Object) (within_emitter : bool) (s : pstate)
    : outcome pstate :=
  if negb (monochrome (ps_ctx s)) then Ok (bind_property a (PObject obj) s)
  else
    let average := cie_y_sum obj in
    let average :=
      if within_emitter then fdiv average wavelength_span
      else fmul average cie_y_reciprocal in
    let props2 := props_set "value" (PFloat average) (Properties_new "uniform") in
    obj ← new_object props2 (spectrum_class s);
    Ok (bind_property a (PObject obj) s).

(** The end of the wavelength:value branch, after the loop. *)
Definition spectrum_interpolated (a : attrs) (acc : spectrum_acc) (within_emitter : bool)
    (s : pstate) : outcome pstate :=
  if negb (is_regular acc) then Throw (Plain IrregularSpectrum)
  else
    lambda_min ← front (wavelengths acc);
    lambda_max ← back (wavelengths acc);
    let props2 :=
      interpolated_properties lambda_min lambda_max (length (wavelengths acc)) (values acc) in
    obj ← new_object props2 (spectrum_class s);
    bind_interpolated a obj within_emitter s.

(** The wavelength:value branch of the spectrum case. *)
Definition spectrum_pairs (src : string) (off : Z) (a : attrs) (tokens : list string)
    (within_emitter : bool) (s : pstate) : outcome pstate :=
  let unit_conversion := if within_emitter then emitter_unit_conversion else f1 in
  acc ← foldM (spectrum_step src off unit_conversion) tokens (mkAcc [] [] true f0);
  spectrum_interpolated a acc within_emitter s.

(** The single value branch. *)
Definition spectrum_constant (src : string) (off : Z) (a : attrs) (token : string)
    (within_emitter : bool) (s : pstate) : outcome pstate :=
  let props2 := Properties_new (if within_emitter then "d65" else "uniform") in
  v ← catch_all (stof token) src off (BadConstantSpectrum token);
  let props2 := props_set "value" (PFloat v) props2 in
  let props2 :=
    if monochrome (ps_ctx s)
    then props_set "value" (PFloat (fdiv v wavelength_span)) (set_plugin_name "uniform" props2)
    else props2 in
  obj ← new_object props2 (spectrum_class s);
  let obj := match object_expand obj with [e] => e | _ => obj end in
  Ok (bind_property a (PObject obj) s).

Definition case_ESpectrum (src : string) (off : Z) (elem : string) (a : attrs)
    (within_emitter : bool) (s : pstate) : outcome pstate :=
  _ ← check_attributes src off elem a ["name"; "value"] true;
  match tokenize (attribute_value "value" a) default_delim with
  | [token] => spectrum_constant src off a token within_emitter s
  | tokens => spectrum_pairs src off a tokens within_emitter s
  end.

(** *** The transform operations *)

(** [ctx.transform = op * ctx.transform]. *)
Definition left_multiply (op : Transform4f) (s : pstate) : pstate :=
  with_ctx (set_transform (transform_mul op (transform (ps_ctx s))) (ps_ctx s)) s.

Definition case_ETransform (src : string) (off : Z) (elem : string) (a : attrs) (s : pstate)
    : outcome pstate :=
  _ ← check_attributes src off elem a ["name"] true;
  Ok (with_ctx (set_transform transform_identity (ps_ctx s)) s).

(** The rotate, translate and scale cases after the expansion of [value]:
    the right-hand side of [ctx.transform = ... * ctx.transform]. *)
Definition xyz_ERotate (src : string) (off : Z) (elem : string) (a : attrs)
    : outcome Transform4f :=
  _ ← check_attributes src off elem a ["angle"; "x"; "y"; "z"] false;
  vec ← parse_vector src off a f0;
  let angle := attribute_value "angle" a in
  angle_float ← catch_all (stof angle) src off (BadFloatValue angle);
  Ok (transform_rotate vec angle_float).

Definition xyz_ETranslate (src : string) (off : Z) (elem : string) (a : attrs)
    : outcome Transform4f :=
  _ ← check_attributes src off elem a ["x"; "y"; "z"] false;
  vec ← parse_vector src off a f0;
  Ok (transform_translate vec).

Definition xyz_EScale (src : string) (off : Z) (elem : string) (a : attrs)
    : outcome Transform4f :=
  _ ← check_attributes src off elem a ["x"; "y"; "z"] false;
  vec ← parse_vector src off a f1;
  Ok (transform_scale vec).

(** The operation that a rotate, translate or scale element stands for:
    [detail::expand_value_to_xyz(src, node)] and then the rest of the case on
    the node so rewritten. *)
Definition op_ERotate (src : string) (off : Z) (elem : string) (a : attrs)
    : outcome Transform4f :=
  a ← expand_value_to_xyz src off a;
  xyz_ERotate src off elem a.

Definition op_ETranslate (src : string) (off : Z) (elem : string) (a : attrs)
    : outcome Transform4f :=
  a ← expand_value_to_xyz src off a;
  xyz_ETranslate src off elem a.

Definition op_EScale (src : string) (off : Z) (elem : string) (a : attrs)
    : outcome Transform4f :=
  a ← expand_value_to_xyz src off a;
  xyz_EScale src off elem a.

Definition op_ELookAt (src : string) (off : Z) (elem : string) (a : attrs)
    : outcome Transform4f :=
  _ ← check_attributes src off elem a ["origin"; "target"; "up"] true;
  origin ← parse_named_vector src off a "origin";
  target ← parse_named_vector src off a "target";
  up ← parse_named_vector src off a "up";
  let result := transform_look_at origin target up in
  if transform_has_nan result then throw_error src off InvalidLookat
  else Ok result.

(** The sixteen conversions of the matrix case, by rows; the first that
    fails is reported. *)
Definition matrix_entries (src : string) (off : Z) (tokens : list string)
    : outcome (list Float) :=
  mapM (λ t, catch_all (stof t) src off (BadFloatValue t)) tokens.

Definition op_EMatrix (src : string) (off : Z) (elem : string) (a : attrs)
    : outcome Transform4f :=
  _ ← check_attributes src off elem a ["value"] true;
  let tokens := tokenize (attribute_value "value" a) default_delim in
  if negb (length tokens =? 16)%nat then Throw (Plain MatrixCount)
  else
    matrix ← matrix_entries src off tokens;
    Ok (transform_of_matrix matrix).

(** The operation of an element with a transform operation tag. *)
Definition operation (tag : ETag) (src : string) (off : Z) (elem : string) (a : attrs)
    : outcome Transform4f :=
  match tag with
  | ERotate => op_ERotate src off elem a
  | ETranslate => op_ETranslate src off elem a
  | EScale => op_EScale src off elem a
  | ELookAt => op_ELookAt src off elem a
  | EMatrix => op_EMatrix src off elem a
  | _ => Throw (Plain (UnhandledElement elem))
  end.

(** The five cases of the transform operations. *)
Definition case_operation (tag : ETag) (src : string) (off : Z) (elem : string) (a : attrs)
    (s : pstate) : outcome pstate :=
  op ← operation tag src off elem a;
  Ok (left_multiply op s).

(** *** The cases that return *)

(** What [parse_xml] returns: the name under which the parent binds the
    element, and its id; both empty for an element that is not referenced. *)
Definition result : Type := string * string.
Definition no_result : result := ("", "").

(** The type of [parse_xml] as its callers see it: the source, the node,
    the tag of the parent, the depth, [within_emitter] and the state. *)
Definition parser : Type :=
  string → xml_node → ETag → nat → bool → pstate → outcome (result * pstate).

(** How a case of the switch ends. *)
Inductive flow : Type :=
| Return (r : result) (s : pstate)
| Break (s : pstate).

(** [if (!nested_id.empty()) props.set_named_reference(arg_name, nested_id)]. *)
Definition bind_reference (r : result) (s : pstate) : pstate :=
  if String.eqb r.2 "" then s
  else with_props (props_set r.1 (PNamedReference r.2) (ps_props s)) s.

(** A call of [parse_xml] on a child followed by the binding of what it
    returns. *)
Definition parse_child (self : parser) (src : string) (parent_tag : ETag) (depth : nat)
    (within_emitter : bool) (s : pstate) (ch : xml_node) : outcome pstate :=
  '(r, s') ← self src ch parent_tag depth within_emitter s;
  Ok (bind_reference r s').

(** [auto &inst = ctx.instances[id]] followed by the assignments of the
    object case: an entry that exists keeps its other fields. *)
Definition record_object (id : string) (props : Properties) (c : Class) (src : string)
    (off : Z) (m : gmap string XMLObject) : gmap string XMLObject :=
  let inst := default XMLObject_new (m !! id) in
  <[id := mkXMLObject props (Some c) src (o_alias inst) off (o_object inst)]> m.

Definition case_EObject (self : parser) (src : string) (off : Z) (node_name : string)
    (a : attrs) (children : list xml_node) (tag : ETag) (depth : nat) (s : pstate)
    : outcome flow :=
  _ ← check_attributes src off node_name a ["id"; "name"; "type"] true;
  let id := attribute_value "id" a in
  let name := attribute_value "name" a in
  let props_nested := set_id id (Properties_new "") in
  match instances (ps_ctx s) !! id with
  | Some previous =>
      throw_error src off (DuplicateId node_name id src (o_location previous))
  | None =>
      match tag_class reg !! construct_key node_name (variant (ps_ctx s)) with
      | None => throw_error src off (NoClassForTag node_name)
      | Some class_ =>
          s' ← foldM (parse_child self src tag (S depth) (String.eqb node_name "emitter"))
                     children (with_arg_counter 0 (with_props props_nested s));
          let ctx' := ps_ctx s' in
          let ctx'' :=
            set_instances (record_object id (ps_props s') class_ src off (instances ctx')) ctx' in
          Ok (Return (name, id)
                (mkState (ps_modified s') ctx'' (ps_props s) (ps_param s') (ps_arg_counter s)))
      end
  end.

Definition case_ENamedReference (src : string) (off : Z) (elem : string) (a : attrs)
    (s : pstate) : outcome flow :=
  _ ← check_attributes src off elem a ["id"; "name"] true;
  Ok (Return (attribute_value "name" a, attribute_value "id" a) s).

Definition record_alias (alias_dst alias_src : string) (src : string) (off : Z)
    (m : gmap string XMLObject) : gmap string XMLObject :=
  let inst := default XMLObject_new (m !! alias_dst) in
  <[alias_dst := mkXMLObject (o_props inst) (o_class inst) src alias_src off (o_object inst)]> m.

Definition case_EAlias (src : string) (off : Z) (elem : string) (a : attrs) (s : pstate)
    : outcome flow :=
  _ ← check_attributes src off elem a ["as"; "id"] true;
  let alias_src := attribute_value "id" a in
  let alias_dst := attribute_value "as" a in
  match instances (ps_ctx s) !! alias_dst with
  | Some previous =>
      throw_error src off (DuplicateId elem alias_dst src (o_location previous))
  | None =>
      match instances (ps_ctx s) !! alias_src with
      | None => throw_error src off (ReferencedIdNotFound alias_src)
      | Some _ =>
          let ctx := ps_ctx s in
          Ok (Return no_result
                (with_ctx (set_instances
                             (record_alias alias_dst alias_src src off (instances ctx)) ctx) s))
      end
  end.

(** The loop [for (auto &kv: param) if (kv.first == name) found = true;]. *)
Definition param_found (name : string) (param : ParameterList) : bool :=
  existsb (λ kv, String.eqb kv.1 name) param.

Definition case_EDefault (src : string) (off : Z) (elem : string) (a : attrs) (s : pstate)
    : outcome flow :=
  _ ← check_attributes src off elem a ["name"; "value"] true;
  let name := attribute_value "name" a in
  let value := attribute_value "value" a in
  if String.eqb name "" then throw_error src off DefaultNameEmpty
  else if param_found name (ps_param s) then Ok (Return no_result s)
  else Ok (Return no_result (with_param (ps_param s ++ [(name, value)]) s)).

(** The include case. [included] is [parse_xml] one level of inclusion
    further down, [None] where [nested_src.depth] exceeds
    MTS_XML_INCLUDE_MAX_RECURSION. The included source has its own
    [modified] flag, which is dropped with it. *)
Definition case_EInclude (included : option parser) (src : string) (off : Z)
    (elem : string) (a : attrs) (parent_tag : ETag) (s : pstate) : outcome flow :=
  _ ← check_attributes src off elem a ["filename"] true;
  let filename := fs_resolve (attribute_value "filename" a) in
  if negb (fs_exists filename) then throw_error src off (IncludeNotFound filename)
  else
    match included with
    | None => Throw (Plain IncludeRecursion)
    | Some parse_included =>
        match load_file_begin filename with
        | None => throw_error src off (IncludeLoadFailed filename)
        | Some root =>
            let nested := with_modified false s in
            try_catch
              (if String.eqb (n_name root) "scene" then
                 s' ← foldM (parse_child parse_included filename parent_tag 1 false)
                            (n_children root) nested;
                 Ok (Break (with_modified (ps_modified s) s'))
               else
                 '(r, s') ← parse_included filename root parent_tag 0 false nested;
                 Ok (Return r (with_modified (ps_modified s) s')))
              (λ e, Throw (Rewrapped src off e))
        end
    end.

(** *** parse_xml *)

(** [k++] on a size_t. *)
Definition size_t_succ (k : N) : N := ((k + 1) mod 2 ^ 64)%N.

Definition is_transform_op (tag : ETag) : bool :=
  bool_decide (tag = ETranslate) || bool_decide (tag = ERotate)
  || bool_decide (tag = EScale) || bool_decide (tag = ELookAt)
  || bool_decide (tag = EMatrix).

(** The tag of an element: the entry of [tags], turned into [EObject] when
    the element has a [type] attribute and a class is registered for its
    name and the variant. *)
Definition resolve_tag (name : string) (a : attrs) (variant : string) : option ETag :=
  tag ← tags reg !! name;
  Some (if has_attribute "type" a && bool_decide (tag ≠ EObject)
           && bool_decide (is_Some (tag_class reg !! construct_key name variant))
        then EObject else tag).

(** The checks on the place of the element in the tree. *)
Definition check_structure (src : string) (off : Z) (name : string) (tag parent_tag : ETag)
    : outcome unit :=
  let has_parent := bool_decide (parent_tag ≠ EInvalid) in
  let parent_is_object := has_parent && bool_decide (parent_tag = EObject) in
  let current_is_object := bool_decide (tag = EObject) in
  let parent_is_transform := bool_decide (parent_tag = ETransform) in
  let current_is_transform_op := is_transform_op tag in
  if negb has_parent && negb current_is_object
  then throw_error src off (RootNotObject name)
  else if negb (eqb parent_is_transform current_is_transform_op) then
    if parent_is_transform then throw_error src off TransformOnlyOps
    else throw_error src off OpsOnlyInTransform
  else if has_parent && negb parent_is_object
          && negb (parent_is_transform && current_is_transform_op)
  then throw_error src off (ChildOfProperty name)
  else Ok tt.

(** The part of [parse_xml] before the upgrade: parameter substitution, the
    skipping of comments and declarations, the tag, the checks and the
    [version] attribute. [None] stands for [return std::make_pair("", "")];
    otherwise the tag, the attributes after substitution and the version. *)
Definition parse_xml_head (src : string) (ty : node_type) (name : string) (a : attrs)
    (off : Z) (parent_tag : ETag) (depth : nat) (s : pstate)
    : outcome (option (ETag * attrs * option Version)) :=
  let a := substitute (ps_param s) a in
  if bool_decide (ty = node_comment) || bool_decide (ty = node_declaration) then Ok None
  else if bool_decide (ty ≠ node_element) then throw_error src off UnexpectedContent
  else
    match resolve_tag name a (variant (ps_ctx s)) with
    | None => throw_error src off (UnexpectedTag name)
    | Some tag =>
        _ ← check_structure src off name tag parent_tag;
        match attribute "version" a with
        | None =>
            if (depth =? 0)%nat then throw_error src off (MissingVersion name)
            else Ok (Some (tag, a, None))
        | Some value =>
            match parse_version value with
            | None => throw_error src off (BadVersion value)
            | Some version => Ok (Some (tag, a, Some version))
            end
        end
    end.

(** [node.attribute("name")] and [node.attribute("id")]: the check of a
    given name or id, the synthesis of a missing one. *)
Definition name_and_id (src : string) (off : Z) (name : string) (tag : ETag) (a : attrs)
    (s : pstate) : outcome (attrs * pstate) :=
  let current_is_object := bool_decide (tag = EObject) in
  '(a, s) ←
    match attribute "name" a with
    | Some nm =>
        if starts_with nm "_" then throw_error src off (ReservedName nm name) else Ok (a, s)
    | None =>
        if current_is_object || bool_decide (tag = ENamedReference)
        then Ok (append_attribute "name" ("_arg_" +:+ pretty (ps_arg_counter s)) a,
                 with_arg_counter (size_t_succ (ps_arg_counter s)) s)
        else Ok (a, s)
    end;
  match attribute "id" a with
  | Some id =>
      if starts_with id "_" then throw_error src off (ReservedId id name) else Ok (a, s)
  | None =>
      if current_is_object
      then Ok (append_attribute "id" ("_unnamed_" +:+ pretty (id_counter (ps_ctx s))) a,
               with_ctx (set_id_counter (size_t_succ (id_counter (ps_ctx s))) (ps_ctx s)) s)
      else Ok (a, s)
  end.

(** The switch over the tag. *)
Definition switch (self : parser) (included : option parser) (src : string) (tag : ETag)
    (name : string) (a : attrs) (children : list xml_node) (off : Z) (parent_tag : ETag)
    (depth : nat) (within_emitter : bool) (s : pstate) : outcome flow :=
  match tag with
  | EObject => case_EObject self src off name a children tag depth s
  | ENamedReference => case_ENamedReference src off name a s
  | EAlias => case_EAlias src off name a s
  | EDefault => case_EDefault src off name a s
  | EInclude => case_EInclude included src off name a parent_tag s
  | EString => Break <$> case_EString src off name a s
  | EFloat => Break <$> case_EFloat src off name a s
  | EInteger => Break <$> case_EInteger src off name a s
  | EBoolean => Break <$> case_EBoolean src off name a s
  | EVector => Break <$> case_EVector src off name a s
  | EPoint => Break <$> case_EPoint src off name a s
  | EColor => Break <$> case_EColor src off name a s
  | ERGB => Break <$> case_ERGB src off name a within_emitter s
  | ESpectrum => Break <$> case_ESpectrum src off name a within_emitter s
  | ETransform => Break <$> case_ETransform src off name a s
  | ERotate => Break <$> case_operation ERotate src off name a s
  | ETranslate => Break <$> case_operation ETranslate src off name a s
  | EScale => Break <$> case_operation EScale src off name a s
  | ELookAt => Break <$> case_operation ELookAt src off name a s
  | EMatrix => Break <$> case_operation EMatrix src off name a s
  | EInvalid => Throw (Plain (UnhandledElement name))
  end.

(** The loop after the switch: the children are parsed and what they
    return is dropped. *)
Definition parse_rest (self : parser) (src : string) (tag : ETag) (depth : nat)
    (s : pstate) (ch : xml_node) : outcome pstate :=
  '(_, s') ← self src ch tag (S depth) false s;
  Ok s'.

(** The part of [parse_xml] after the upgrade, for an element with the
    given name, attributes, children and offset. *)
Definition parse_xml_tail (self : parser) (included : option parser) (src : string)
    (tag : ETag) (name : string) (a : attrs) (children : list xml_node) (off : Z)
    (parent_tag : ETag) (depth : nat) (within_emitter : bool) (s : pstate)
    : outcome (result * pstate) :=
  let is_scene := String.eqb name "scene" in
  let a := if is_scene then append_attribute "type" "scene" a else a in
  let s :=
    if negb is_scene && bool_decide (tag = ETransform)
    then with_ctx (set_transform transform_identity (ps_ctx s)) s else s in
  '(a, s) ← name_and_id src off name tag a s;
  fl ← switch self included src tag name a children off parent_tag depth within_emitter s;
  match fl with
  | Return r s => Ok (r, s)
  | Break s =>
      s ← foldM (parse_rest self src tag depth) children s;
      let s :=
        if bool_decide (tag = ETransform)
        then bind_property a (PTransform (transform (ps_ctx s))) s else s in
      Ok (no_result, s)
  end.

(** The handler around the body of [parse_xml]: an exception whose text
    lacks the words [Error while loading] gets the location of the node, any
    other is thrown again. Of the exceptions these are the [Plain] ones: the
    text of a [Plain] message is taken not to contain the words. *)
Definition locate {A} (src : string) (off : Z) (m : outcome A) : outcome A :=
  try_catch m (λ e,
    match e with
    | Plain msg => throw_error src off msg
    | _ => Throw e
    end).

(** [upgrade_tree] called on an element below the root. Nothing is
    rewritten unless the version is older than 2.0.0. *)
Definition upgrade_below_root (modified : bool) (version : option Version) : outcome bool :=
  match version with
  | None => Ok modified
  | Some version =>
      if Version_eqb version MTS_VERSION then Ok modified
      else if Version_ltb version (mkVersion 2 0 0) then Stuck VersionBelowRoot
      else Ok true
  end.

Definition remove_version (version : option Version) (a : attrs) : attrs :=
  match version with Some _ => remove_attribute "version" a | None => a end.

(** [parse_xml] on an element below the root of its document; [self] is
    [parse_xml] on its children. *)
Definition parse_xml_below (self : parser) (included : option parser) (src : string)
    (ty : node_type) (name : string) (a : attrs) (children : list xml_node) (off : Z)
    (parent_tag : ETag) (depth : nat) (within_emitter : bool) (s : pstate)
    : outcome (result * pstate) :=
  locate src off
    (h ← parse_xml_head src ty name a off parent_tag depth s;
     match h with
     | None => Ok (no_result, s)
     | Some (tag, a, version) =>
         modified ← upgrade_below_root (ps_modified s) version;
         parse_xml_tail self included src tag name (remove_version version a) children off
                        parent_tag depth within_emitter (with_modified modified s)
     end).

(** [parse_xml] on the root element of a document, where [upgrade_tree]
    rewrites the element itself; [self] is [parse_xml] on the children of
    the rewritten element. *)
Definition parse_xml_root (self : parser) (included : option parser) (src : string)
    (node : xml_node) (parent_tag : ETag) (depth : nat) (within_emitter : bool) (s : pstate)
    : outcome (result * pstate) :=
  let 'XmlNode ty name a children off := node in
  locate src off
    (h ← parse_xml_head src ty name a off parent_tag depth s;
     match h with
     | None => Ok (no_result, s)
     | Some (tag, a, version) =>
         '(node', modified) ←
           match version with
           | Some v => upgrade_tree (ps_modified s) (XmlNode ty name a children off) v
           | None => Ok (XmlNode ty name a children off, ps_modified s)
           end;
         parse_xml_tail self included src tag (n_name node')
                        (remove_version version (n_attrs node')) (n_children node') off
                        parent_tag depth within_emitter (with_modified modified s)
     end).

(** [parse_xml] on the elements below the root of a document. *)
Definition parse_xml_deep (included : option parser) : parser :=
  fix below (src : string) (node : xml_node) (parent_tag : ETag) (depth : nat)
      (within_emitter : bool) (s : pstate) {struct node} : outcome (result * pstate) :=
    let 'XmlNode ty name a children off := node in
    parse_xml_below below included src ty name a children off parent_tag depth
                    within_emitter s.

(** [parse_xml], with [inc] more levels of inclusion allowed: [inc] is
    MTS_XML_INCLUDE_MAX_RECURSION less [src.depth]. Depth 0 is the root
    element of a document, as at every call of the source. *)
Fixpoint parse_xml (inc : nat) : parser :=
  let included := match inc with O => None | S i => Some (parse_xml i) end in
  λ src node parent_tag depth within_emitter s,
    match depth with
    | O => parse_xml_root (parse_xml_deep included) included src node parent_tag depth
                          within_emitter s
    | S _ => parse_xml_deep included src node parent_tag depth within_emitter s
    end.

(** [parse_xml] for the documents that an element at inclusion level [inc]
    includes. *)
Definition included_parser (inc : nat) : option parser :=
  match inc with O => None | S i => Some (parse_xml i) end.

(** The call of [parse_xml] in [load_string] and [load_file]: the root of
    the document, no parent, an empty property list, depth 0. [src] is the
    id of the source, [arg_counter] the value of the counter that
    [load_string] leaves uninitialised. *)
Definition initial_context (variant : string) (mono : bool) : XMLParseContext :=
  mkContext ∅ transform_identity 0 variant mono.

Definition pass1 (src : string) (root : xml_node) (variant : string) (mono : bool)
    (param : ParameterList) (arg_counter : N) : outcome (result * pstate) :=
  parse_xml MTS_XML_INCLUDE_MAX_RECURSION src root EInvalid 0 false
    (mkState false (initial_context variant mono) (Properties_new "") param arg_counter).

(** ** Pass 2: instantiate_node *)

(** The body of the loop over the named references once the referenced
    object is there: [obj->expand()] and the calls of [props.set_object]. *)
Definition bind_expansion (name : string) (obj : Object) (props : Properties) : Properties :=
  match object_expand obj with
  | [] => props_set name (PObject obj) props
  | [c] => props_set name (PObject c) props
  | (c0 :: _) as children =>
      (fold_left
         (λ (acc : Properties * Z) (c : Object),
            (props_set (name +:+ "_" +:+ pretty acc.2) (PObject c0) acc.1, (acc.2 + 1)%Z))
         children (props, 0%Z)).1
  end.

(** The handler of the loop: an exception without a location is thrown
    again as [Error while loading "src" (near off): ...]. *)
Definition near {A} (src : string) (off : Z) (m : outcome A) : outcome A :=
  try_catch m (λ e,
    match e with
    | Plain msg => Throw (Near src off msg)
    | _ => Throw e
    end).

Definition store_object (id : string) (props : Properties) (obj : Object)
    (ctx : XMLParseContext) : XMLParseContext :=
  match instances ctx !! id with
  | Some inst =>
      set_instances
        (<[id := mkXMLObject props (o_class inst) (o_src_id inst) (o_alias inst)
                             (o_location inst) (Some obj)]> (instances ctx)) ctx
  | None => ctx
  end.

(** The check of the properties that the constructor did not query. *)
Definition check_unqueried (inst : XMLObject) (c : Class) (props : Properties)
    (queried : list string) : outcome unit :=
  let unqueried := filter (λ v, v ∉ queried) (map fst (entries props)) in
  let cls := to_lower (class_name c) in
  match unqueried with
  | [] => Ok tt
  | _ =>
      match find (λ v, match props_get v props with Some (PObject _) => true | _ => false end)
                 unqueried with
      | Some v =>
          Throw (Near (o_src_id inst) (o_location inst)
                      (UnreferencedObject v cls (plugin_name (o_props inst))))
      | None =>
          Throw (Near (o_src_id inst) (o_location inst)
                      (UnreferencedProperties unqueried cls (plugin_name props)))
      end
  end.

(** [instantiate_node(ctx, id)]. The passes of [tbb::parallel_for] are run
    one after the other, in the order of [named_references()]; the locks are
    not represented, and a cycle of references, on which the source spins on
    a lock it holds, runs out of [fuel]. *)
Fixpoint instantiate_node (fuel : nat) (ctx : XMLParseContext) (id : string)
    : outcome (Object * XMLParseContext) :=
  match fuel with
  | O => Stuck OutOfFuel
  | S fuel' =>
      match instances ctx !! id with
      | None => Throw (Plain (UnknownObject id))
      | Some inst =>
          match o_object inst with
          | Some obj => Ok (obj, ctx)
          | None =>
              if negb (String.eqb (o_alias inst) "") then instantiate_node fuel' ctx (o_alias inst)
              else
                '(props, ctx) ←
                  foldM (λ (acc : Properties * XMLParseContext) (kv : string * string),
                           near (o_src_id inst) (o_location inst)
                             ('(obj, ctx') ← instantiate_node fuel' acc.2 kv.2;
                              Ok (bind_expansion kv.1 obj acc.1, ctx')))
                        (named_references (o_props inst)) (o_props inst, ctx);
                match o_class inst with
                | None => Stuck NullPointer
                | Some c =>
                    match create_object props c with
                    | inl why =>
                        Throw (Near (o_src_id inst) (o_location inst)
                                    (PluginFailed (to_lower (class_name c)) (plugin_name props) why))
                    | inr (obj, queried) =>
                        _ ← check_unqueried inst c props queried;
                        Ok (obj, store_object id props obj ctx)
                    end
                end
          end
      end
  end.

(** [load_string], from the parsed document on. *)
Definition load_string (root : xml_node) (variant : string) (mono : bool)
    (param : ParameterList) (arg_counter : N) (fuel : nat) : outcome Object :=
  '((_, scene_id), s) ← pass1 "<string>" root variant mono param arg_counter;
  fst <$> instantiate_node fuel (ps_ctx s) scene_id.

End Pass1.

(** * Notions for the statements

    What the statements below speak of, each defined on its own and not
    through the loader. *)

Section Notions.
Context `{PM : PluginManager}.
Variable reg : Registry.

(** The attributes after the expansion of [value] into the three tokens. *)
Definition expanded (a : attrs) (t0 t1 t2 : string) : attrs :=
  remove_attribute "value"
    (append_attribute "z" t2 (append_attribute "y" t1 (append_attribute "x" t0 a))).

(** The parameter list after a [default] element for [name] and [value]. *)
Definition declare (name value : string) (param : ParameterList) : ParameterList :=
  if param_found name param then param else param ++ [(name, value)].

(** The value that the list holds for a name: the one of its first entry. *)
Definition param_value (name : string) (param : ParameterList) : option string :=
  snd <$> find (λ kv, String.eqb kv.1 name) param.

(** The differences of consecutive wavelengths. *)
Fixpoint spacings (ws : list Float) : list Float :=
  match ws with
  | w0 :: rest =>
      match rest with
      | w1 :: _ => fsub w1 w0 :: spacings rest
      | [] => []
      end
  | [] => []
  end.

(** Some wavelength is smaller than the one before it. *)
Definition decreasing (ws : list Float) : bool :=
  existsb (λ d, flt d f0) (spacings ws).

Definition first_interval (ws : list Float) : Float := hd f0 (spacings ws).

(** Some later spacing exceeds the first by more than epsilon. *)
Definition exceeds_first (ws : list Float) : bool :=
  existsb (λ d, flt Epsilon (fsub d (first_interval ws))) (tl (spacings ws)).

(** Some later spacing falls short of the first by more than epsilon. *)
Definition falls_short (ws : list Float) : bool :=
  existsb (λ d, flt Epsilon (fsub (first_interval ws) d)) (tl (spacings ws)).

(** The variables of the loop after the given pairs. *)
Definition acc_after (unit_conversion : Float) (pairs : list (Float * Float))
    : spectrum_acc :=
  let ws := map fst pairs in
  mkAcc ws (map (λ p, fmul p.2 unit_conversion) pairs) (negb (exceeds_first ws))
        (first_interval ws).

(** The operation that a child of a transform element stands for; [None]
    for a comment or a declaration, which is skipped. *)
Definition child_operation (src : string) (param : ParameterList) (variant : string)
    (ch : xml_node) : outcome (option Transform4f) :=
  let 'XmlNode ty name a _ off := ch in
  if bool_decide (ty = node_comment) || bool_decide (ty = node_declaration) then Ok None
  else
    let a := substitute param a in
    match resolve_tag reg name a variant with
    | Some tag => Some <$> operation tag src off name (remove_attribute "version" a)
    | None => throw_error src off (UnexpectedTag name)
    end.

(** The product that the accumulator holds after the operations [ops],
    applied in this order to the accumulator [acc]. *)
Definition left_fold (ops : list Transform4f) (acc : Transform4f) : Transform4f :=
  fold_left (λ acc op, transform_mul op acc) ops acc.

(** The statement of C6 for the element as [parse_xml] has it after the
    substitution of the parameters and the removal of [version]. *)
Definition transform_recorded (included : option parser) (src : string) : Prop :=
  ∀ (name : string) (a : attrs) (children : list xml_node) (off : Z) (parent_tag : ETag)
    (depth : nat) (within_emitter : bool) (s : pstate) (r : result) (s' : pstate),
    parse_xml_tail reg (parse_xml_deep reg included) included src ETransform name a children
                   off parent_tag depth within_emitter s = Ok (r, s') →
    ∃ ops : list (option Transform4f),
      mapM (child_operation src (ps_param s) (variant (ps_ctx s))) children = Ok ops
      ∧ props_get (attribute_value "name" a) (ps_props s')
        = Some (PTransform (left_fold (omap id ops) transform_identity)).

(** Whether some node of the subtree satisfies [p]. *)
Fixpoint subtree_any (p : xml_node → bool) (n : xml_node) : bool :=
  p n || (let 'XmlNode _ _ _ chs _ := n in existsb (subtree_any p) chs).

Definition is_named (name : string) (n : xml_node) : bool :=
  is_element n && String.eqb (n_name n) name.

(** The value of the first child [float] called [nm], or the default. *)
Definition uv_value (nm : string) (dflt : Float) (chs : list xml_node) : outcome Float :=
  match find (is_uv_float nm) chs with
  | Some c => stof (attribute_value "value" (n_attrs c))
  | None => Ok dflt
  end.

(** The positions of the first child [float] of each of the four names. *)
Definition first_uv (chs : list xml_node) : list nat :=
  omap (λ nm, find_index (is_uv_float nm) chs) ["uoffset"; "voffset"; "uscale"; "vscale"].

(** A list without the elements at the given positions, counted from [i]. *)
Fixpoint drop_positions {A} (ps : list nat) (i : nat) (l : list A) : list A :=
  match l with
  | [] => []
  | x :: l' =>
      if bool_decide (i ∈ ps) then drop_positions ps (S i) l'
      else x :: drop_positions ps (S i) l'
  end.

(** The transform that replaces the four properties. *)
Definition to_uv (ox oy sx sy : Float) : xml_node :=
  XmlNode node_element "transform" [("name", "to_uv")]
    ((if negb (feq ox f0) || negb (feq oy f0) then [uv_component "translate" ox oy] else [])
     ++ (if negb (feq sx f1) || negb (feq sy f1) then [uv_component "scale" sx sy] else []))
    (-1).

End Notions.

(** * Notions for the further properties *)

(** The loop of [string_offset] run over the whole text at once, the
    character at the head being the one of index [idx]. *)
Fixpoint scan_all (l : list ascii) (pos idx line line_start : Z) : position :=
  match l with
  | [] => ByteOffset pos
  | c :: l' =>
      if Ascii.eqb c newline then
        if (pos <=? idx)%Z then LineCol (line + 1) (pos - line_start)
        else scan_all l' pos (idx + 1) (line + 1) idx
      else scan_all l' pos (idx + 1) line line_start
  end.

(** The number of line breaks of a text. *)
Definition line_breaks (l : list ascii) : Z :=
  Z.of_nat (length (filter (λ c, c = newline) l)).


Section Further_notions.
Context `{PM : PluginManager}.

(** The tag tables after the registration of [c], the first class, and
    then of the classes [cs], one after the other. *)
Definition registered (c : Class) (cs : list Class) : Registry :=
  fold_left (λ r c', register_class (Some r) c') cs (register_class None c).

(** A parser keeps the relation [R] between the state it is given and the
    state it returns, on the node [node]. *)
Definition keeps (R : pstate → pstate → Prop) (p : parser) (node : xml_node) : Prop :=
  ∀ (src : string) (parent_tag : ETag) (depth : nat) (we : bool) (s : pstate)
    (r : result) (s' : pstate),
    p src node parent_tag depth we s = Ok (r, s') → R s s'.

(** The parameter list has only grown at its end. *)
Definition params_extended (s s' : pstate) : Prop :=
  ps_param s `prefix_of` ps_param s'.

(** Every entry of the table is still there, with its alias and its object. *)
Definition entries_kept (m m' : gmap string XMLObject) : Prop :=
  ∀ (id : string) (inst : XMLObject),
    m !! id = Some inst →
    ∃ inst', m' !! id = Some inst'
             ∧ o_alias inst' = o_alias inst ∧ o_object inst' = o_object inst.

(** No entry of the table holds an object. *)
Definition nothing_instantiated (m : gmap string XMLObject) : Prop :=
  ∀ (id : string) (inst : XMLObject), m !! id = Some inst → o_object inst = None.

(** Every alias of the table leads to an entry of the table. *)
Definition aliases_resolve (m : gmap string XMLObject) : Prop :=
  ∀ (id : string) (inst : XMLObject),
    m !! id = Some inst → o_alias inst ≠ "" → is_Some (m !! o_alias inst).

(** What a call of [instantiate_node] may change of the table: ids are
    neither added nor removed, every entry keeps its alias, its class, its
    source and its location, and an entry that holds an object or is an
    alias stays as it is. *)
Definition instantiation_step (m m' : gmap string XMLObject) : Prop :=
  ∀ id : string,
    match m !! id with
    | None => m' !! id = None
    | Some inst =>
        ∃ inst', m' !! id = Some inst'
                 ∧ o_alias inst' = o_alias inst ∧ o_class inst' = o_class inst
                 ∧ o_src_id inst' = o_src_id inst ∧ o_location inst' = o_location inst
                 ∧ (is_Some (o_object inst) ∨ o_alias inst ≠ "" → inst' = inst)
    end.

(** A normal return. *)
Definition is_ok {A} (m : outcome A) : bool :=
  match m with Ok _ => true | _ => false end.

(** A node with the values of the attributes called [name] blanked, in the
    whole subtree. *)
Fixpoint skeleton (n : xml_node) : xml_node :=
  let 'XmlNode ty name a chs off := n in
  XmlNode ty name (map (λ kv, if String.eqb kv.1 "name" then (kv.1, "") else kv) a)
          (map skeleton chs) off.

(** A text without a capital letter. *)
Definition no_capital (s : string) : bool :=
  forallb (λ c, negb (isupper c)) (list_ascii_of_string s).

(** A name that the camelCase rewrite has nothing to do on: not empty,
    without a capital letter, and short enough for the arithmetic on size_t
    not to wrap. *)
Definition plain_name (s : string) : bool :=
  negb (String.eqb s "") && no_capital s
  && (2 * Z.of_nat (String.length s) + 1 <? 2 ^ 64)%Z.

(** Every attribute called [name] of the subtree holds a plain name. *)
Fixpoint names_plain (n : xml_node) : bool :=
  let 'XmlNode _ _ a chs _ := n in
  forallb (λ kv, negb (String.eqb kv.1 "name") || plain_name kv.2) a
  && forallb names_plain chs.

End Further_notions.

(** Closes [k ∉ l] for a name and a list of names that are given. *)
Ltac not_listed :=
  let H := fresh in
  intros H;
  repeat (apply elem_of_cons in H as [H|H]; [discriminate H|]);
  by apply elem_of_nil in H.

(** ** A platform to run the loader on examples

    Floats are exact rationals: the rounding of binary32 is not
    represented, and the examples below only use numbers that binary32 holds
    exactly. Transforms are kept as the list of their factors, the product
    being the concatenation, so that the order of the factors stays visible.
    An object is a label with the objects it expands into. *)
Module Bench.

Import QArith.
#[local] Close Scope Q_scope.

Definition is_digit (c : ascii) : bool :=
  let n := N_of_ascii c in ((48 <=? n) && (n <=? 57))%N.
Definition digit_value (c : ascii) : Z := Z.of_N (N_of_ascii c) - 48.

(** The digits at the head of a text: their value, their number, the rest. *)
Fixpoint read_digits (l : list ascii) (acc : Z) (count : nat) : Z * nat * list ascii :=
  match l with
  | c :: l' =>
      if is_digit c then read_digits l' (acc * 10 + digit_value c) (S count)
      else (acc, count, l)
  | [] => (acc, count, l)
  end.

Fixpoint skip_space (l : list ascii) (count : nat) : nat * list ascii :=
  match l with
  | c :: l' => if isspace c then skip_space l' (S count) else (count, l)
  | [] => (count, l)
  end.

Definition read_sign (l : list ascii) : bool * nat * list ascii :=
  match l with
  | "-"%char :: l' => (true, 1%nat, l')
  | "+"%char :: l' => (false, 1%nat, l')
  | _ => (false, 0%nat, l)
  end.

(** A decimal number [digits.digits] with an optional sign, after optional
    white space; no exponent. *)
Definition read_decimal (s : string) : option (Q * nat) :=
  let '(n0, l0) := skip_space (list_ascii_of_string s) 0 in
  let '(neg, n1, l1) := read_sign l0 in
  let '(ip, n2, l2) := read_digits l1 0 0 in
  let '(fp, n3, dot) :=
    match l2 with
    | "."%char :: l3 => let '(v, k, _) := read_digits l3 0 0 in (v, k, 1%nat)
    | _ => (0%Z, 0%nat, 0%nat)
    end in
  if (n2 + n3 =? 0)%nat then None
  else
    let q := Qred (inject_Z ip + (fp # Pos.of_nat (10 ^ n3)))%Q in
    Some (if neg then Qred (- q)%Q else q, (n0 + n1 + n2 + (if (n3 =? 0)%nat then (if (n2 =? 0)%nat then 0 else dot) else dot + n3))%nat).

Definition read_integer (s : string) : option (Z * nat) :=
  let '(n0, l0) := skip_space (list_ascii_of_string s) 0 in
  let '(neg, n1, l1) := read_sign l0 in
  let '(v, n2, _) := read_digits l1 0 0 in
  if (n2 =? 0)%nat then None
  else Some (if neg then (- v)%Z else v, (n0 + n1 + n2)%nat).

Definition read_unsigned (s : string) : option N :=
  match read_integer s with
  | Some (v, _) => if (v <? 0)%Z then None else Some (Z.to_N v)
  | None => None
  end.

Fixpoint pad_left (width : nat) (s : string) : string :=
  if (String.length s <? width)%nat
  then match width with O => s | S w => String "0"%char (pad_left w s) end
  else s.

(** The format "%f": six decimals, rounded to nearest, ties to even. *)
Definition print_decimal (q : Q) : string :=
  let num := (Z.abs (Qnum q) * 1000000)%Z in
  let den := Z.pos (Qden q) in
  let fl := (num / den)%Z in
  let rem := (num mod den)%Z in
  let scaled :=
    if (2 * rem <? den)%Z then fl
    else if (den <? 2 * rem)%Z then (fl + 1)%Z
    else if Z.even fl then fl else (fl + 1)%Z in
  (if (Qnum q <? 0)%Z then "-" else "")
  +:+ pretty (scaled / 1000000)%Z +:+ "." +:+ pad_left 6 (pretty (scaled mod 1000000)%Z).

(** The non-empty pieces of a text between delimiters. *)
Fixpoint split_at (delim : list ascii) (l : list ascii) (cur : string) : list string :=
  let flush := if String.eqb cur "" then [] else [cur] in
  match l with
  | [] => flush
  | c :: l' =>
      if existsb (Ascii.eqb c) delim
      then flush ++ split_at delim l' ""
      else split_at delim l' (cur +:+ String c "")
  end.

Definition split (s delim : string) : list string :=
  split_at (list_ascii_of_string delim) (list_ascii_of_string s) "".

Fixpoint lower (s : string) : string :=
  match s with
  | EmptyString => EmptyString
  | String c s' => String (tolower c) (lower s')
  end.

(** Every occurrence of [source], left to right, replaced by [target];
    the text put in is not searched again. *)
Fixpoint replace_all (fuel : nat) (str source target : string) : string :=
  match fuel with
  | O => str
  | S fuel' =>
      if String.eqb source "" then str
      else if String.prefix source str
      then target +:+ replace_all fuel' (substr_from str (String.length source)) source target
      else match str with
           | EmptyString => EmptyString
           | String c rest => String c (replace_all fuel' rest source target)
           end
  end.

Definition replace (str source target : string) : string :=
  replace_all (S (String.length str)) str source target.

Inductive factor : Type :=
| Translate (v : Q * Q * Q)
| Scale (v : Q * Q * Q)
| Rotate (axis : Q * Q * Q) (angle : Q)
| LookAt (origin target up : Q * Q * Q)
| Matrix (m : list Q).

Inductive object : Type :=
| Obj (label : string) (parts : list object).

Record class : Type := mkClass { c_name : string; c_alias : string; c_variant : string }.

(** A whole number as a float of the examples. *)
Definition whole (z : Z) : Q := inject_Z z.

Definition Qeqb (a b : Q) : bool := Qeq_bool a b.
Definition Qltb (a b : Q) : bool := negb (Qle_bool b a).

(** The files that the examples include, by name. *)
Definition files : list (string * xml_node) :=
  [("material.xml",
    XmlNode node_element "bsdf" [("type", "diffuse"); ("id", "m1")] [] 0);
   ("versioned.xml",
    XmlNode node_element "bsdf" [("version", "2.0.0"); ("type", "diffuse"); ("id", "m2")] [] 0);
   ("part.xml",
    XmlNode node_element "scene" []
      [XmlNode node_element "bsdf" [("type", "diffuse"); ("id", "m3")] [] 7] 0)].

Definition lookup_file (name : string) : option xml_node :=
  snd <$> find (λ kv, String.eqb kv.1 name) files.

#[export] Instance platform : Platform := {|
  Float := Q;
  f0 := 0%Q;
  f1 := 1%Q;
  fsub := λ a b, Qred (a - b)%Q;
  fmul := λ a b, Qred (a * b)%Q;
  fdiv := λ a b, Qred (a / b)%Q;
  flt := Qltb;
  feq := Qeqb;
  Epsilon := (1 # 10000)%Q;
  emitter_unit_conversion := (100 # 10568)%Q;
  cie_y_reciprocal := (93583 # 10000000)%Q;
  wavelength_span := 470%Q;
  std_stof := read_decimal;
  std_stoll := read_integer;
  std_stoul := read_unsigned;
  std_to_string := print_decimal;
  tokenize := split;
  default_delim := ", ";
  to_lower := lower;
  starts_with := λ s prefix, String.prefix prefix s;
  replace_inplace := replace;
  Transform4f := list factor;
  transform_identity := [];
  transform_mul := λ a b, a ++ b;
  transform_translate := λ v, [Translate v];
  transform_scale := λ v, [Scale v];
  transform_rotate := λ v angle, [Rotate v angle];
  transform_look_at := λ o t u, [LookAt o t u];
  transform_of_matrix := λ m, [Matrix m];
  transform_has_nan := λ _, false;
  luminance := λ c, Qred ((2126 # 10000) * c.1.1 + (7152 # 10000) * c.1.2 + (722 # 10000) * c.2)%Q;
  Class := class;
  class_name := c_name;
  class_alias := c_alias;
  class_variant := c_variant;
  construct_key := λ name variant, name +:+ "." +:+ variant;
  class_for_name := λ name variant, mkClass name name variant;
  Object := object;
  object_expand := λ o, let 'Obj _ parts := o in parts;
  cie_y_sum := λ _, 0%Q;
  MTS_VERSION := mkVersion 2 0 0;
  MTS_XML_INCLUDE_MAX_RECURSION := 15;
  fs_resolve := λ name, name;
  fs_exists := λ name, bool_decide (is_Some (lookup_file name));
  load_file_begin := lookup_file
|}.

(** The plugin manager of the examples: an object is labelled with its id,
    or with the name of its plugin when it has no id; the object made for the id [pair]
    expands into two objects, the one for [single] into one, any other into
    none; every property counts as queried. *)
Definition make_object (props : Properties) : string + (object * list string) :=
  let id := props_id props in
  if String.eqb id "broken" then inl "broken"
  else
    inr (Obj (if String.eqb id "" then plugin_name props else id)
             (if String.eqb id "pair" then [Obj "pair.0" []; Obj "pair.1" []]
                 else if String.eqb id "single" then [Obj "single.0" []]
                 else []),
         map fst (entries props)).

#[export] Instance plugins : PluginManager := {|
  create_object := λ props c, make_object props
|}.

(** The tag tables after the registration of a few classes of one variant. *)
Definition variant0 : string := "scalar-rgb".

Definition registry : Registry :=
  fold_left (λ r name, register_class (Some r) (mkClass name name variant0))
            ["scene"; "bsdf"; "texture"; "emitter"; "shape"]
            (register_class None (mkClass "Spectrum" "spectrum" variant0)).

Definition elem (name : string) (a : attrs) (children : list xml_node) : xml_node :=
  XmlNode node_element name a children 0.
Definition elem_at (off : Z) (name : string) (a : attrs) (children : list xml_node)
    : xml_node :=
  XmlNode node_element name a children off.

(** Pass 1 on a document of the examples. *)
Definition run (root : xml_node) (param : ParameterList) : outcome (result * pstate) :=
  pass1 registry "main.xml" root variant0 false param 0.

(** The values of properties as the examples show them. *)
Inductive value : Type :=
| VBool (b : bool)
| VLong (z : Z)
| VFloat (q : Q)
| VString (s : string)
| VVector3f (v : Q * Q * Q)
| VPoint3f (v : Q * Q * Q)
| VColor (c : Q * Q * Q)
| VTransform (t : list factor)
| VObject (o : object)
| VNamedReference (id : string)
| VPointer (data : list Q).

Definition view (v : prop_value) : value :=
  match v with
  | PBool b => VBool b
  | PLong z => VLong z
  | PFloat q => VFloat q
  | PString s => VString s
  | PVector3f v => VVector3f v
  | PPoint3f v => VPoint3f v
  | PColor c => VColor c
  | PTransform t => VTransform t
  | PObject o => VObject o
  | PNamedReference id => VNamedReference id
  | PPointer d => VPointer d
  end.

Definition view_entries (p : Properties) : list (string * value) :=
  map (λ kv, (kv.1, view kv.2)) (entries p).

(** The properties of the object [id] after pass 1 on a document and the
    instantiation of that object. *)
Definition instantiated_props (root : xml_node) (id : string)
    : outcome (option (list (string * value))) :=
  '(_, s) ← run root [];
  '(_, ctx) ← instantiate_node 10 (ps_ctx s) id;
  Ok (view_entries <$> (o_props <$> (instances ctx !! id))).

(** The properties of the object [id] after pass 1, with the place where
    the object was recorded. *)
Definition parsed_props (root : xml_node) (param : ParameterList) (id : string)
    : outcome (option (string * Z * list (string * value))) :=
  '(_, s) ← run root param;
  Ok ((λ d, (o_src_id d, o_location d, view_entries (o_props d)))
        <$> (instances (ps_ctx s) !! id)).

(** *** Example documents *)

(** A material that refers to an object which expands into two. *)
Definition doc_expansion : xml_node :=
  elem "scene" [("version", "2.0.0")]
    [elem_at 10 "shape" [("type", "obj"); ("id", "pair")] [];
     elem_at 20 "bsdf" [("type", "diffuse"); ("id", "mat")]
       [elem_at 30 "ref" [("id", "pair"); ("name", "tex")] []]].

(** The state in which [pass1] starts. *)
Definition state0 : pstate :=
  mkState false (initial_context variant0 false) (Properties_new "") [] 0.

(** An object [x] at offset 10 with the given children. *)
Definition doc_with (children : list xml_node) : xml_node :=
  elem "scene" [("version", "2.0.0")]
    [elem_at 10 "bsdf" [("type", "diffuse"); ("id", "x")] children].

(** An object that contains itself under its own id, and two objects of one
    id side by side. *)
Definition doc_nested_duplicate : xml_node :=
  doc_with [elem_at 20 "texture" [("type", "bitmap"); ("id", "x")] []].

Definition doc_sibling_duplicate : xml_node :=
  elem "scene" [("version", "2.0.0")]
    [elem_at 10 "bsdf" [("type", "diffuse"); ("id", "x")] [];
     elem_at 20 "texture" [("type", "bitmap"); ("id", "x")] []].

Definition doc_spectrum (value : string) : xml_node :=
  doc_with [elem_at 20 "spectrum" [("name", "s"); ("value", value)] []].

(** Two declarations of defaults followed by an object that uses [$ab]. *)
Definition default_a : xml_node :=
  elem_at 3 "default" [("name", "a"); ("value", "1")] [].
Definition default_ab : xml_node :=
  elem_at 4 "default" [("name", "ab"); ("value", "2")] [].

Definition doc_defaults (first second : xml_node) : xml_node :=
  elem "scene" [("version", "2.0.0")]
    [first; second;
     elem_at 10 "bsdf" [("type", "diffuse"); ("id", "x")]
       [elem_at 20 "string" [("name", "s"); ("value", "$ab")] []]].

(** A scene that includes a file. *)
Definition doc_include (file : string) : xml_node :=
  elem "scene" [("version", "2.0.0")] [elem_at 5 "include" [("filename", file)] []].

(** A transform of three operations around a comment. *)
Definition transform_children : list xml_node :=
  [elem_at 30 "translate" [("x", "1")] [];
   XmlNode node_comment "" [] [] 35;
   elem_at 40 "scale" [("value", "2")] [];
   elem_at 50 "rotate" [("y", "1"); ("angle", "90")] []].

Definition doc_transform : xml_node :=
  doc_with [elem_at 20 "transform" [("name", "to_world")] transform_children].

(** A document of version 1.0.0 with a texture offset and a [lookAt], the
    offset being written [name]. *)
Definition old_material (name : string) : xml_node :=
  elem_at 10 "bsdf" [("type", "diffuse"); ("id", "x")]
    [elem_at 20 "float" [("name", name); ("value", "0.5")] [];
     elem_at 30 "transform" [("name", "toWorld")]
       [elem_at 40 "lookAt" [("origin", "0 0 0"); ("target", "0 0 1"); ("up", "0 1 0")] []]].

Definition doc_old (name : string) : xml_node :=
  elem "scene" [("version", "1.0.0")] [old_material name].

(** The transform and the [lookat] of that document after the upgrade. *)
Definition upgraded_to_world : xml_node :=
  elem_at 30 "transform" [("name", "to_world")]
    [elem_at 40 "lookat" [("origin", "0 0 0"); ("target", "0 0 1"); ("up", "0 1 0")] []].

Definition to_uv_half : xml_node :=
  XmlNode node_element "transform" [("name", "to_uv")]
    [XmlNode node_element "translate" [("x", "0.500000"); ("y", "0.000000")] [] (-1)] (-1).

Definition doc_boolean (value : string) : xml_node :=
  doc_with [elem_at 20 "boolean" [("name", "b"); ("value", value)] []].

(** The state in which the transform of the example is parsed, and the
    state after it. *)
Definition transform_before : pstate :=
  mkState false (set_id_counter 2 (initial_context variant0 false))
          (set_id "x" (Properties_new "")) [] 0.

Definition transform_after : pstate :=
  bind_property [("name", "to_world")]
    (PTransform [Rotate (whole 0, whole 1, whole 0) (whole 90);
                 Scale (whole 2, whole 2, whole 2);
                 Translate (whole 1, whole 0, whole 0)])
    (left_multiply [Rotate (whole 0, whole 1, whole 0) (whole 90)]
       (left_multiply [Scale (whole 2, whole 2, whole 2)]
          (left_multiply [Translate (whole 1, whole 0, whole 0)] transform_before))).

(** *** Examples for the further properties *)

(** A text of three lines, the last without a line break at its end: the
    line breaks are the characters 2 and 5. *)
Definition text : string :=
  String "a" (String "b" (String newline
    (String "c" (String "d" (String newline (String "e" (String "f" EmptyString))))))).

(** What pass 1 returns on a document, when it returns. *)
Definition after (root : xml_node) : result * pstate :=
  match pass1 registry "main.xml" root variant0 false [] 0 with
  | Ok x => x
  | _ => (no_result, state0)
  end.

(** What [parse_xml] returns on the root of a document, when it returns. *)
Definition parsed (root : xml_node) : result * pstate :=
  match parse_xml registry 15 "main.xml" root EInvalid 0 false state0 with
  | Ok x => x
  | _ => (no_result, state0)
  end.

(** The object and the context that [instantiate_node] returns for an id
    after pass 1 on a document, when it returns. *)
Definition instantiated (root : xml_node) (id : string) : object * XMLParseContext :=
  match instantiate_node 10 (ps_ctx (after root).2) id with
  | Ok x => x
  | _ => (Obj "" [], ps_ctx (after root).2)
  end.

(** A material with a reference to an id that no element has. *)
Definition doc_dangling : xml_node :=
  doc_with [elem_at 20 "ref" [("id", "missing"); ("name", "n")] []].


(** A reference with a child that no tag stands for. *)
Definition ref_with_child : list xml_node → xml_node :=
  λ children, elem_at 30 "ref" [("id", "pair"); ("name", "tex")] children.

(** A document of version 1.0.0 in the spelling of version 2.0.0. *)
Definition doc_plain : xml_node :=
  elem "scene" [("version", "1.0.0")]
    [elem_at 10 "bsdf" [("type", "diffuse"); ("id", "x")]
       [elem_at 20 "float" [("name", "alpha"); ("value", "0.5")] []]].

(** The material of [doc_old] after the first rewrite of the upgrade. *)
Definition renamed (n : xml_node) : xml_node :=
  match upgrade_names n with
  | Ok n' => n'
  | _ => n
  end.

(** A material and an alias for it. *)
Definition doc_alias : xml_node :=
  elem "scene" [("version", "2.0.0")]
    [elem_at 10 "bsdf" [("type", "diffuse"); ("id", "x")] [];
     elem_at 20 "alias" [("id", "x"); ("as", "y")] []].

(** The first state of pass 1 after one name and one id were generated. *)
Definition named_state : pstate :=
  with_ctx (set_id_counter 1 (ps_ctx state0)) (with_arg_counter 1 state0).

End Bench.

(** * Properties *)

Section Facts.
Context `{PM : PluginManager}.
Variable reg : Registry.

(** ** Properties and their setters *)

Lemma entries_get_set_eq (name : string) (v : prop_value) (l : list (string * prop_value)) :
  entries_get name (entries_set name v l) = Some v.
Proof.
  induction l as [|[k w] l IH]; simpl.
  - by rewrite String.eqb_refl.
  - destruct (String.eqb k name) eqn:E; simpl; rewrite E; [done | exact IH].
Qed.

Lemma entries_get_set_ne (name other : string) (v : prop_value)
    (l : list (string * prop_value)) :
  other ≠ name → entries_get other (entries_set name v l) = entries_get other l.
Proof.
  intros Hne. induction l as [|[k w] l IH]; simpl.
  - destruct (String.eqb name other) eqn:E; [|done].
    apply String.eqb_eq in E. congruence.
  - destruct (String.eqb k name) eqn:E; simpl.
    + apply String.eqb_eq in E. subst k.
      destruct (String.eqb name other) eqn:E'; [|done].
      apply String.eqb_eq in E'. congruence.
    + destruct (String.eqb k other); [done | exact IH].
Qed.

Lemma props_get_set_eq (name : string) (v : prop_value) (p : Properties) :
  props_get name (props_set name v p) = Some v.
Proof. apply entries_get_set_eq. Qed.

Lemma props_get_set_ne (name other : string) (v : prop_value) (p : Properties) :
  other ≠ name → props_get other (props_set name v p) = props_get other p.
Proof. apply entries_get_set_ne. Qed.

(** A value that is set again under any name stays where it was. *)
Lemma props_get_set_same (name other : string) (v : prop_value) (p : Properties) :
  props_get other p = Some v → props_get other (props_set name v p) = Some v.
Proof.
  intros H. destruct (decide (other = name)) as [->|Hne].
  - apply props_get_set_eq.
  - by rewrite props_get_set_ne.
Qed.

(** ** Pass 2: the binding of expanded objects *)

(** The loop of the multiple case, from counter [k] on: every name that it
    visits is bound to the one object [c0] that the body passes. *)
Lemma expansion_loop_binds (name : string) (c0 : Object) (cs : list Object) :
  ∀ (p : Properties) (k : Z) (i : nat),
    (i < length cs)%nat →
    props_get (name +:+ "_" +:+ pretty (k + Z.of_nat i)%Z)
      (fold_left
         (λ (acc : Properties * Z) (c : Object),
            (props_set (name +:+ "_" +:+ pretty acc.2) (PObject c0) acc.1, (acc.2 + 1)%Z))
         cs (p, k)).1
    = Some (PObject c0).
Proof.
  induction cs as [|c cs IH]; intros p k i Hi; simpl in *; [lia|].
  destruct i as [|i].
  - replace (k + Z.of_nat 0)%Z with k by lia.
    clear IH Hi. generalize (k + 1)%Z as k'.
    assert (Hnow : props_get (name +:+ "_" +:+ pretty k)
                     (props_set (name +:+ "_" +:+ pretty k) (PObject c0) p)
                   = Some (PObject c0)) by apply props_get_set_eq.
    revert Hnow. generalize (props_set (name +:+ "_" +:+ pretty k) (PObject c0) p) as q.
    induction cs as [|c' cs IH]; intros q Hq k'; simpl; [exact Hq|].
    apply IH. by apply props_get_set_same.
  - replace (k + Z.of_nat (S i))%Z with ((k + 1) + Z.of_nat i)%Z by lia.
    apply IH. lia.
Qed.

(** When an object expands into two objects or more, each of the names
    [name_0], [name_1], ... is bound to the first of them. *)
Lemma bind_expansion_many (name : string) (obj c0 c1 : Object) (rest : list Object)
    (props : Properties) (i : nat) :
  object_expand obj = c0 :: c1 :: rest →
  (i < length (c0 :: c1 :: rest))%nat →
  props_get (name +:+ "_" +:+ pretty (Z.of_nat i)) (bind_expansion name obj props)
  = Some (PObject c0).
Proof.
  intros He Hi. unfold bind_expansion. rewrite He.
  exact (expansion_loop_binds name c0 (c0 :: c1 :: rest) props 0 i Hi).
Qed.

(** ** Attributes *)

Lemma attribute_app_absent (name : string) (a b : attrs) :
  attribute name a = None → attribute name (a ++ b) = attribute name b.
Proof.
  induction a as [|[k v] a IH]; simpl; [done|].
  destruct (String.eqb k name); [done | exact IH].
Qed.

Lemma attribute_app_present (name value : string) (a b : attrs) :
  attribute name a = Some value → attribute name (a ++ b) = Some value.
Proof.
  induction a as [|[k v] a IH]; simpl; [done|].
  destruct (String.eqb k name); [done | exact IH].
Qed.

Lemma attribute_remove_other (name other : string) (a : attrs) :
  other ≠ name → attribute other (remove_attribute name a) = attribute other a.
Proof.
  intros Hne. induction a as [|[k v] a IH]; simpl; [done|].
  destruct (String.eqb k name) eqn:E; simpl.
  - apply String.eqb_eq in E. subst k.
    destruct (String.eqb name other) eqn:E'; [|done].
    apply String.eqb_eq in E'. congruence.
  - destruct (String.eqb k other); [done | exact IH].
Qed.

Lemma has_attribute_false (name : string) (a : attrs) :
  has_attribute name a = false ↔ attribute name a = None.
Proof.
  unfold has_attribute. rewrite bool_decide_eq_false.
  destruct (attribute name a); split; intros H; try done.
  destruct H. by eexists.
Qed.

Lemma has_attribute_true (name : string) (a : attrs) :
  has_attribute name a = true ↔ is_Some (attribute name a).
Proof. unfold has_attribute. by rewrite bool_decide_eq_true. Qed.

(** ** The value attribute of translate, scale and rotate (C7) *)

Lemma expanded_reads (a : attrs) (t0 t1 t2 : string) :
  attribute "x" a = None → attribute "y" a = None → attribute "z" a = None →
  attribute "x" (expanded a t0 t1 t2) = Some t0
  ∧ attribute "y" (expanded a t0 t1 t2) = Some t1
  ∧ attribute "z" (expanded a t0 t1 t2) = Some t2.
Proof.
  intros Hx Hy Hz. unfold expanded, append_attribute.
  rewrite !attribute_remove_other by done.
  repeat split.
  - rewrite <- !app_assoc. by rewrite attribute_app_absent.
  - rewrite <- !app_assoc. by rewrite attribute_app_absent.
  - rewrite <- !app_assoc. by rewrite attribute_app_absent.
Qed.

(** A component that is not given takes the default value of the case. *)
Lemma parse_vector_defaults (src : string) (off : Z) (a : attrs) (def_val : Float)
    (v : Vector3f) :
  parse_vector src off a def_val = Ok v →
  (attribute "x" a = None → v.1.1 = def_val)
  ∧ (attribute "y" a = None → v.1.2 = def_val)
  ∧ (attribute "z" a = None → v.2 = def_val).
Proof.
  unfold parse_vector, parse_component, attribute_value. intros H.
  repeat split; intros Hn; rewrite Hn in H; simpl in H.
  - destruct (if String.eqb (default "" (attribute "y" a)) "" then _ else _) as [y| |];
      simpl in H; try done.
    destruct (if String.eqb (default "" (attribute "z" a)) "" then _ else _) as [z| |];
      simpl in H; try done.
    by inversion H.
  - destruct (if String.eqb (default "" (attribute "x" a)) "" then _ else _) as [x| |];
      simpl in H; try done.
    destruct (if String.eqb (default "" (attribute "z" a)) "" then _ else _) as [z| |];
      simpl in H; try done.
    by inversion H.
  - destruct (if String.eqb (default "" (attribute "x" a)) "" then _ else _) as [x| |];
      simpl in H; try done.
    destruct (if String.eqb (default "" (attribute "y" a)) "" then _ else _) as [y| |];
      simpl in H; try done.
    by inversion H.
Qed.

(** C7. On translate, scale and rotate the case first expands the [value]
    attribute. With [value] present: a single token is written to [x], [y]
    and [z]; three tokens are written to [x], [y], [z] in turn; any other
    number of tokens is an error; and [value] next to one of [x], [y], [z]
    is an error. In an accepted scale a component that is not given is 1,
    in an accepted translate it is 0. *)
Theorem C7_value_expansion_and_defaults (src : string) (off : Z) (elem : string)
    (a : attrs) :
  (* the three cases begin with the expansion *)
  (op_ETranslate src off elem a
     = (a' ← expand_value_to_xyz src off a; xyz_ETranslate src off elem a')
   ∧ op_EScale src off elem a
     = (a' ← expand_value_to_xyz src off a; xyz_EScale src off elem a')
   ∧ op_ERotate src off elem a
     = (a' ← expand_value_to_xyz src off a; xyz_ERotate src off elem a'))
  (* the expansion *)
  ∧ (∀ value : string, attribute "value" a = Some value →
       let tokens := tokenize value default_delim in
       let mixed := has_attribute "x" a || has_attribute "y" a || has_attribute "z" a in
       (mixed = true → expand_value_to_xyz src off a = throw_error src off MixValueXYZ)
       ∧ (mixed = false → ∀ t, tokens = [t] →
            expand_value_to_xyz src off a = Ok (expanded a t t t)
            ∧ attribute "x" (expanded a t t t) = Some t
            ∧ attribute "y" (expanded a t t t) = Some t
            ∧ attribute "z" (expanded a t t t) = Some t)
       ∧ (mixed = false → ∀ t0 t1 t2, tokens = [t0; t1; t2] →
            expand_value_to_xyz src off a = Ok (expanded a t0 t1 t2)
            ∧ attribute "x" (expanded a t0 t1 t2) = Some t0
            ∧ attribute "y" (expanded a t0 t1 t2) = Some t1
            ∧ attribute "z" (expanded a t0 t1 t2) = Some t2)
       ∧ (length tokens ≠ 1%nat → length tokens ≠ 3%nat →
            is_throw (expand_value_to_xyz src off a) = true))
  (* the defaults *)
  ∧ (∀ t : Transform4f, xyz_EScale src off elem a = Ok t →
       ∃ v : Vector3f, t = transform_scale v
         ∧ (attribute "x" a = None → v.1.1 = f1)
         ∧ (attribute "y" a = None → v.1.2 = f1)
         ∧ (attribute "z" a = None → v.2 = f1))
  ∧ (∀ t : Transform4f, xyz_ETranslate src off elem a = Ok t →
       ∃ v : Vector3f, t = transform_translate v
         ∧ (attribute "x" a = None → v.1.1 = f0)
         ∧ (attribute "y" a = None → v.1.2 = f0)
         ∧ (attribute "z" a = None → v.2 = f0)).
Proof.
  split; [done|]. split; [|split].
  - intros value Hv tokens mixed. unfold expand_value_to_xyz. rewrite Hv.
    fold tokens. fold mixed.
    assert (Hxyz : mixed = false → ∀ t0 t1 t2,
              attribute "x" (expanded a t0 t1 t2) = Some t0
              ∧ attribute "y" (expanded a t0 t1 t2) = Some t1
              ∧ attribute "z" (expanded a t0 t1 t2) = Some t2).
    { intros Hm t0 t1 t2. unfold mixed in Hm. rewrite !orb_false_iff in Hm.
      destruct Hm as [[Hx Hy] Hz]. apply expanded_reads; by apply has_attribute_false. }
    split; [by intros ->|]. split; [|split].
    + intros Hm t Ht. rewrite Hm, Ht. split; [done|]. by apply Hxyz.
    + intros Hm t0 t1 t2 Ht. rewrite Hm, Ht. split; [done|]. by apply Hxyz.
    + intros H1 H3. destruct mixed; [done|].
      destruct tokens as [|t0 [|t1 [|t2 [|t3 ts]]]]; simpl in *; done.
  - intros t Ht. unfold xyz_EScale in Ht.
    destruct (check_attributes src off elem a ["x"; "y"; "z"] false); simpl in Ht; try done.
    destruct (parse_vector src off a f1) as [v| |] eqn:Hv; simpl in Ht; try done.
    exists v. split; [by inversion Ht|]. by apply (parse_vector_defaults src off).
  - intros t Ht. unfold xyz_ETranslate in Ht.
    destruct (check_attributes src off elem a ["x"; "y"; "z"] false); simpl in Ht; try done.
    destruct (parse_vector src off a f0) as [v| |] eqn:Hv; simpl in Ht; try done.
    exists v. split; [by inversion Ht|]. by apply (parse_vector_defaults src off).
Qed.

(** ** Defaults and parameters (C8) *)

Lemma param_found_value (name : string) (param : ParameterList) :
  param_found name param = true ↔ is_Some (param_value name param).
Proof.
  unfold param_found, param_value. induction param as [|[k v] l IH]; simpl.
  - split; [done | by intros [? ?]].
  - destruct (String.eqb k name); simpl; [|exact IH]. split; [by eexists | done].
Qed.

Lemma param_value_app (name : string) (l1 l2 : ParameterList) :
  param_value name (l1 ++ l2)
  = match param_value name l1 with Some v => Some v | None => param_value name l2 end.
Proof.
  unfold param_value. induction l1 as [|[k v] l IH]; simpl.
  - by destruct (find _ l2).
  - destruct (String.eqb k name); simpl; [done | exact IH].
Qed.

Lemma param_value_declare (name value other : string) (param : ParameterList) :
  param_value other (declare name value param)
  = match param_value other param with
    | Some v => Some v
    | None => if String.eqb name other then Some value else None
    end.
Proof.
  unfold declare. destruct (param_found name param) eqn:Hf.
  - destruct (param_value other param) eqn:Hv; [done|].
    destruct (String.eqb name other) eqn:E; [|done].
    apply String.eqb_eq in E. subst other.
    apply param_found_value in Hf. rewrite Hv in Hf. by destruct Hf.
  - rewrite param_value_app. destruct (param_value other param); [done|].
    unfold param_value. simpl. by destruct (String.eqb name other).
Qed.

(** C8 (amended). A [default] element appends its pair to the parameter
    list only when no entry of that name is there; an entry that is there,
    supplied by the caller or declared earlier, keeps its value. So the
    value bound to every name is the same whichever of two defaults of
    different names is declared first. (The text put into an attribute is
    made by replacing [$name] for one entry after the other in the order of
    the list, and can depend on that order.) *)
Theorem C8_defaults_never_override (src : string) (off : Z) (elem : string) (a : attrs)
    (s : pstate) :
  let name := attribute_value "name" a in
  let value := attribute_value "value" a in
  (* the case appends, or leaves the list as it is *)
  (check_attributes src off elem a ["name"; "value"] true = Ok tt → name ≠ "" →
     (param_found name (ps_param s) = false →
        case_EDefault src off elem a s
        = Ok (Return no_result (with_param (ps_param s ++ [(name, value)]) s)))
     ∧ (param_found name (ps_param s) = true →
        case_EDefault src off elem a s = Ok (Return no_result s)))
  (* an entry that is present keeps its value, a new name gets the declared one *)
  ∧ (∀ (param : ParameterList) (n v k w : string),
       param_value k param = Some w → param_value k (declare n v param) = Some w)
  ∧ (∀ (param : ParameterList) (n v : string),
       param_value n param = None → param_value n (declare n v param) = Some v)
  (* the order of two defaults of different names does not matter *)
  ∧ (∀ (param : ParameterList) (n1 v1 n2 v2 k : string),
       n1 ≠ n2 →
       param_value k (declare n2 v2 (declare n1 v1 param))
       = param_value k (declare n1 v1 (declare n2 v2 param))).
Proof.
  intros name value. split; [|split; [|split]].
  - intros Hcheck Hname. unfold case_EDefault. rewrite Hcheck. simpl.
    fold name. fold value.
    destruct (String.eqb name "") eqn:E; [by apply String.eqb_eq in E|].
    split; intros ->; reflexivity.
  - intros param n v k w Hk. rewrite param_value_declare. by rewrite Hk.
  - intros param n v Hn. rewrite param_value_declare, Hn. by rewrite String.eqb_refl.
  - intros param n1 v1 n2 v2 k Hne. rewrite !param_value_declare.
    destruct (param_value k param); [done|].
    destruct (String.eqb n1 k) eqn:E1, (String.eqb n2 k) eqn:E2; try done.
    apply String.eqb_eq in E1, E2. congruence.
Qed.

(** ** Included documents (C10) *)

Lemma attribute_substitute_none (param : ParameterList) (name : string) (a : attrs) :
  attribute name a = None → attribute name (substitute param a) = None.
Proof.
  unfold substitute. destruct param as [|p param]; [done|].
  generalize (p :: param) as l. intros l.
  induction a as [|[k v] a IH]; simpl; [done|].
  destruct (contains_dollar v); simpl; destruct (String.eqb k name); try done; exact IH.
Qed.

Lemma check_attributes_not_stuck (src : string) (off : Z) (elem : string) (a : attrs)
    (expected : list string) (expect_all : bool) :
  check_attributes src off elem a expected expect_all = Ok tt
  ∨ is_throw (check_attributes src off elem a expected expect_all) = true.
Proof.
  unfold check_attributes.
  destruct (check_attributes_loop a expected false) as [k|[rest found]]; [by right|].
  destruct rest; [by left|]. destruct (negb found || expect_all); [by right | by left].
Qed.

(** At depth 0 an element without a version attribute is refused. *)
Lemma head_without_version_throws (src : string) (name : string) (a : attrs) (off : Z)
    (parent_tag : ETag) (s : pstate) :
  attribute "version" a = None →
  is_throw (parse_xml_head reg src node_element name a off parent_tag 0 s) = true.
Proof.
  intros Hv. unfold parse_xml_head. simpl.
  destruct (resolve_tag reg name _ _); [|done].
  destruct (check_structure src off name e parent_tag) as [[]| |] eqn:Hc; simpl; try done.
  - by rewrite attribute_substitute_none.
  - unfold check_structure, throw_error in Hc. repeat case_match; done.
Qed.

Lemma locate_throw {A} (src : string) (off : Z) (m : outcome A) :
  is_throw m = true → is_throw (locate src off m) = true.
Proof. destruct m as [|e|]; try done. by destruct e. Qed.

Lemma bind_throw {A B} (m : outcome A) (f : A → outcome B) :
  is_throw m = true → is_throw (m ≫= f) = true.
Proof. by destruct m. Qed.

Lemma root_without_version_throws (self : parser) (included : option parser)
    (src : string) (root : xml_node) (parent_tag : ETag) (we : bool) (s : pstate) :
  n_type root = node_element →
  attribute "version" (n_attrs root) = None →
  is_throw (parse_xml_root reg self included src root parent_tag 0 we s) = true.
Proof.
  destruct root as [ty name a chs off]. simpl. intros -> Hv.
  unfold parse_xml_root. apply locate_throw, bind_throw.
  by apply head_without_version_throws.
Qed.

(** C10. An [include] element whose document has a root element that is
    not called [scene] has that root parsed at depth 0: without a version
    attribute on it the loading fails. When the root is called [scene], its
    children are parsed at depth 1, as children of the parent of the include
    element, and the attributes of the root, a version among them, are never
    looked at. *)
Theorem C10_included_root_and_version (inc : nat) (src : string) (off : Z) (elem : string)
    (a : attrs) (parent_tag : ETag) (s : pstate) (root : xml_node) :
  let filename := fs_resolve (attribute_value "filename" a) in
  load_file_begin filename = Some root →
  n_type root = node_element →
  (n_name root ≠ "scene" →
     (* the root is parsed at depth 0 *)
     (∀ i, inc = S i →
        check_attributes src off elem a ["filename"] true = Ok tt →
        fs_exists filename = true →
        case_EInclude (included_parser reg inc) src off elem a parent_tag s
        = try_catch
            ('(r, s') ← parse_xml reg i filename root parent_tag 0 false
                                  (with_modified false s);
             Ok (Return r (with_modified (ps_modified s) s')))
            (λ e, Throw (Rewrapped src off e)))
     (* and has to carry a version *)
     ∧ (attribute "version" (n_attrs root) = None →
        is_throw (case_EInclude (included_parser reg inc) src off elem a parent_tag s)
        = true))
  ∧ (n_name root = "scene" →
     ∀ i, inc = S i →
       check_attributes src off elem a ["filename"] true = Ok tt →
       fs_exists filename = true →
       case_EInclude (included_parser reg inc) src off elem a parent_tag s
       = try_catch
           (s' ← foldM (parse_child (parse_xml reg i) filename parent_tag 1 false)
                       (n_children root) (with_modified false s);
            Ok (Break (with_modified (ps_modified s) s')))
           (λ e, Throw (Rewrapped src off e))).
Proof.
  intros filename Hload Hty. split.
  - intros Hname.
    assert (Hn : String.eqb (n_name root) "scene" = false)
      by (by apply String.eqb_neq).
    split.
    + intros i -> Hcheck Hex. unfold case_EInclude. rewrite Hcheck. simpl.
      fold filename. rewrite Hex. simpl. rewrite Hload, Hn. reflexivity.
    + intros Hv. unfold case_EInclude.
      destruct (check_attributes_not_stuck src off elem a ["filename"] true) as [->|Ht];
        [|by apply bind_throw].
      simpl. fold filename. destruct (fs_exists filename); [|done]. simpl.
      destruct inc as [|i]; [done|]. simpl. rewrite Hload, Hn.
      pose proof (root_without_version_throws (parse_xml_deep reg (included_parser reg i))
                    (included_parser reg i) filename root parent_tag false
                    (with_modified false s) Hty Hv) as Hr.
      destruct i; simpl in *;
        match goal with
        | |- context [parse_xml_root ?r ?f ?g ?h ?n ?p ?d ?w ?st] =>
            destruct (parse_xml_root r f g h n p d w st)
        end; done.
  - intros Hname i -> Hcheck Hex. unfold case_EInclude. rewrite Hcheck. simpl.
    fold filename. rewrite Hex. simpl. rewrite Hload, Hname. reflexivity.
Qed.

(** ** Duplicate ids (C5) *)

(** An object whose id is in the table is refused, and the error carries
    the offset of the entry that is there. *)
Lemma recorded_id_is_refused (self : parser) (src : string) (off : Z) (node_name : string)
    (a : attrs) (children : list xml_node) (tag : ETag) (depth : nat) (s : pstate)
    (previous : XMLObject) :
  check_attributes src off node_name a ["id"; "name"; "type"] true = Ok tt →
  instances (ps_ctx s) !! attribute_value "id" a = Some previous →
  case_EObject reg self src off node_name a children tag depth s
  = throw_error src off
      (DuplicateId node_name (attribute_value "id" a) src (o_location previous)).
Proof. intros Hc Hp. unfold case_EObject. rewrite Hc. simpl. by rewrite Hp. Qed.

(** ** Spectra given by wavelength:value pairs (C3) *)

Lemma spacings_snoc (ws : list Float) (w : Float) :
  spacings (ws ++ [w])
  = spacings ws ++ match last ws with Some l => [fsub w l] | None => [] end.
Proof.
  induction ws as [|w0 [|w1 ws] IH]; [done | done |].
  change (spacings ((w0 :: w1 :: ws) ++ [w]))
    with (fsub w1 w0 :: spacings ((w1 :: ws) ++ [w])).
  rewrite IH. by rewrite last_cons_cons.
Qed.

Lemma mapM_app {A B} (f : A → outcome B) (l1 l2 : list A) :
  mapM f (l1 ++ l2) = (x ← mapM f l1; y ← mapM f l2; Ok (x ++ y)).
Proof.
  induction l1 as [|a l1 IH]; simpl.
  - by destruct (mapM f l2).
  - destruct (f a); simpl; try done. rewrite IH.
    destruct (mapM f l1); simpl; try done. by destruct (mapM f l2).
Qed.

Lemma foldM_app {A S} (f : S → A → outcome S) (l1 l2 : list A) (s : S) :
  foldM f (l1 ++ l2) s = (s' ← foldM f l1 s; foldM f l2 s').
Proof.
  revert s. induction l1 as [|a l1 IH]; intros s; simpl; [done|].
  destruct (f s a); simpl; auto.
Qed.

Lemma nth_snoc_last (ws : list Float) (w d : Float) :
  nth (length (ws ++ [w]) - 1) (ws ++ [w]) d = w.
Proof.
  rewrite length_app. simpl.
  replace (length ws + 1 - 1)%nat with (length ws) by lia.
  by rewrite nth_middle.
Qed.

Lemma nth_snoc_before (ws : list Float) (l w d : Float) :
  nth (length ((ws ++ [l]) ++ [w]) - 2) ((ws ++ [l]) ++ [w]) d = l.
Proof.
  rewrite !length_app. simpl.
  replace (length ws + 1 + 1 - 2)%nat with (length ws) by lia.
  rewrite <- app_assoc. simpl app. by rewrite nth_middle.
Qed.

(** The loop over the tokens, when every token converts: it throws as soon
    as a wavelength is smaller than the one before, and otherwise ends with
    the variables that [acc_after] describes. *)
Lemma spectrum_loop (src : string) (off : Z) (u : Float) (tokens : list string) :
  ∀ pairs : list (Float * Float),
    mapM (spectrum_pair src off) tokens = Ok pairs →
    foldM (spectrum_step src off u) tokens (mkAcc [] [] true f0)
    = if decreasing (map fst pairs) then throw_error src off WavelengthOrder
      else Ok (acc_after u pairs).
Proof.
  induction tokens as [|t tokens IH] using rev_ind; intros pairs Hp.
  - simpl in Hp. by inversion Hp.
  - rewrite mapM_app in Hp. simpl in Hp.
    destruct (mapM (spectrum_pair src off) tokens) as [ps| |] eqn:Hps; simpl in Hp; try done.
    destruct (spectrum_pair src off t) as [[w v]| |] eqn:Ht; simpl in Hp; try done.
    inversion Hp; subst pairs; clear Hp.
    rewrite foldM_app, (IH ps eq_refl). rewrite map_app. simpl map.
    unfold decreasing. rewrite spacings_snoc, existsb_app.
    fold (decreasing (map fst ps)).
    destruct (decreasing (map fst ps)) eqn:Hdec; [done|].
    simpl. unfold spectrum_step. rewrite Ht. simpl.
    destruct (map fst ps) as [|w0 ws0] eqn:Hws using rev_ind.
    + (* the first pair *)
      apply map_eq_nil in Hws. subst ps. reflexivity.
    + clear IHws0. rewrite last_snoc. simpl existsb. rewrite orb_false_r.
      rewrite nth_snoc_last, nth_snoc_before.
      assert (Hlen : (length ((ws0 ++ [w0]) ++ [w]) <=? 1)%nat = false).
      { apply Nat.leb_gt. rewrite !length_app. simpl. lia. }
      rewrite Hlen.
      destruct (flt (fsub w w0) f0); [done|].
      unfold acc_after. rewrite !map_app, Hws. simpl map.
      unfold exceeds_first, first_interval.
      rewrite (spacings_snoc (ws0 ++ [w0]) w), last_snoc.
      destruct ws0 as [|w1 ws1].
      * (* the second pair sets the interval *)
        reflexivity.
      * assert (Hn : (length (((w1 :: ws1) ++ [w0]) ++ [w]) =? 2)%nat = false).
        { apply Nat.eqb_neq. rewrite !length_app. simpl. lia. }
        rewrite Hn.
        assert (Hs : ∃ d ds, spacings ((w1 :: ws1) ++ [w0]) = d :: ds).
        { rewrite spacings_snoc.
          destruct (last (w1 :: ws1)) eqn:Hl.
          - destruct (spacings (w1 :: ws1)); simpl; eauto.
          - apply last_None in Hl. done. }
        destruct Hs as (d & ds & Hs). rewrite Hs. simpl.
        rewrite existsb_app. simpl. rewrite orb_false_r.
        destruct (flt Epsilon (fsub (fsub w w0) d)).
        -- by rewrite orb_true_r.
        -- by rewrite orb_false_r.
Qed.

(** C3 (amended). For a spectrum given by wavelength:value pairs that all
    convert: parsing fails when some wavelength is smaller than the one
    before it (two equal wavelengths in a row are accepted), and fails when
    some spacing after the first exceeds the first by more than epsilon;
    when no wavelength decreases and every later spacing is within epsilon
    of the first, an interpolated spectrum is instantiated from the first and
    last wavelength, the number of pairs and the scaled values. *)
Theorem C3_spectrum_order_and_spacing (src : string) (off : Z) (a : attrs)
    (tokens : list string) (within_emitter : bool) (s : pstate)
    (pairs : list (Float * Float)) :
  mapM (spectrum_pair src off) tokens = Ok pairs →
  let ws := map fst pairs in
  let u := if within_emitter then emitter_unit_conversion else f1 in
  (decreasing ws = true →
     spectrum_pairs src off a tokens within_emitter s = throw_error src off WavelengthOrder)
  ∧ (decreasing ws = false → exceeds_first ws = true →
     spectrum_pairs src off a tokens within_emitter s = Throw (Plain IrregularSpectrum))
  ∧ (decreasing ws = false → exceeds_first ws = false → falls_short ws = false →
     ∀ lambda_min lambda_max : Float,
       head ws = Some lambda_min → last ws = Some lambda_max →
       spectrum_pairs src off a tokens within_emitter s
       = (obj ← new_object
                  (interpolated_properties lambda_min lambda_max (length ws)
                     (map (λ p, fmul p.2 u) pairs))
                  (spectrum_class s);
          bind_interpolated a obj within_emitter s)).
Proof.
  intros Hp ws u. unfold spectrum_pairs. fold u.
  rewrite (spectrum_loop src off u tokens pairs Hp). fold ws.
  split; [|split].
  - by intros ->.
  - intros -> He. simpl. unfold spectrum_interpolated, acc_after. fold ws. simpl.
    by rewrite He.
  - intros -> He _ lambda_min lambda_max Hmin Hmax. simpl.
    unfold spectrum_interpolated, acc_after. fold ws. simpl. rewrite He. simpl.
    unfold front, back. rewrite Hmax.
    destruct ws as [|w0 ws']; [done|]. simpl in Hmin. inversion Hmin. subst w0.
    reflexivity.
Qed.

(** The spectrum case takes this branch whenever the value does not
    consist of a single token. *)
Lemma spectrum_case_pairs (src : string) (off : Z) (elem : string) (a : attrs)
    (within_emitter : bool) (s : pstate) :
  check_attributes src off elem a ["name"; "value"] true = Ok tt →
  length (tokenize (attribute_value "value" a) default_delim) ≠ 1%nat →
  case_ESpectrum src off elem a within_emitter s
  = spectrum_pairs src off a (tokenize (attribute_value "value" a) default_delim)
                   within_emitter s.
Proof.
  intros Hc Hl. unfold case_ESpectrum. rewrite Hc. simpl.
  destruct (tokenize _ _) as [|t [|t' ts]]; simpl in *; done.
Qed.

(** ** Booleans (C4) *)

(** C4 (amended). The boolean case lowers the text of the [value] attribute
    before it compares: a boolean element whose attributes are [name] and
    [value] is accepted exactly when the lowered text of the value is [true]
    or [false] (so [True] and [TRUE] are accepted, and bound as true); for
    any other text the case throws. *)
Theorem C4_boolean_compares_lowered_value (src : string) (off : Z) (elem : string)
    (a : attrs) (s : pstate) :
  check_attributes src off elem a ["name"; "value"] true = Ok tt →
  let value := to_lower (attribute_value "value" a) in
  (value = "true" →
   case_EBoolean src off elem a s = Ok (bind_property a (PBool true) s))
  ∧ (value = "false" →
     case_EBoolean src off elem a s = Ok (bind_property a (PBool false) s))
  ∧ (value ≠ "true" → value ≠ "false" →
     case_EBoolean src off elem a s = throw_error src off (BadBoolean value)).
Proof.
  intros Hcheck value. unfold case_EBoolean. rewrite Hcheck. simpl. fold value.
  repeat split.
  - intros ->. reflexivity.
  - intros ->. reflexivity.
  - intros Ht Hf.
    destruct (String.eqb value "true") eqn:E1; [by apply String.eqb_eq in E1|].
    destruct (String.eqb value "false") eqn:E2; [by apply String.eqb_eq in E2|].
    reflexivity.
Qed.

(** ** Transforms (C6) *)

Lemma locate_ok {A} (src : string) (off : Z) (m : outcome A) (x : A) :
  locate src off m = Ok x → m = Ok x.
Proof. destruct m as [|e|]; try done. by destruct e. Qed.

Lemma bind_ok {A B} (m : outcome A) (f : A → outcome B) (y : B) :
  m ≫= f = Ok y → ∃ x, m = Ok x ∧ f x = Ok y.
Proof. destruct m; try done. intros H. by eexists. Qed.

Lemma fmap_ok {A B} (m : outcome A) (f : A → B) (y : B) :
  f <$> m = Ok y → ∃ x, m = Ok x ∧ y = f x.
Proof. destruct m; try done. intros H. inversion H. by eexists. Qed.

(** What an accepted head tells about the element. *)
Lemma head_element (src : string) (ty : node_type) (name : string) (a : attrs) (off : Z)
    (parent_tag : ETag) (depth : nat) (s : pstate) (tag : ETag) (a1 : attrs)
    (version : option Version) :
  parse_xml_head reg src ty name a off parent_tag depth s = Ok (Some (tag, a1, version)) →
  ty = node_element
  ∧ a1 = substitute (ps_param s) a
  ∧ resolve_tag reg name a1 (variant (ps_ctx s)) = Some tag
  ∧ check_structure src off name tag parent_tag = Ok tt.
Proof.
  unfold parse_xml_head. intros H.
  destruct (bool_decide (ty = node_comment) || bool_decide (ty = node_declaration));
    [done|].
  destruct (bool_decide (ty ≠ node_element)) eqn:Hty; [done|].
  apply bool_decide_eq_false in Hty. apply dec_stable in Hty.
  destruct (resolve_tag reg name _ _) as [tag'|] eqn:Hr; [|done].
  destruct (check_structure src off name tag' parent_tag) as [[]| |] eqn:Hc;
    simpl in H; try done.
  destruct (attribute "version" _).
  - destruct (parse_version s0); [|done]. inversion H. by subst.
  - destruct (depth =? 0)%nat; [done|]. inversion H. by subst.
Qed.

Lemma head_skipped (src : string) (ty : node_type) (name : string) (a : attrs) (off : Z)
    (parent_tag : ETag) (depth : nat) (s : pstate) :
  parse_xml_head reg src ty name a off parent_tag depth s = Ok None →
  bool_decide (ty = node_comment) || bool_decide (ty = node_declaration) = true.
Proof.
  unfold parse_xml_head. intros H.
  destruct (bool_decide (ty = node_comment) || bool_decide (ty = node_declaration));
    [done|].
  destruct (bool_decide (ty ≠ node_element)); [done|].
  destruct (resolve_tag reg name _ _) as [tag'|]; [|done].
  destruct (check_structure src off name tag' parent_tag) as [[]| |]; simpl in H; try done.
  destruct (attribute "version" _).
  - by destruct (parse_version s0).
  - by destruct (depth =? 0)%nat.
Qed.

(** Below a transform element only transform operations pass the checks;
    below a transform operation nothing does. *)
Lemma structure_below_transform (src : string) (off : Z) (name : string) (tag : ETag) :
  check_structure src off name tag ETransform = Ok tt → is_transform_op tag = true.
Proof. destruct tag; vm_compute; done. Qed.

Lemma structure_below_operation (src : string) (off : Z) (name : string)
    (tag parent_tag : ETag) :
  is_transform_op parent_tag = true →
  check_structure src off name tag parent_tag ≠ Ok tt.
Proof. destruct parent_tag, tag; vm_compute; done. Qed.

(** The children of a transform operation leave the state as it is. *)
Lemma child_of_operation (included : option parser) (src : string) (ch : xml_node)
    (parent_tag : ETag) (depth : nat) (we : bool) (s : pstate) (r : result) (s' : pstate) :
  is_transform_op parent_tag = true →
  parse_xml_deep reg included src ch parent_tag depth we s = Ok (r, s') →
  s' = s.
Proof.
  intros Hop. destruct ch as [ty name a chs off]. simpl. unfold parse_xml_below.
  intros H. apply locate_ok in H. apply bind_ok in H as (h & Hh & H).
  destruct h as [[[tag a1] version]|].
  - apply head_element in Hh as (_ & _ & _ & Hc).
    by apply structure_below_operation in Hc.
  - by inversion H.
Qed.

Lemma children_of_operation (included : option parser) (src : string) (tag : ETag)
    (depth : nat) (chs : list xml_node) :
  is_transform_op tag = true →
  ∀ s s' : pstate,
    foldM (parse_rest (parse_xml_deep reg included) src tag depth) chs s = Ok s' → s' = s.
Proof.
  intros Hop. induction chs as [|ch chs IH]; intros s s' H; simpl in H.
  - by inversion H.
  - apply bind_ok in H as (s1 & H1 & H). unfold parse_rest in H1.
    apply bind_ok in H1 as ([r s2] & H1 & H2). inversion H2. subst s2.
    apply (child_of_operation _ _ _ _ _ _ _ _ _ Hop) in H1. subst s1. by apply IH.
Qed.

(** An element that is neither an object nor a reference gets no
    synthesised attribute. *)
Lemma name_and_id_plain (src : string) (off : Z) (name : string) (tag : ETag) (a : attrs)
    (s : pstate) (a' : attrs) (s' : pstate) :
  tag ≠ EObject → tag ≠ ENamedReference →
  name_and_id src off name tag a s = Ok (a', s') → a' = a ∧ s' = s.
Proof.
  intros Ho Hr. unfold name_and_id.
  rewrite (bool_decide_eq_false_2 _ Ho), (bool_decide_eq_false_2 _ Hr). simpl.
  intros H. apply bind_ok in H as ([a1 s1] & H1 & H).
  assert (a1 = a ∧ s1 = s) as [-> ->].
  { destruct (attribute "name" a).
    - destruct (starts_with _ _); [done|]. by inversion H1.
    - by inversion H1. }
  destruct (attribute "id" a).
  - destruct (starts_with _ _); [done|]. by inversion H.
  - by inversion H.
Qed.

(** An attribute that is not expected makes the check of the attributes
    throw. *)
Lemma check_attributes_loop_unexpected (k : string) (a : attrs) :
  k ∈ a.*1 →
  ∀ (expected : list string) (found : bool),
    k ∉ expected → ∃ k', check_attributes_loop a expected found = inl k'.
Proof.
  induction a as [|[k0 v0] a IH]; simpl; intros Hin expected found Hk.
  - by apply elem_of_nil in Hin.
  - destruct (bool_decide (k0 ∈ expected)) eqn:Hd; [|by eexists].
    apply bool_decide_eq_true in Hd.
    apply elem_of_cons in Hin as [->|Hin]; [done|].
    apply IH; [done|]. intros Hf. apply list_elem_of_filter in Hf as [_ Hf]. done.
Qed.

Lemma check_attributes_unexpected (src : string) (off : Z) (elem k : string) (a : attrs)
    (expected : list string) (expect_all : bool) :
  k ∈ a.*1 → k ∉ expected →
  check_attributes src off elem a expected expect_all ≠ Ok tt.
Proof.
  intros Hin Hk. unfold check_attributes.
  destruct (check_attributes_loop_unexpected k a Hin expected false Hk) as [k' ->].
  done.
Qed.

Lemma remove_attribute_keeps (name k : string) (a : attrs) :
  k ≠ name → k ∈ a.*1 → k ∈ (remove_attribute name a).*1.
Proof.
  intros Hne. induction a as [|[k0 v0] a IH]; simpl; [done|].
  intros Hin. destruct (String.eqb k0 name) eqn:E.
  - apply String.eqb_eq in E. subst k0.
    apply elem_of_cons in Hin as [->|Hin]; done.
  - simpl. apply elem_of_cons in Hin as [->|Hin]; [left | right; by apply IH].
Qed.

Lemma expansion_keeps (src : string) (off : Z) (k : string) (a a' : attrs) :
  k ≠ "value" → k ∈ a.*1 →
  expand_value_to_xyz src off a = Ok a' → k ∈ a'.*1.
Proof.
  intros Hne Hin. unfold expand_value_to_xyz.
  destruct (attribute "value" a); [|by intros [= <-]].
  destruct (_ || _); [done|].
  assert (Hk : ∀ t0 t1 t2, k ∈ (expanded a t0 t1 t2).*1).
  { intros t0 t1 t2. unfold expanded, append_attribute.
    apply remove_attribute_keeps; [done|].
    rewrite !fmap_app. apply elem_of_app. left. apply elem_of_app. left.
    apply elem_of_app. by left. }
  destruct (tokenize _ _) as [|t0 [|t1 [|t2 [|t3 ts]]]]; intros H; inversion H;
    subst a'; apply Hk.
Qed.

(** No transform operation accepts an attribute called [type]. *)
Lemma operation_refuses_type (tag : ETag) (src : string) (off : Z) (elem : string)
    (a : attrs) (op : Transform4f) :
  "type" ∈ a.*1 → operation tag src off elem a ≠ Ok op.
Proof.
  intros Hin H. destruct tag; simpl in H; try done.
  - (* translate *)
    unfold op_ETranslate in H. apply bind_ok in H as (a' & Ha & H).
    apply (expansion_keeps _ _ "type") in Ha; [|done|done].
    unfold xyz_ETranslate in H. apply bind_ok in H as ([] & Hc & _).
    by apply (check_attributes_unexpected _ _ _ "type") in Hc; [| |not_listed].
  - (* matrix *)
    unfold op_EMatrix in H. apply bind_ok in H as ([] & Hc & _).
    by apply (check_attributes_unexpected _ _ _ "type") in Hc; [| |not_listed].
  - (* rotate *)
    unfold op_ERotate in H. apply bind_ok in H as (a' & Ha & H).
    apply (expansion_keeps _ _ "type") in Ha; [|done|done].
    unfold xyz_ERotate in H. apply bind_ok in H as ([] & Hc & _).
    by apply (check_attributes_unexpected _ _ _ "type") in Hc; [| |not_listed].
  - (* scale *)
    unfold op_EScale in H. apply bind_ok in H as (a' & Ha & H).
    apply (expansion_keeps _ _ "type") in Ha; [|done|done].
    unfold xyz_EScale in H. apply bind_ok in H as ([] & Hc & _).
    by apply (check_attributes_unexpected _ _ _ "type") in Hc; [| |not_listed].
  - (* lookat *)
    unfold op_ELookAt in H. apply bind_ok in H as ([] & Hc & _).
    by apply (check_attributes_unexpected _ _ _ "type") in Hc; [| |not_listed].
Qed.

(** The switch on a transform operation. *)
Lemma switch_operation (self : parser) (included : option parser) (src : string)
    (tag : ETag) (name : string) (a : attrs) (children : list xml_node) (off : Z)
    (parent_tag : ETag) (depth : nat) (we : bool) (s : pstate) (fl : flow) :
  is_transform_op tag = true →
  switch reg self included src tag name a children off parent_tag depth we s = Ok fl →
  ∃ op, operation tag src off name a = Ok op ∧ fl = Break (left_multiply op s).
Proof.
  intros Hop H. destruct tag; try done; simpl in H;
    apply fmap_ok in H as (s1 & H & ->); unfold case_operation in H;
    apply bind_ok in H as (op & Hop' & H); inversion H; by exists op.
Qed.

Lemma remove_attribute_absent (name : string) (a : attrs) :
  attribute name a = None → remove_attribute name a = a.
Proof.
  induction a as [|[k v] a IH]; simpl; [done|].
  destruct (String.eqb k name); [done|]. intros H. by rewrite IH.
Qed.

Lemma remove_version_spec (version : option Version) (param : ParameterList) (a : attrs) :
  (version = None → attribute "version" (substitute param a) = None) →
  remove_version version (substitute param a)
  = remove_attribute "version" (substitute param a).
Proof.
  destruct version; [done|]. intros H. simpl. by rewrite remove_attribute_absent; [|apply H].
Qed.

Lemma head_version (src : string) (ty : node_type) (name : string) (a : attrs) (off : Z)
    (parent_tag : ETag) (depth : nat) (s : pstate) (tag : ETag) (a1 : attrs) :
  parse_xml_head reg src ty name a off parent_tag depth s = Ok (Some (tag, a1, None)) →
  attribute "version" a1 = None.
Proof.
  unfold parse_xml_head. intros H.
  destruct (bool_decide (ty = node_comment) || bool_decide (ty = node_declaration));
    [done|].
  destruct (bool_decide (ty ≠ node_element)); [done|].
  destruct (resolve_tag reg name _ _) as [tag'|]; [|done].
  destruct (check_structure src off name tag' parent_tag) as [[]| |]; simpl in H; try done.
  destruct (attribute "version" _) eqn:Hv.
  - by destruct (parse_version s0).
  - destruct (depth =? 0)%nat; [done|]. inversion H. by subst.
Qed.

(** A child of a transform element that is accepted is skipped, or
    multiplies its operation onto the accumulator from the left; nothing
    else of the state changes but the [modified] flag. *)
Lemma child_of_transform (included : option parser) (src : string) (ch : xml_node)
    (depth : nat) (we : bool) (s : pstate) (r : result) (s' : pstate) :
  parse_xml_deep reg included src ch ETransform depth we s = Ok (r, s') →
  ∃ o, child_operation reg src (ps_param s) (variant (ps_ctx s)) ch = Ok o
       ∧ ∃ m, s' = match o with
                   | Some op => left_multiply op (with_modified m s)
                   | None => s
                   end.
Proof.
  destruct ch as [ty name a chs off]. simpl. unfold parse_xml_below.
  intros H. apply locate_ok in H. apply bind_ok in H as (h & Hh & H).
  destruct h as [[[tag a1] version]|].
  - pose proof (head_element _ _ _ _ _ _ _ _ _ _ _ Hh) as (-> & Ha1 & Hr & Hc).
    apply structure_below_transform in Hc.
    apply bind_ok in H as (m & Hm & H).
    unfold parse_xml_tail in H.
    apply bind_ok in H as ([a2 s2] & Hn & H).
    apply name_and_id_plain in Hn as [-> ->]; [|by destruct tag|by destruct tag].
    apply bind_ok in H as (fl & Hs & H).
    apply switch_operation in Hs as (op & Hop & ->); [|done].
    apply bind_ok in H as (s3 & Hf & H).
    apply children_of_operation in Hf; [|done]. subst s3.
    assert (Hscene : String.eqb name "scene" = false).
    { destruct (String.eqb name "scene"); [|done].
      exfalso. apply (operation_refuses_type _ _ _ _ _ _) in Hop; [done|].
      unfold append_attribute. rewrite fmap_app. apply elem_of_app. right.
      apply list_elem_of_singleton. reflexivity. }
    rewrite Hscene in *. simpl in *.
    assert (Ht : bool_decide (tag = ETransform) = false) by (by destruct tag).
    rewrite Ht in *. inversion H. subst r s'.
    exists (Some op). split.
    + subst a1. rewrite Hr.
      rewrite <- (remove_version_spec version); [by rewrite Hop|].
      intros ->. by apply head_version in Hh.
    + by exists m.
  - apply head_skipped in Hh. rewrite Hh. inversion H. subst. exists None. eauto.
Qed.

(** The loop over the children of a transform element: the accumulator
    ends as the left fold of their operations, in document order. *)
Lemma children_of_transform (included : option parser) (src : string) (depth : nat)
    (children : list xml_node) :
  ∀ s s' : pstate,
    foldM (parse_rest (parse_xml_deep reg included) src ETransform depth) children s = Ok s' →
    ∃ ops,
      mapM (child_operation reg src (ps_param s) (variant (ps_ctx s))) children = Ok ops
      ∧ transform (ps_ctx s') = left_fold (omap id ops) (transform (ps_ctx s))
      ∧ ps_props s' = ps_props s.
Proof.
  induction children as [|ch chs IH]; intros s s' H; simpl in H.
  - inversion H. subst. by exists [].
  - apply bind_ok in H as (s1 & H1 & H). unfold parse_rest in H1.
    apply bind_ok in H1 as ([r s2] & H1 & H2). inversion H2. subst s2.
    apply child_of_transform in H1 as (o & Ho & m & Hs1).
    apply IH in H as (ops & Hops & Ht & Hp).
    assert (Hsame : ps_param s1 = ps_param s ∧ variant (ps_ctx s1) = variant (ps_ctx s)
                    ∧ ps_props s1 = ps_props s
                    ∧ transform (ps_ctx s1)
                      = match o with
                        | Some op => transform_mul op (transform (ps_ctx s))
                        | None => transform (ps_ctx s)
                        end).
    { subst s1. by destruct o. }
    destruct Hsame as (Hparam & Hvar & Hprops & Htr).
    rewrite Hparam, Hvar in Hops.
    exists (o :: ops). simpl. rewrite Ho. simpl. rewrite Hops. simpl.
    split; [done|]. split; [|congruence].
    rewrite Ht, Htr. by destruct o.
Qed.

Lemma attribute_value_append_other (name other value : string) (a : attrs) :
  other ≠ name →
  attribute_value name (append_attribute other value a) = attribute_value name a.
Proof.
  intros Hne. unfold attribute_value, append_attribute.
  destruct (attribute name a) eqn:Ha.
  - by rewrite (attribute_app_present _ _ _ _ Ha).
  - rewrite (attribute_app_absent _ _ _ Ha). simpl.
    destruct (String.eqb other name) eqn:E; [|done].
    by apply String.eqb_eq in E.
Qed.

(** C6. When a transform element is accepted, the operations of its
    children all evaluate, and the transform bound in the properties of the
    parent under the [name] attribute of the element is their left fold over
    the identity in document order: each operation is multiplied from the
    left onto the accumulator. This holds for the element as [parse_xml] has
    it after the substitution of the parameters, be it the root of a
    document or not, and so for [parse_xml] on every transform element below
    the root. *)
Theorem C6_transform_is_left_fold (inc : nat) (src : string) :
  transform_recorded reg (included_parser reg inc) src
  ∧ ∀ (node : xml_node) (parent_tag : ETag) (depth : nat) (within_emitter : bool)
      (s : pstate) (r : result) (s' : pstate),
      n_type node = node_element →
      resolve_tag reg (n_name node) (substitute (ps_param s) (n_attrs node))
                  (variant (ps_ctx s)) = Some ETransform →
      parse_xml reg inc src node parent_tag (S depth) within_emitter s = Ok (r, s') →
      ∃ ops : list (option Transform4f),
        mapM (child_operation reg src (ps_param s) (variant (ps_ctx s))) (n_children node)
        = Ok ops
        ∧ props_get (attribute_value "name" (substitute (ps_param s) (n_attrs node)))
                    (ps_props s')
          = Some (PTransform (left_fold (omap id ops) transform_identity)).
Proof.
  assert (Htail : transform_recorded reg (included_parser reg inc) src).
  { intros name a children off parent_tag depth within_emitter s r s'.
    unfold parse_xml_tail. intros H.
    apply bind_ok in H as ([a1 s1] & Hn & H).
    apply name_and_id_plain in Hn as [-> ->]; [|done|done].
    apply bind_ok in H as (fl & Hs & H). simpl in Hs.
    apply fmap_ok in Hs as (s2 & Hs & ->). unfold case_ETransform in Hs.
    apply bind_ok in Hs as ([] & _ & Hs). inversion Hs. subst s2. clear Hs.
    apply bind_ok in H as (s3 & Hf & H).
    apply children_of_transform in Hf as (ops & Hops & Ht & Hp).
    exists ops. split.
    - rewrite <- Hops. by destruct (String.eqb name "scene").
    - rewrite bool_decide_eq_true_2 in H by done. inversion H. subst r s'.
      unfold bind_property. simpl.
      assert (Hname : attribute_value "name"
                        (if String.eqb name "scene"
                         then append_attribute "type" "scene" a else a)
                      = attribute_value "name" a).
      { destruct (String.eqb name "scene"); [|done].
        by apply attribute_value_append_other. }
      rewrite Hname, props_get_set_eq. rewrite Ht. simpl.
      by destruct (String.eqb name "scene"). }
  split; [exact Htail|].
  intros [ty name a chs off] parent_tag depth within_emitter s r s'. simpl.
  intros -> Hr H.
  assert (H' : parse_xml_below reg (parse_xml_deep reg (included_parser reg inc))
                 (included_parser reg inc) src node_element name a chs off parent_tag
                 (S depth) within_emitter s = Ok (r, s'))
    by (by destruct inc).
  clear H. unfold parse_xml_below in H'.
  apply locate_ok in H'. apply bind_ok in H' as (h & Hh & H).
  destruct h as [[[tag a1] version]|]; [|by apply head_skipped in Hh].
  pose proof (head_element _ _ _ _ _ _ _ _ _ _ _ Hh) as (_ & -> & Hr' & _).
  rewrite Hr in Hr'. inversion Hr'. subst tag.
  apply bind_ok in H as (m & Hm & H).
  apply Htail in H as (ops & Hops & Hget).
  exists ops. split; [done|]. rewrite <- Hget. f_equal.
  destruct version; [|done]. simpl. unfold attribute_value.
  by rewrite attribute_remove_other.
Qed.

(** ** The upgrade of old documents (C2) *)

Lemma xml_node_induction (Q : xml_node → Prop) :
  (∀ ty name a chs off, Forall Q chs → Q (XmlNode ty name a chs off)) →
  ∀ n, Q n.
Proof.
  intros H. fix IH 1. intros [ty name a chs off]. apply H.
  induction chs as [|c chs IHchs]; constructor; [apply IH | exact IHchs].
Qed.

Lemma subtree_any_node (p : xml_node → bool) (ty : node_type) (name : string) (a : attrs)
    (chs : list xml_node) (off : Z) :
  subtree_any p (XmlNode ty name a chs off)
  = p (XmlNode ty name a chs off) || existsb (subtree_any p) chs.
Proof. reflexivity. Qed.

Lemma is_named_node (nm : string) (ty : node_type) (name : string) (a : attrs)
    (chs : list xml_node) (off : Z) :
  is_named nm (XmlNode ty name a chs off)
  = bool_decide (ty = node_element) && String.eqb name nm.
Proof. reflexivity. Qed.

(** After the second rewrite no element is called [lookAt], and a tree
    that had such an element has one called [lookat]. *)
Lemma rename_lookat_spec (n : xml_node) :
  subtree_any (is_named "lookAt") (rename_lookat n) = false
  ∧ (subtree_any (is_named "lookAt") n = true →
     subtree_any (is_named "lookat") (rename_lookat n) = true).
Proof.
  induction n as [ty name a chs off IH] using xml_node_induction.
  assert (Hchs : existsb (subtree_any (is_named "lookAt")) (map rename_lookat chs) = false
                 ∧ (existsb (subtree_any (is_named "lookAt")) chs = true →
                    existsb (subtree_any (is_named "lookat")) (map rename_lookat chs) = true)).
  { induction IH as [|c chs [Hc1 Hc2] _ [IH1 IH2]]; simpl; [done|].
    rewrite Hc1, IH1. split; [done|].
    intros [H|H]%orb_true_iff; [by rewrite Hc2 | rewrite IH2; [apply orb_true_r | done]]. }
  destruct Hchs as [H1 H2].
  change (rename_lookat (XmlNode ty name a chs off))
    with (XmlNode ty
            (if bool_decide (ty = node_element) && String.eqb name "lookAt"
             then "lookat" else name)
            a (map rename_lookat chs) off).
  rewrite !subtree_any_node, !is_named_node, H1.
  destruct (bool_decide (ty = node_element)); simpl; [|done].
  destruct (String.eqb name "lookAt") eqn:E; simpl; [done|].
  rewrite E. simpl. split; [done|]. intros H. rewrite (H2 H). apply orb_true_r.
Qed.

Lemma find_index_find {A} (p : A → bool) (l : list A) :
  match find_index p l with
  | Some i => ∃ x, l !! i = Some x ∧ find p l = Some x
  | None => find p l = None
  end.
Proof.
  induction l as [|x l IH]; simpl; [done|].
  destruct (p x); simpl; [by exists x|].
  destruct (find_index p l); simpl; [|done].
  destruct IH as (y & Hy & Hf). by exists y.
Qed.

(** One of the four blocks, when it ends normally. *)
Lemma take_uv_ok (nm : string) (chs : list xml_node) (removed : list nat) (dflt v : Float)
    (removed' : list nat) :
  take_uv chs removed (find_index (is_uv_float nm) chs) dflt = Ok (v, removed') →
  uv_value nm dflt chs = Ok v
  ∧ removed' = match find_index (is_uv_float nm) chs with
               | Some i => i :: removed
               | None => removed
               end.
Proof.
  unfold take_uv, uv_value.
  pose proof (find_index_find (is_uv_float nm) chs) as Hf.
  destruct (find_index (is_uv_float nm) chs) as [i|].
  - destruct Hf as (c & Hc & ->). destruct (bool_decide (i ∈ removed)); [done|].
    rewrite Hc. intros H. apply bind_ok in H as (x & Hx & H). inversion H. by subst.
  - rewrite Hf. intros H. by inversion H.
Qed.

Lemma keep_children_drop (rec : xml_node → outcome xml_node) (removed ps : list nat)
    (l : list xml_node) :
  (∀ i, i ∈ removed ↔ i ∈ ps) →
  ∀ (i : nat) (kept : list xml_node),
    keep_children rec removed i l = Ok kept →
    mapM rec (drop_positions ps i l) = Ok kept.
Proof.
  intros Hq. induction l as [|c l IH]; intros i kept H; simpl in *; [done|].
  rewrite <- (bool_decide_ext _ _ (Hq i)).
  destruct (bool_decide (i ∈ removed)).
  - destruct (subtree_selects_uv c); [done|]. by apply IH.
  - apply bind_ok in H as (c' & Hc & H). apply bind_ok in H as (cs & Hcs & H).
    simpl. rewrite Hc. simpl. rewrite (IH _ _ Hcs). done.
Qed.

(** The third rewrite on an element that the query selects. *)
Lemma upgrade_uv_selected (n n' : xml_node) :
  selects_uv n = true →
  upgrade_uv n = Ok n' →
  ∃ (ox oy sx sy : Float) (kept : list xml_node),
    uv_value "uoffset" f0 (n_children n) = Ok ox
    ∧ uv_value "voffset" f0 (n_children n) = Ok oy
    ∧ uv_value "uscale" f1 (n_children n) = Ok sx
    ∧ uv_value "vscale" f1 (n_children n) = Ok sy
    ∧ mapM upgrade_uv (drop_positions (first_uv (n_children n)) 0 (n_children n)) = Ok kept
    ∧ n' = XmlNode (n_type n) (n_name n) (n_attrs n) (kept ++ [to_uv ox oy sx sy])
                   (n_offset n).
Proof.
  destruct n as [ty name a chs off]. intros Hsel H.
  change (upgrade_uv (XmlNode ty name a chs off))
    with (if selects_uv (XmlNode ty name a chs off) then
            '(removed, trafo) ← rewrite_uv chs;
            kept ← keep_children upgrade_uv removed 0 chs;
            Ok (XmlNode ty name a (kept ++ [trafo]) off)
          else
            chs' ← mapM upgrade_uv chs;
            Ok (XmlNode ty name a chs' off)) in H.
  rewrite Hsel in H. simpl.
  apply bind_ok in H as ([removed trafo] & Hr & H).
  apply bind_ok in H as (kept & Hk & H). inversion H. subst n'. clear H.
  unfold rewrite_uv in Hr.
  apply bind_ok in Hr as ([ox r1] & H1 & Hr). apply take_uv_ok in H1 as [Hox ->].
  apply bind_ok in Hr as ([oy r2] & H2 & Hr). apply take_uv_ok in H2 as [Hoy ->].
  apply bind_ok in Hr as ([sx r3] & H3 & Hr). apply take_uv_ok in H3 as [Hsx ->].
  apply bind_ok in Hr as ([sy r4] & H4 & Hr). apply take_uv_ok in H4 as [Hsy ->].
  inversion Hr. subst removed trafo. clear Hr.
  exists ox, oy, sx, sy, kept. repeat split; try done.
  refine (keep_children_drop upgrade_uv _ (first_uv chs) chs _ 0%nat kept Hk).
  intros i. unfold first_uv. simpl.
  destruct (find_index (is_uv_float "uoffset") chs),
           (find_index (is_uv_float "voffset") chs),
           (find_index (is_uv_float "uscale") chs),
           (find_index (is_uv_float "vscale") chs); simpl;
    rewrite ?elem_of_cons, ?elem_of_nil; tauto.
Qed.

(** C2 (amended). A document older than 2.0.0, and not of the current
    version, is rewritten in three steps: the [name] attributes go from
    camelCase to underscore_case, every element called [lookAt] is renamed
    [lookat], and every element with a child [float] whose name is then
    [uoffset], [voffset], [uscale] or [vscale] loses the first such child of
    each name and gains, as its last child, a transform called [to_uv] that
    holds a translate (if an offset differs from 0) and a scale (if a scale
    differs from 1) whose [x] and [y] are printed by std::to_string. A
    property written [uOffset] is renamed [u_offset] by the first step; the
    third step does not look for that name. *)
Theorem C2_upgrade_rewrites :
  (* the three steps *)
  (∀ (modified : bool) (node : xml_node) (version : Version),
     Version_ltb version (mkVersion 2 0 0) = true →
     Version_eqb version MTS_VERSION = false →
     upgrade_tree modified node version
     = (n1 ← upgrade_names node; n3 ← upgrade_uv (rename_lookat n1); Ok (n3, true)))
  (* lookAt *)
  ∧ (∀ n : xml_node,
       subtree_any (is_named "lookAt") (rename_lookat n) = false
       ∧ (subtree_any (is_named "lookAt") n = true →
          subtree_any (is_named "lookat") (rename_lookat n) = true))
  (* the four properties *)
  ∧ (∀ n n' : xml_node,
       selects_uv n = true →
       upgrade_uv n = Ok n' →
       ∃ (ox oy sx sy : Float) (kept : list xml_node),
         uv_value "uoffset" f0 (n_children n) = Ok ox
         ∧ uv_value "voffset" f0 (n_children n) = Ok oy
         ∧ uv_value "uscale" f1 (n_children n) = Ok sx
         ∧ uv_value "vscale" f1 (n_children n) = Ok sy
         ∧ mapM upgrade_uv (drop_positions (first_uv (n_children n)) 0 (n_children n))
           = Ok kept
         ∧ n' = XmlNode (n_type n) (n_name n) (n_attrs n) (kept ++ [to_uv ox oy sx sy])
                        (n_offset n))
  (* the spelling of the names *)
  ∧ upgrade_name "uOffset" = Ok "u_offset"
  ∧ upgrade_name "uoffset" = Ok "uoffset"
  ∧ (∀ (nm value : string) (chs : list xml_node) (off : Z),
       nm ∈ ["uoffset"; "voffset"; "uscale"; "vscale"] →
       is_uv_float nm
         (XmlNode node_element "float" [("name", "u_offset"); ("value", value)] chs off)
       = false).
Proof.
  split; [|split; [|split; [|split; [|split]]]].
  - intros modified node version Hlt Hne. unfold upgrade_tree. by rewrite Hne, Hlt.
  - apply rename_lookat_spec.
  - apply upgrade_uv_selected.
  - reflexivity.
  - reflexivity.
  - intros nm value chs off Hnm.
    repeat (apply elem_of_cons in Hnm as [->|Hnm]; [reflexivity|]).
    by apply elem_of_nil in Hnm.
Qed.

(** ** The camelCase rewrite on names that are not empty *)

Lemma length_append (s t : string) :
  String.length (s +:+ t) = (String.length s + String.length t)%nat.
Proof. induction s as [|c s IH]; simpl; [done | by rewrite IH]. Qed.

Lemma length_substring_head (n : nat) (s : string) :
  (n ≤ String.length s)%nat → String.length (String.substring 0 n s) = n.
Proof.
  revert s. induction n as [|n IH]; intros s Hn.
  - by destruct s.
  - destruct s as [|c s]; simpl in *; [lia|]. rewrite IH; [done | lia].
Qed.

Lemma length_substr_from (s : string) (n : nat) :
  String.length (substr_from s n) = (String.length s - n)%nat.
Proof.
  revert s. induction n as [|n IH]; intros s.
  - destruct s; simpl; lia.
  - destruct s as [|c s]; simpl; [done | apply IH].
Qed.

Lemma lower_run_length (s : string) :
  String.length (lower_run s).1 = String.length s
  ∧ (N.to_nat (lower_run s).2 ≤ String.length s)%nat.
Proof.
  induction s as [|c s [IH1 IH2]]; simpl; [done|].
  destruct (isupper c); simpl; [|lia].
  destruct (lower_run s) as [r k]. simpl in *. split; [by rewrite IH1 | lia].
Qed.

Lemma string_at_within (s : string) (i : N) :
  (N.to_nat i ≤ String.length s)%nat → ∃ c, string_at s i = Ok c.
Proof.
  unfold string_at, strlen. intros Hi.
  destruct (String.get (N.to_nat i) s) as [c|] eqn:Hg; [by exists c|].
  assert (Hlen : ∀ (t : string) (n : nat), String.get n t = None →
                   (String.length t ≤ n)%nat).
  { induction t as [|c t IH]; intros n Hn; simpl in *; [lia|].
    destruct n; [done|]. apply IH in Hn. lia. }
  apply Hlen in Hg.
  assert (i = N.of_nat (String.length s)) as -> by lia.
  rewrite N.eqb_refl. by eexists.
Qed.

(** With a name that is not empty the bound of the loop does not wrap, and
    the loop ends, having read the string within its bounds only. *)
Lemma camel_loop_ends (fuel : nat) :
  ∀ (name : string) (i : N),
    (1 ≤ String.length name)%nat →
    (N.to_nat i ≤ String.length name + 1)%nat →
    (2 * Z.of_nat (String.length name) - Z.of_N i + 1 < 2 ^ 64)%Z →
    (String.length name + 2 - N.to_nat i ≤ fuel)%nat →
    ∃ r, camel_loop fuel name i = Ok r.
Proof.
  induction fuel as [|fuel IH]; intros name i H1 Hi Hsz Hfuel; [lia|].
  simpl.
  assert (Hbound : size_t_sub (strlen name) 1 = N.of_nat (String.length name - 1)).
  { unfold size_t_sub, strlen, size_t_modulus. rewrite Z.mod_small; lia. }
  rewrite Hbound.
  destruct (i <? N.of_nat (String.length name - 1))%N eqn:Hlt; [|by eexists].
  apply N.ltb_lt in Hlt.
  destruct (string_at_within name i) as [c ->]; [lia|]. simpl.
  destruct (islower c).
  - destruct (string_at_within name (i + 1)) as [d ->]; [lia|]. simpl.
    destruct (isupper d).
    + pose proof (lower_run_length (substr_from name (N.to_nat i + 1))) as [Hl Hk].
      destruct (lower_run (substr_from name (N.to_nat i + 1))) as [tail k].
      simpl in Hl, Hk. rewrite length_substr_from in Hl, Hk.
      assert (Hlen : String.length (substr name 0 (N.to_nat i + 1) +:+ "_" +:+ tail)
                     = (String.length name + 1)%nat).
      { rewrite !length_append. unfold substr. rewrite length_substring_head by lia.
        simpl. lia. }
      apply IH; rewrite Hlen; lia.
    + apply IH; lia.
  - apply IH; lia.
Qed.

Lemma upgrade_name_ends (name : string) :
  name ≠ "" →
  (2 * Z.of_nat (String.length name) + 1 < 2 ^ 64)%Z →
  ∃ r, upgrade_name name = Ok r.
Proof.
  intros Hne Hsz. unfold upgrade_name. apply camel_loop_ends.
  - destruct name; [done | simpl; lia].
  - simpl. lia.
  - simpl. lia.
  - simpl. lia.
Qed.

End Facts.

(** * Further properties *)

(** ** string_offset and file_offset *)

Lemma scan_buffer_all (buffer rest : list ascii) (pos offset : Z) :
  ∀ i line line_start : Z,
    scan_all (buffer ++ rest) pos (offset + i) line line_start
    = match scan_buffer buffer pos offset i line line_start with
      | inl p => p
      | inr (line', line_start') =>
          scan_all rest pos (offset + i + Z.of_nat (length buffer)) line' line_start'
      end.
Proof.
  induction buffer as [|c buffer IH]; intros i line line_start; simpl.
  - by rewrite Z.add_0_r.
  - destruct (Ascii.eqb c newline); [destruct (pos <=? offset + i)%Z; [done|]|].
    + rewrite <- Z.add_assoc, IH. replace (offset + (i + 1) + Z.of_nat (length buffer))%Z
        with (offset + i + Z.pos (Pos.of_succ_nat (length buffer)))%Z by lia. done.
    + rewrite <- Z.add_assoc, IH. replace (offset + (i + 1) + Z.of_nat (length buffer))%Z
        with (offset + i + Z.pos (Pos.of_succ_nat (length buffer)))%Z by lia. done.
Qed.

(** The size of the buffer does not show in the result, and the fuel is
    enough. *)
Lemma offset_loop_all (size : nat) (pos : Z) :
  (1 ≤ size)%nat →
  ∀ (fuel : nat) (stream : list ascii) (offset line line_start : Z),
    (length stream < fuel)%nat →
    offset_loop fuel size stream pos offset line line_start
    = Ok (scan_all stream pos offset line line_start).
Proof.
  intros Hsize. induction fuel as [|fuel IH]; intros stream offset line line_start Hf; [lia|].
  simpl.
  pose proof (scan_buffer_all (take size stream) (drop size stream) pos offset 0 line
                line_start) as Hb.
  rewrite take_drop, Z.add_0_r in Hb. rewrite Hb.
  destruct (scan_buffer (take size stream) pos offset 0 line line_start)
    as [p|[line' start']]; [done|].
  destruct (size <=? length stream)%nat eqn:Hle.
  - apply Nat.leb_le in Hle. apply IH. rewrite length_drop. lia.
  - apply Nat.leb_gt in Hle. rewrite drop_ge by lia. done.
Qed.

Lemma scan_all_byte_offset (l : list ascii) (pos : Z) :
  ∀ idx line line_start : Z,
    scan_all l pos idx line line_start = ByteOffset pos
    ↔ ∀ j : nat, (pos ≤ idx + Z.of_nat j)%Z → l !! j ≠ Some newline.
Proof.
  induction l as [|c l IH]; intros idx line line_start; simpl.
  - split; [intros _ j _; by rewrite lookup_nil | done].
  - destruct (Ascii.eqb_spec c newline) as [->|Hc].
    + destruct (pos <=? idx)%Z eqn:Hp.
      * apply Z.leb_le in Hp. split; [done|]. intros H. destruct (H 0%nat); [lia | done].
      * apply Z.leb_gt in Hp. rewrite IH. split.
        -- intros H [|j] Hj; [lia|]. simpl. apply H. lia.
        -- intros H j Hj. apply (H (S j)). lia.
    + rewrite IH. split.
      * intros H [|j] Hj; simpl; [congruence|]. apply H. lia.
      * intros H j Hj. apply (H (S j)). lia.
Qed.

(** The line breaks before [pos] are counted, and the last of them is where
    the line starts. *)
Lemma scan_all_before (before l : list ascii) (pos : Z) :
  ∀ idx line line_start : Z,
    (idx + Z.of_nat (length before) < pos)%Z →
    scan_all (before ++ newline :: l) pos idx line line_start
    = scan_all l pos (idx + Z.of_nat (length before) + 1)
               (line + line_breaks before + 1) (idx + Z.of_nat (length before)).
Proof.
  unfold line_breaks.
  induction before as [|c before IH]; intros idx line line_start Hlt; simpl in *.
  - replace (pos <=? idx)%Z with false by lia. f_equal; lia.
  - destruct (Ascii.eqb_spec c newline) as [->|Hc].
    + replace (pos <=? idx)%Z with false by lia.
      rewrite IH by lia. rewrite filter_cons_True by done. simpl. f_equal; lia.
    + rewrite IH by lia. rewrite filter_cons_False by done. f_equal; lia.
Qed.

(** On a line without a break the scan goes on to the break that ends it. *)
Lemma scan_all_line (cur rest : list ascii) (pos : Z) :
  newline ∉ cur →
  ∀ idx line line_start : Z,
    (pos ≤ idx + Z.of_nat (length cur))%Z →
    scan_all (cur ++ newline :: rest) pos idx line line_start
    = LineCol (line + 1) (pos - line_start).
Proof.
  induction cur as [|c cur IH]; intros Hn idx line line_start Hle; simpl in *.
  - by replace (pos <=? idx)%Z with true by lia.
  - apply not_elem_of_cons in Hn as [Hc Hn].
    destruct (Ascii.eqb_spec c newline) as [->|_]; [done|]. apply IH; [done | lia].
Qed.

(** X1. A position at or behind the last line break of the text (and any
    position in a text without a line break) is reported as a byte offset,
    and only such a position is. *)
Theorem string_offset_byte_offset (string : string) (pos : Z) :
  (Z.of_nat (String.length string) < 2 ^ 31)%Z →
  string_offset string pos = Ok (ByteOffset pos)
  ↔ ∀ j : nat, (pos ≤ Z.of_nat j)%Z → list_ascii_of_string string !! j ≠ Some newline.
Proof.
  intros _. unfold string_offset.
  rewrite offset_loop_all by (unfold buffer_size; lia).
  rewrite <- (scan_all_byte_offset _ pos 0 0 0). split; [by intros [= ->] | by intros ->].
Qed.

(** X2. A position that a line break follows is reported by line and
    column. The line is counted from 1. The column is the distance from the
    line break before the position, so that on the first line, where the
    distance is taken from the start of the text, the first character has
    the column 0, and on every later line the column 1. *)
Theorem string_offset_line_and_column (string : string) (pos : Z)
    (before cur rest : list ascii) :
  (Z.of_nat (String.length string) < 2 ^ 31)%Z →
  newline ∉ cur →
  (list_ascii_of_string string = cur ++ newline :: rest →
   (pos ≤ Z.of_nat (length cur))%Z →
   string_offset string pos = Ok (LineCol 1 pos))
  ∧ (list_ascii_of_string string = before ++ newline :: cur ++ newline :: rest →
     (Z.of_nat (length before) < pos ≤ Z.of_nat (length before) + 1 + Z.of_nat (length cur))%Z →
     string_offset string pos
     = Ok (LineCol (line_breaks before + 2) (pos - Z.of_nat (length before)))).
Proof.
  intros _ Hcur. unfold string_offset.
  rewrite offset_loop_all by (unfold buffer_size; lia). split.
  - intros -> Hpos. rewrite scan_all_line by (done || lia). do 2 f_equal. lia.
  - intros -> Hpos. rewrite scan_all_before by lia.
    rewrite scan_all_line by (done || lia). do 2 f_equal; lia.
Qed.

Section Further.
Context `{PM : PluginManager}.
Variable reg : Registry.

(** ** Version *)

(** X3. [operator==] is equality of the three numbers, and [operator<] is
    a strict total order: irreflexive, transitive, and of two versions
    exactly one is smaller unless they are equal. *)
Theorem Version_order (a b c : Version) :
  (Version_eqb a b = true ↔ a = b)
  ∧ Version_ltb a a = false
  ∧ (Version_ltb a b = true → Version_ltb b c = true → Version_ltb a c = true)
  ∧ (Version_ltb a b = true ∨ Version_eqb a b = true ∨ Version_ltb b a = true)
  ∧ (Version_ltb a b = true → Version_eqb a b = false ∧ Version_ltb b a = false).
Proof.
  destruct a as [a1 a2 a3], b as [b1 b2 b3], c as [c1 c2 c3].
  unfold Version_eqb, Version_ltb. simpl.
  rewrite <- !not_true_iff_false.
  repeat rewrite ?orb_true_iff, ?andb_true_iff, ?N.ltb_lt, ?N.eqb_eq.
  split; [|split; [|split; [|split]]]; try lia.
  split; [by intros [[-> ->] ->] | by intros [= -> -> ->]].
Qed.

(** ** register_class *)

Lemma register_class_keeps_tags (r0 : option Registry) (c : Class) :
  initial_tags ⊆ tags (default (mkRegistry initial_tags ∅) r0) →
  initial_tags ⊆ tags (register_class r0 c).
Proof.
  intros Hsub. unfold register_class.
  set (r := default (mkRegistry initial_tags ∅) r0) in *.
  assert (Hr1 : initial_tags ⊆ tags
            match tags r !! class_alias c with
            | None => mkRegistry (<[class_alias c := EObject]> (tags r))
                        (<[construct_key (class_alias c) (class_variant c) := c]> (tag_class r))
            | Some t =>
                if bool_decide (t ≠ EObject)
                then mkRegistry (tags r)
                       (<[construct_key (class_alias c) (class_variant c) := c]> (tag_class r))
                else r
            end).
  { destruct (tags r !! class_alias c) as [t|] eqn:Ht.
    - by destruct (bool_decide (t ≠ EObject)).
    - simpl. apply insert_subseteq_r; [|done]. by eapply lookup_weaken_None. }
  destruct (String.eqb (class_alias c) "spectrum"); [|done].
  simpl. apply insert_subseteq_r; [reflexivity | done].
Qed.

Lemma registered_snoc (c c' : Class) (cs : list Class) :
  registered c (cs ++ [c']) = register_class (Some (registered c cs)) c'.
Proof. unfold registered. by rewrite fold_left_app. Qed.

Lemma registered_keeps_tags (c : Class) (cs : list Class) :
  initial_tags ⊆ tags (registered c cs).
Proof.
  induction cs as [|c' cs IH] using rev_ind.
  - by apply register_class_keeps_tags.
  - rewrite registered_snoc. by apply register_class_keeps_tags.
Qed.

(** X4. Whatever classes are registered, in whatever order and under
    whatever alias, the nineteen tags of the initial table keep their
    meaning: no class takes over the tag of a property, of a transform
    operation, of [ref], [include], [alias] or [default]. *)
Theorem registration_keeps_initial_tags (c : Class) (cs : list Class) :
  initial_tags ⊆ tags (registered c cs)
  ∧ tags (registered c cs) !! "float" = Some EFloat
  ∧ tags (registered c cs) !! "spectrum" = Some ESpectrum
  ∧ tags (registered c cs) !! "ref" = Some ENamedReference.
Proof.
  pose proof (registered_keeps_tags c cs) as Hsub.
  split; [done|].
  split; [|split]; (eapply lookup_weaken; [|exact Hsub]; reflexivity).
Qed.

(** X5. A class whose alias is already the tag of an object (and is not
    [spectrum]) is not registered: both tables stay as they are. So of two
    classes with one alias, the second, for instance the class of another
    variant, gets no entry in [tag_class]. *)
Theorem class_under_object_alias_is_dropped (r : Registry) (c : Class) :
  tags r !! class_alias c = Some EObject →
  class_alias c ≠ "spectrum" →
  register_class (Some r) c = r
  ∧ tag_class (register_class (Some r) c)
      !! construct_key (class_alias c) (class_variant c)
    = tag_class r !! construct_key (class_alias c) (class_variant c).
Proof.
  intros Ht Hs.
  assert (Heq : register_class (Some r) c = r).
  { unfold register_class. simpl. rewrite Ht.
    rewrite bool_decide_eq_false_2 by (intros H; by apply H).
    apply String.eqb_neq in Hs. by rewrite Hs. }
  by rewrite Heq.
Qed.

Lemma register_class_keeps_classes (r : Registry) (c : Class) (k : string) :
  is_Some (tag_class r !! k) → is_Some (tag_class (register_class (Some r) c) !! k).
Proof.
  intros Hk. unfold register_class. simpl.
  assert (Hins : ∀ (m : gmap string Class) (k' : string) (x : Class),
            is_Some (m !! k) → is_Some (<[k' := x]> m !! k)).
  { intros m k' x Hm. destruct (decide (k' = k)) as [->|Hne].
    - rewrite lookup_insert_eq. by eexists.
    - by rewrite lookup_insert_ne. }
  destruct (String.eqb (class_alias c) "spectrum"); simpl;
    destruct (tags r !! class_alias c) as [t|]; simpl;
    try destruct (bool_decide (t ≠ EObject)); simpl; auto.
Qed.

Lemma register_spectrum_class (r0 : option Registry) (c : Class) :
  initial_tags ⊆ tags (default (mkRegistry initial_tags ∅) r0) →
  class_alias c = "spectrum" →
  is_Some (tag_class (register_class r0 c) !! construct_key "spectrum" (class_variant c)).
Proof.
  intros Hsub Ha. unfold register_class.
  set (r := default (mkRegistry initial_tags ∅) r0) in *.
  rewrite Ha. simpl.
  assert (Hs : tags r !! "spectrum" = Some ESpectrum)
    by (eapply lookup_weaken; [|exact Hsub]; reflexivity).
  rewrite Hs. simpl.
  destruct (decide (construct_key "texture" (class_variant c)
                    = construct_key "spectrum" (class_variant c))) as [He|Hne].
  - rewrite He, lookup_insert_eq. by eexists.
  - rewrite lookup_insert_ne by done. rewrite lookup_insert_eq. by eexists.
Qed.

Lemma registered_spectrum_class (c : Class) (cs : list Class) (c' : Class) :
  c' ∈ c :: cs → class_alias c' = "spectrum" →
  is_Some (tag_class (registered c cs) !! construct_key "spectrum" (class_variant c')).
Proof.
  induction cs as [|x cs IH] using rev_ind; intros Hin Ha.
  - apply list_elem_of_singleton in Hin as ->. by apply register_spectrum_class.
  - rewrite registered_snoc. rewrite app_comm_cons in Hin.
    apply elem_of_app in Hin as [Hin|Hin].
    + apply register_class_keeps_classes. by apply IH.
    + apply list_elem_of_singleton in Hin as ->.
      apply register_spectrum_class; [|done]. apply registered_keeps_tags.
Qed.

(** X6. Once a class with the alias [spectrum] is registered for a
    variant, an element called [spectrum] is an object when it has a [type]
    attribute and a spectrum value when it has none, whatever else is
    registered. *)
Theorem spectrum_element_is_object_by_type (c : Class) (cs : list Class) (c' : Class)
    (a : attrs) :
  c' ∈ c :: cs →
  class_alias c' = "spectrum" →
  resolve_tag (registered c cs) "spectrum" a (class_variant c')
  = Some (if has_attribute "type" a then EObject else ESpectrum).
Proof.
  intros Hin Ha. unfold resolve_tag.
  assert (Hs : tags (registered c cs) !! "spectrum" = Some ESpectrum).
  { eapply lookup_weaken; [|apply registered_keeps_tags]. reflexivity. }
  rewrite Hs. simpl.
  rewrite (bool_decide_eq_true_2 _ (registered_spectrum_class c cs c' Hin Ha)).
  by destruct (has_attribute "type" a).
Qed.

(** ** check_attributes *)

Lemma filter_not_in_nil (l : list string) : filter (λ x, x ∉ ([] : list string)) l = l.
Proof.
  induction l as [|x l IH]; [done|].
  rewrite filter_cons_True by apply not_elem_of_nil. by rewrite IH.
Qed.

Lemma check_attributes_loop_spec (a : attrs) :
  ∀ (expected : list string) (found : bool),
    match check_attributes_loop a expected found with
    | inr (rest, f) =>
        NoDup a.*1 ∧ a.*1 ⊆ expected
        ∧ rest = filter (λ x, x ∉ a.*1) expected
        ∧ f = found || negb (bool_decide (a = []))
    | inl _ => ¬ (NoDup a.*1 ∧ a.*1 ⊆ expected)
    end.
Proof.
  induction a as [|[k v] a IH]; intros expected found; simpl.
  - repeat split; [constructor | by intros x Hx%elem_of_nil | by rewrite filter_not_in_nil
                  | by rewrite orb_false_r].
  - destruct (bool_decide (k ∈ expected)) eqn:Hk.
    + apply bool_decide_eq_true in Hk.
      specialize (IH (filter (λ x, x ≠ k) expected) true).
      destruct (check_attributes_loop a (filter (λ x, x ≠ k) expected) true)
        as [k'|[rest f]].
      * intros [Hnd Hsub]. apply IH. apply NoDup_cons in Hnd as [Hnk Hnd].
        split; [done|]. intros x Hx. apply list_elem_of_filter. split.
        -- intros ->. done.
        -- apply Hsub. by right.
      * destruct IH as (Hnd & Hsub & Hrest & Hf). repeat split.
        -- apply NoDup_cons. split; [|done]. intros Hin. apply Hsub in Hin.
           apply list_elem_of_filter in Hin as [Hne _]. done.
        -- intros x Hx. apply elem_of_cons in Hx as [->|Hx]; [done|].
           apply Hsub in Hx. by apply list_elem_of_filter in Hx as [_ Hx].
        -- rewrite Hrest, list_filter_filter. apply list_filter_iff. intros x.
           rewrite not_elem_of_cons. tauto.
        -- rewrite Hf. by rewrite orb_true_r.
    + apply bool_decide_eq_false in Hk. intros [_ Hsub]. apply Hk, Hsub. by left.
Qed.

(** X7. [check_attributes] returns normally exactly when no attribute name
    occurs twice, every attribute is among the expected ones, and, with
    [expect_all], every expected attribute is there; without [expect_all]
    there has to be at least one attribute, unless none is expected. *)
Theorem check_attributes_accepts (src : string) (off : Z) (elem : string) (a : attrs)
    (expected : list string) (expect_all : bool) :
  check_attributes src off elem a expected expect_all = Ok tt
  ↔ NoDup a.*1 ∧ a.*1 ⊆ expected
    ∧ (if expect_all then expected ⊆ a.*1 else a = [] → expected = []).
Proof.
  unfold check_attributes.
  pose proof (check_attributes_loop_spec a expected false) as Hloop.
  destruct (check_attributes_loop a expected false) as [k|[rest f]].
  - split; [done|]. intros (Hnd & Hsub & _). by destruct Hloop.
  - destruct Hloop as (Hnd & Hsub & Hrest & Hf). simpl in Hf.
    assert (Hempty : rest = [] ↔ expected ⊆ a.*1).
    { rewrite Hrest. split.
      - intros Hnil x Hx. destruct (decide (x ∈ a.*1)) as [|Hn]; [done|].
        assert (x ∈ filter (λ x, x ∉ a.*1) expected) as Hin
          by (by apply list_elem_of_filter).
        rewrite Hnil in Hin. by apply elem_of_nil in Hin.
      - intros Hall. destruct (filter (λ x, x ∉ a.*1) expected) as [|x l] eqn:Hfl; [done|].
        assert (x ∈ filter (λ x, x ∉ a.*1) expected) as Hin by (rewrite Hfl; by left).
        apply list_elem_of_filter in Hin as [Hn Hx]. destruct Hn. by apply Hall. }
    destruct rest as [|m rest].
    + split; [|done]. intros _. repeat split; [done..|].
      destruct expect_all; [by apply Hempty|].
      intros ->. simpl in Hrest. by rewrite filter_not_in_nil in Hrest.
    + destruct expect_all; simpl.
      * rewrite orb_true_r. split; [done|]. intros (_ & _ & Hall).
        by apply Hempty in Hall.
      * rewrite orb_false_r. subst f. destruct (bool_decide (a = [])) eqn:Ha; simpl.
        -- apply bool_decide_eq_true in Ha. subst a. split; [done|].
           intros (_ & _ & Hnone). simpl in Hrest. rewrite filter_not_in_nil in Hrest.
           rewrite Hnone in Hrest by done. done.
        -- apply bool_decide_eq_false in Ha. split; [|done]. intros _.
           repeat split; done.
Qed.

(** ** The place of an element in the tree *)

Lemma structure_accepted (src : string) (off : Z) (name : string) (tag parent_tag : ETag) :
  check_structure src off name tag parent_tag = Ok tt →
  (parent_tag = EInvalid ∧ tag = EObject)
  ∨ (parent_tag = EObject ∧ is_transform_op tag = false)
  ∨ (parent_tag = ETransform ∧ is_transform_op tag = true).
Proof. destruct parent_tag, tag; vm_compute; intros H; try discriminate H; auto. Qed.

(** X8. The checks on the place of an element accept three combinations
    and no other: an object without a parent, a transform operation in a
    transform, and under an object anything that is not a transform
    operation. *)
Theorem check_structure_accepts (src : string) (off : Z) (name : string)
    (tag parent_tag : ETag) :
  check_structure src off name tag parent_tag = Ok tt
  ↔ (parent_tag = EInvalid ∧ tag = EObject)
    ∨ (parent_tag = EObject ∧ is_transform_op tag = false)
    ∨ (parent_tag = ETransform ∧ is_transform_op tag = true).
Proof.
  destruct parent_tag, tag; vm_compute;
    (split; [intros H; try discriminate H; auto
            | intros [[H1 H2]|[[H1 H2]|[H1 H2]]]; try discriminate H1; try discriminate H2;
              reflexivity]).
Qed.

(** ** parse_xml by the depth *)

Lemma parse_xml_below_root (inc : nat) (src : string) (ty : node_type) (name : string)
    (a : attrs) (chs : list xml_node) (off : Z) (parent_tag : ETag) (depth : nat)
    (we : bool) (s : pstate) :
  parse_xml reg inc src (XmlNode ty name a chs off) parent_tag (S depth) we s
  = parse_xml_below reg (parse_xml_deep reg (included_parser reg inc))
      (included_parser reg inc) src ty name a chs off parent_tag (S depth) we s.
Proof. by destruct inc. Qed.

Lemma parse_xml_at_root (inc : nat) (src : string) (node : xml_node) (parent_tag : ETag)
    (we : bool) (s : pstate) :
  parse_xml reg inc src node parent_tag 0 we s
  = parse_xml_root reg (parse_xml_deep reg (included_parser reg inc))
      (included_parser reg inc) src node parent_tag 0 we s.
Proof. by destruct inc. Qed.

Lemma check_structure_outcome (src : string) (off : Z) (name : string)
    (tag parent_tag : ETag) :
  check_structure src off name tag parent_tag = Ok tt
  ∨ ∃ m, check_structure src off name tag parent_tag = Throw (Located src off m).
Proof. destruct parent_tag, tag; vm_compute; eauto. Qed.

Lemma head_under_property (src : string) (ty : node_type) (name : string) (a : attrs)
    (off : Z) (parent_tag : ETag) (depth : nat) (s : pstate) :
  parent_tag ≠ EInvalid → parent_tag ≠ EObject → parent_tag ≠ ETransform →
  ty ≠ node_comment → ty ≠ node_declaration →
  ∃ m, parse_xml_head reg src ty name a off parent_tag depth s = Throw (Located src off m).
Proof.
  intros H1 H2 H3 Hc Hd. unfold parse_xml_head.
  rewrite (bool_decide_eq_false_2 _ Hc), (bool_decide_eq_false_2 _ Hd). simpl.
  destruct (bool_decide (ty ≠ node_element)); [by eexists|].
  destruct (resolve_tag reg name (substitute (ps_param s) a) (variant (ps_ctx s)))
    as [tag|]; [|by eexists].
  destruct (check_structure_outcome src off name tag parent_tag) as [Hok|[m Hm]].
  - apply structure_accepted in Hok as [[? _]|[[? _]|[? _]]]; done.
  - rewrite Hm. by eexists.
Qed.

(** X9. An element whose parent is neither an object nor a transform, that
    is a child of a property, of a transform operation or of an include, is
    refused, whatever it is: only comments and declarations are let through.
    The error carries the offset of the child. *)
Theorem child_of_property_is_refused (inc : nat) (src : string) (node : xml_node)
    (parent_tag : ETag) (depth : nat) (we : bool) (s : pstate) :
  parent_tag ≠ EInvalid → parent_tag ≠ EObject → parent_tag ≠ ETransform →
  n_type node ≠ node_comment → n_type node ≠ node_declaration →
  ∃ m, parse_xml reg inc src node parent_tag depth we s
       = Throw (Located src (n_offset node) m).
Proof.
  intros H1 H2 H3 Hc Hd. destruct node as [ty name a chs off]. simpl in *.
  destruct (head_under_property src ty name a off parent_tag depth s H1 H2 H3 Hc Hd)
    as [m Hm].
  exists m. destruct depth as [|depth].
  - rewrite parse_xml_at_root. unfold parse_xml_root. by rewrite Hm.
  - rewrite parse_xml_below_root. unfold parse_xml_below. by rewrite Hm.
Qed.

Lemma tail_ignores_children (self : parser) (included : option parser) (src : string)
    (tag : ETag) (name : string) (a : attrs) (children : list xml_node) (off : Z)
    (parent_tag : ETag) (depth : nat) (we : bool) (s : pstate) :
  tag = ENamedReference ∨ tag = EAlias ∨ tag = EDefault →
  parse_xml_tail reg self included src tag name a children off parent_tag depth we s
  = parse_xml_tail reg self included src tag name a [] off parent_tag depth we s.
Proof.
  intros Htag. unfold parse_xml_tail.
  destruct (name_and_id _ _ _ _ _ _) as [[a1 s1]|e|st]; simpl; [|done..].
  destruct Htag as [->|[->| ->]]; simpl.
  - unfold case_ENamedReference. by destruct (check_attributes _ _ _ _ _ _) as [[]|e|st].
  - unfold case_EAlias. destruct (check_attributes _ _ _ _ _ _) as [[]|e|st]; simpl; [|done..].
    destruct (instances (ps_ctx s1) !! attribute_value "as" a1); [done|].
    by destruct (instances (ps_ctx s1) !! attribute_value "id" a1).
  - unfold case_EDefault. destruct (check_attributes _ _ _ _ _ _) as [[]|e|st]; simpl; [|done..].
    destruct (String.eqb (attribute_value "name" a1) ""); [done|].
    by destruct (param_found (attribute_value "name" a1) (ps_param s1)).
Qed.

(** X10. The children of a [ref], an [alias] or a [default] element are
    never parsed: these cases return before the loop over the children, so
    that the element is treated as if it had none, whatever they are. *)
Theorem children_of_reference_are_ignored (inc : nat) (src : string) (ty : node_type)
    (name : string) (a : attrs) (children : list xml_node) (off : Z) (parent_tag : ETag)
    (depth : nat) (we : bool) (s : pstate) (tag : ETag) :
  resolve_tag reg name (substitute (ps_param s) a) (variant (ps_ctx s)) = Some tag →
  tag = ENamedReference ∨ tag = EAlias ∨ tag = EDefault →
  parse_xml reg inc src (XmlNode ty name a children off) parent_tag (S depth) we s
  = parse_xml reg inc src (XmlNode ty name a [] off) parent_tag (S depth) we s.
Proof.
  intros Hr Htag. rewrite !parse_xml_below_root. unfold parse_xml_below. f_equal.
  destruct (parse_xml_head reg src ty name a off parent_tag (S depth) s)
    as [[[[tag' a1] version]|]|e|st] eqn:Hh; simpl; try done.
  pose proof (head_element _ _ _ _ _ _ _ _ _ _ _ _ Hh) as (_ & -> & Hr' & _).
  rewrite Hr in Hr'. inversion Hr'. subst tag'.
  destruct (upgrade_below_root (ps_modified s) version) as [m|e|st]; simpl; try done.
  by apply tail_ignores_children.
Qed.

(** ** Where errors come from *)







(** ** What pass 1 keeps *)

Lemma catch_all_ok {A} (m : outcome A) (src : string) (off : Z) (msg : message) (x : A) :
  catch_all m src off msg = Ok x → m = Ok x.
Proof. by destruct m. Qed.

(** The cases of the switch that hold a value change the properties and
    nothing else. *)
Lemma value_case_sets_property (tag : ETag) (self : parser) (included : option parser)
    (src : string) (name : string) (a : attrs) (children : list xml_node) (off : Z)
    (parent_tag : ETag) (depth : nat) (we : bool) (s : pstate) (fl : flow) :
  tag ∈ [EString; EFloat; EInteger; EBoolean; EVector; EPoint; EColor; ERGB; ESpectrum] →
  switch reg self included src tag name a children off parent_tag depth we s = Ok fl →
  ∃ p, fl = Break (with_props p s).
Proof.
  intros Htag H.
  repeat (apply elem_of_cons in Htag as [->|Htag]); [..|by apply elem_of_nil in Htag];
    simpl in H; apply fmap_ok in H as (s' & H & ->).
  - unfold case_EString, bind_property in H.
    repeat (apply bind_ok in H as (? & ? & H)). inversion H. by eexists.
  - unfold case_EFloat, bind_property in H.
    repeat (apply bind_ok in H as (? & ? & H)). inversion H. by eexists.
  - unfold case_EInteger, bind_property in H.
    repeat (apply bind_ok in H as (? & ? & H)). inversion H. by eexists.
  - unfold case_EBoolean, bind_property in H.
    repeat (apply bind_ok in H as (? & ? & H)). inversion H. by eexists.
  - unfold case_EVector, bind_property in H.
    repeat (apply bind_ok in H as (? & ? & H)). inversion H. by eexists.
  - unfold case_EPoint, bind_property in H.
    repeat (apply bind_ok in H as (? & ? & H)). inversion H. by eexists.
  - unfold case_EColor, bind_property in H.
    apply bind_ok in H as (? & ? & H).
    destruct (tokenize _ _) as [|t0 [|t1 [|t2 [|]]]]; try done.
    apply catch_all_ok in H. repeat (apply bind_ok in H as (? & ? & H)).
    inversion H. by eexists.
  - unfold case_ERGB, bind_property in H.
    apply bind_ok in H as (? & ? & H).
    destruct (match tokenize _ _ with [t] => _ | _ => _ end)
      as [|t0 [|t1 [|t2 [|]]]]; try done.
    apply bind_ok in H as ([[r g] b] & ? & H).
    destruct (_ && _); [done|].
    destruct (negb _); apply bind_ok in H as (? & ? & H); inversion H; by eexists.
  - unfold case_ESpectrum in H. apply bind_ok in H as (? & ? & H).
    assert (Hbi : ∀ obj s', bind_interpolated a obj we s = Ok s' → ∃ p, s' = with_props p s).
    { intros obj s1. unfold bind_interpolated, bind_property.
      destruct (negb _); [intros [= <-]; by eexists|].
      intros H1. apply bind_ok in H1 as (? & ? & H1). inversion H1. by eexists. }
    assert (Hsp : ∀ tokens, spectrum_pairs src off a tokens we s = Ok s' →
                    ∃ p, s' = with_props p s).
    { intros tokens. unfold spectrum_pairs, spectrum_interpolated. intros H1.
      apply bind_ok in H1 as (acc & ? & H1). destruct (negb _); [done|].
      repeat (apply bind_ok in H1 as (? & ? & H1)).
      apply Hbi in H1 as [p ->]. by eexists. }
    destruct (tokenize _ _) as [|t0 [|t1 tokens]].
    + apply Hsp in H as [p ->]. by eexists.
    + unfold spectrum_constant, bind_property in H.
      repeat (apply bind_ok in H as (? & ? & H)). inversion H. by eexists.
    + apply Hsp in H as [p ->]. by eexists.
Qed.

Section Preservation.
Variable R : pstate → pstate → Prop.
Hypothesis R_refl : ∀ s, R s s.
Hypothesis R_trans : ∀ s1 s2 s3, R s1 s2 → R s2 s3 → R s1 s3.
Hypothesis R_props : ∀ s p, R s (with_props p s).
Hypothesis R_arg_counter : ∀ s k, R s (with_arg_counter k s).
Hypothesis R_modified : ∀ s, R s (with_modified true s).
Hypothesis R_include :
  ∀ s s', R (with_modified false s) s' → R s (with_modified (ps_modified s) s').
Hypothesis R_transform : ∀ s t, R s (with_ctx (set_transform t (ps_ctx s)) s).
Hypothesis R_id_counter : ∀ s k, R s (with_ctx (set_id_counter k (ps_ctx s)) s).
Hypothesis R_default :
  ∀ s n v, param_found n (ps_param s) = false →
    R s (with_param (ps_param s ++ [(n, v)]) s).
Hypothesis R_object :
  ∀ s id p c src off,
    R s (with_ctx (set_instances (record_object id p c src off (instances (ps_ctx s)))
                                 (ps_ctx s)) s).
Hypothesis R_alias :
  ∀ s dst from src off,
    instances (ps_ctx s) !! dst = None →
    is_Some (instances (ps_ctx s) !! from) →
    R s (with_ctx (set_instances (record_alias dst from src off (instances (ps_ctx s)))
                                 (ps_ctx s)) s).

Lemma fold_keeps {A} (f : pstate → A → outcome pstate) (l : list A) :
  Forall (λ x, ∀ s s', f s x = Ok s' → R s s') l →
  ∀ s s', foldM f l s = Ok s' → R s s'.
Proof.
  induction 1 as [|x l Hx _ IH]; intros s s'; simpl.
  - intros [= <-]. apply R_refl.
  - intros H. apply bind_ok in H as (s1 & H1 & H).
    eapply R_trans; [by apply Hx | by apply IH].
Qed.

Lemma parse_child_keeps (self : parser) (src : string) (tag : ETag) (depth : nat)
    (we : bool) (ch : xml_node) :
  keeps R self ch →
  ∀ s s', parse_child self src tag depth we s ch = Ok s' → R s s'.
Proof.
  intros Hself s s'. unfold parse_child. intros H.
  apply bind_ok in H as ([r s1] & H1 & H). inversion H. subst s'.
  apply Hself in H1. eapply R_trans; [exact H1|].
  unfold bind_reference. destruct (String.eqb r.2 ""); [apply R_refl | apply R_props].
Qed.

Lemma parse_rest_keeps (self : parser) (src : string) (tag : ETag) (depth : nat)
    (ch : xml_node) :
  keeps R self ch →
  ∀ s s', parse_rest self src tag depth s ch = Ok s' → R s s'.
Proof.
  intros Hself s s'. unfold parse_rest. intros H.
  apply bind_ok in H as ([r s1] & H1 & H). inversion H. subst s'. by apply Hself in H1.
Qed.

Lemma name_and_id_keeps (src : string) (off : Z) (name : string) (tag : ETag) (a : attrs)
    (s : pstate) (a' : attrs) (s' : pstate) :
  name_and_id src off name tag a s = Ok (a', s') → R s s'.
Proof.
  unfold name_and_id. intros H. apply bind_ok in H as ([a1 s1] & H1 & H).
  assert (R s s1) as Hs1.
  { destruct (attribute "name" a).
    - destruct (starts_with _ _); [done|]. inversion H1. apply R_refl.
    - destruct (_ || _); inversion H1; [apply R_arg_counter | apply R_refl]. }
  eapply R_trans; [exact Hs1|].
  destruct (attribute "id" a1).
  - destruct (starts_with _ _); [done|]. inversion H. apply R_refl.
  - destruct (bool_decide _); inversion H; [apply R_id_counter | apply R_refl].
Qed.

Lemma switch_keeps (self : parser) (included : option parser) (src : string) (tag : ETag)
    (name : string) (a : attrs) (children : list xml_node) (off : Z) (parent_tag : ETag)
    (depth : nat) (we : bool) (s : pstate) (fl : flow) :
  Forall (keeps R self) children →
  (∀ p node, included = Some p → keeps R p node) →
  switch reg self included src tag name a children off parent_tag depth we s = Ok fl →
  R s match fl with Return _ s' => s' | Break s' => s' end.
Proof.
  intros Hself Hinc H.
  destruct tag;
    try (eapply value_case_sets_property in H as [p ->];
         [apply R_props
         | by repeat (first [apply list_elem_of_here | apply list_elem_of_further])]);
    simpl in H.
  - (* transform *)
    apply fmap_ok in H as (s' & H & ->). unfold case_ETransform in H.
    apply bind_ok in H as (? & ? & H). inversion H. apply R_transform.
  - apply fmap_ok in H as (s' & H & ->). unfold case_operation in H.
    apply bind_ok in H as (? & ? & H). inversion H. apply R_transform.
  - apply fmap_ok in H as (s' & H & ->). unfold case_operation in H.
    apply bind_ok in H as (? & ? & H). inversion H. apply R_transform.
  - apply fmap_ok in H as (s' & H & ->). unfold case_operation in H.
    apply bind_ok in H as (? & ? & H). inversion H. apply R_transform.
  - apply fmap_ok in H as (s' & H & ->). unfold case_operation in H.
    apply bind_ok in H as (? & ? & H). inversion H. apply R_transform.
  - apply fmap_ok in H as (s' & H & ->). unfold case_operation in H.
    apply bind_ok in H as (? & ? & H). inversion H. apply R_transform.
  - (* object *)
    unfold case_EObject in H. apply bind_ok in H as (? & ? & H).
    destruct (instances (ps_ctx s) !! attribute_value "id" a); [done|].
    destruct (tag_class reg !! _) as [class_|]; [|done].
    apply bind_ok in H as (s1 & Hf & H). inversion H. subst fl. clear H.
    eapply fold_keeps in Hf;
      [|eapply Forall_impl; [exact Hself|]; intros ch Hch; by apply parse_child_keeps].
    eapply R_trans; [apply (R_props s (set_id (attribute_value "id" a) (Properties_new "")))|].
    eapply R_trans; [apply (R_arg_counter _ 0%N)|].
    eapply R_trans; [exact Hf|].
    eapply R_trans;
      [apply (R_object s1 (attribute_value "id" a) (ps_props s1) class_ src off)|].
    eapply R_trans; [apply (R_props _ (ps_props s))|].
    exact (R_arg_counter
             (with_props (ps_props s)
                (with_ctx
                   (set_instances
                      (record_object (attribute_value "id" a) (ps_props s1) class_ src off
                                     (instances (ps_ctx s1)))
                      (ps_ctx s1)) s1))
             (ps_arg_counter s)).
  - (* reference *)
    unfold case_ENamedReference in H. apply bind_ok in H as (? & ? & H).
    inversion H. apply R_refl.
  - (* include *)
    unfold case_EInclude in H. apply bind_ok in H as (? & ? & H).
    destruct (negb _); [done|].
    destruct included as [parse_included|]; [|done].
    destruct (load_file_begin _) as [root|]; [|done].
    destruct (String.eqb (n_name root) "scene").
    + destruct (foldM _ _ _) as [s1|e|st] eqn:Hf; try done. inversion H. subst fl.
      apply R_include. eapply fold_keeps; [|exact Hf].
      apply Forall_forall. intros ch _. apply parse_child_keeps. by apply Hinc.
    + destruct (parse_included _ _ _ _ _ _) as [[r s1]|e|st] eqn:Hp; try done.
      inversion H. subst fl. apply R_include. by eapply Hinc.
  - (* alias *)
    unfold case_EAlias in H. apply bind_ok in H as (? & ? & H).
    destruct (instances (ps_ctx s) !! attribute_value "as" a) eqn:Hdst; [done|].
    destruct (instances (ps_ctx s) !! attribute_value "id" a) eqn:Hsrc; [|done].
    inversion H. by apply R_alias.
  - (* default *)
    unfold case_EDefault in H. apply bind_ok in H as (? & ? & H).
    destruct (String.eqb _ ""); [done|].
    destruct (param_found _ _) eqn:Hfound; inversion H; [apply R_refl | by apply R_default].
Qed.

Lemma tail_keeps (self : parser) (included : option parser) (src : string) (tag : ETag)
    (name : string) (a : attrs) (children : list xml_node) (off : Z) (parent_tag : ETag)
    (depth : nat) (we : bool) (s : pstate) (r : result) (s' : pstate) :
  Forall (keeps R self) children →
  (∀ p node, included = Some p → keeps R p node) →
  parse_xml_tail reg self included src tag name a children off parent_tag depth we s
  = Ok (r, s') →
  R s s'.
Proof.
  intros Hself Hinc. unfold parse_xml_tail. intros H.
  apply bind_ok in H as ([a1 s1] & Hn & H). apply name_and_id_keeps in Hn.
  apply bind_ok in H as (fl & Hs & H). apply switch_keeps in Hs; [|done..].
  assert (R s s1) as Hs1.
  { eapply R_trans; [|exact Hn]. destruct (_ && _); [apply R_transform | apply R_refl]. }
  eapply R_trans; [exact Hs1|]. eapply R_trans; [exact Hs|].
  destruct fl as [r' s2|s2]; [inversion H; apply R_refl|].
  apply bind_ok in H as (s3 & Hf & H). inversion H. subst s'.
  eapply fold_keeps in Hf;
    [|eapply Forall_impl; [exact Hself|]; intros ch Hch; by apply parse_rest_keeps].
  eapply R_trans; [exact Hf|].
  destruct (bool_decide _); [apply R_props | apply R_refl].
Qed.

Lemma deep_keeps (included : option parser) :
  (∀ p node, included = Some p → keeps R p node) →
  ∀ node, keeps R (parse_xml_deep reg included) node.
Proof.
  intros Hinc. apply xml_node_induction. intros ty name a chs off IH.
  intros src parent_tag depth we s r s'. simpl. unfold parse_xml_below. intros H.
  apply locate_ok in H. apply bind_ok in H as (h & Hh & H).
  destruct h as [[[tag a1] version]|]; [|inversion H; apply R_refl].
  apply bind_ok in H as (m & Hm & H). apply tail_keeps in H; [|done..].
  eapply R_trans; [|exact H].
  unfold upgrade_below_root in Hm. destruct version as [v|].
  - destruct (Version_eqb _ _); [inversion Hm; destruct s; apply R_refl|].
    destruct (Version_ltb _ _); [done|]. inversion Hm. apply R_modified.
  - inversion Hm. destruct s; apply R_refl.
Qed.

Lemma root_keeps (included : option parser) :
  (∀ p node, included = Some p → keeps R p node) →
  ∀ (src : string) (node : xml_node) (parent_tag : ETag) (we : bool) (s : pstate)
    (r : result) (s' : pstate),
    parse_xml_root reg (parse_xml_deep reg included) included src node parent_tag 0 we s
    = Ok (r, s') →
    R s s'.
Proof.
  intros Hinc src [ty name a chs off] parent_tag we s r s'. unfold parse_xml_root.
  intros H. apply locate_ok in H. apply bind_ok in H as (h & Hh & H).
  destruct h as [[[tag a1] version]|]; [|inversion H; apply R_refl].
  apply bind_ok in H as ([node' m] & Hm & H). apply tail_keeps in H; [| |done].
  - eapply R_trans; [|exact H]. destruct version as [v|].
    + unfold upgrade_tree in Hm.
      destruct (Version_eqb _ _); [inversion Hm; destruct s; apply R_refl|].
      destruct (Version_ltb _ _).
      * repeat (apply bind_ok in Hm as (? & ? & Hm)). inversion Hm. apply R_modified.
      * inversion Hm. apply R_modified.
    + inversion Hm. destruct s; apply R_refl.
  - apply Forall_forall. intros ch _. by apply deep_keeps.
Qed.

(** Every state that [parse_xml] returns is related to the state it was
    given. *)
Lemma parse_xml_keeps (inc : nat) : ∀ node, keeps R (parse_xml reg inc) node.
Proof.
  induction inc as [|inc IH].
  - assert (Hinc : ∀ p node, included_parser reg 0 = Some p → keeps R p node) by done.
    intros node src parent_tag depth we s r s'. destruct depth as [|depth].
    + rewrite parse_xml_at_root. by apply root_keeps.
    + destruct node as [ty name a chs off]. rewrite parse_xml_below_root.
      apply (deep_keeps _ Hinc (XmlNode ty name a chs off)).
  - assert (Hinc : ∀ p node, included_parser reg (S inc) = Some p → keeps R p node)
      by (intros p node [= <-]; apply IH).
    intros node src parent_tag depth we s r s'. destruct depth as [|depth].
    + rewrite parse_xml_at_root. by apply root_keeps.
    + destruct node as [ty name a chs off]. rewrite parse_xml_below_root.
      apply (deep_keeps _ Hinc (XmlNode ty name a chs off)).
Qed.

End Preservation.

(** X13. [parse_xml] changes the parameter list in one way only, by
    appending to it: the list it is given is a prefix of the list it leaves,
    whatever the document, its includes and its [default] elements. So a
    parameter keeps its value through the whole of pass 1. *)
Theorem parameters_are_only_appended (inc : nat) (src : string) (node : xml_node)
    (parent_tag : ETag) (depth : nat) (we : bool) (s : pstate) (r : result) (s' : pstate) :
  parse_xml reg inc src node parent_tag depth we s = Ok (r, s') →
  ps_param s `prefix_of` ps_param s'
  ∧ ∀ k v, param_value k (ps_param s) = Some v → param_value k (ps_param s') = Some v.
Proof.
  intros H.
  assert (Hp : params_extended s s').
  { revert H. apply (parse_xml_keeps params_extended); unfold params_extended; simpl;
      try done.
    - intros s1 s2 s3 H1 H2. by etrans.
    - intros s1 n v _. by apply prefix_app_r. }
  split; [exact Hp|]. intros k v Hk. destruct Hp as [l ->].
  by rewrite param_value_app, Hk.
Qed.

Lemma entries_kept_refl (m : gmap string XMLObject) : entries_kept m m.
Proof. intros id inst H. by exists inst. Qed.

Lemma entries_kept_trans (m1 m2 m3 : gmap string XMLObject) :
  entries_kept m1 m2 → entries_kept m2 m3 → entries_kept m1 m3.
Proof.
  intros H1 H2 id inst H. apply H1 in H as (inst' & H & Ha & Ho).
  apply H2 in H as (inst'' & H & Ha' & Ho'). exists inst''.
  repeat split; [done | congruence | congruence].
Qed.

Lemma record_object_keeps (id : string) (p : Properties) (c : Class) (src : string)
    (off : Z) (m : gmap string XMLObject) :
  entries_kept m (record_object id p c src off m).
Proof.
  intros k inst Hk. unfold record_object. destruct (decide (id = k)) as [->|Hne].
  - rewrite lookup_insert_eq, Hk. by eexists.
  - rewrite lookup_insert_ne by done. by exists inst.
Qed.

Lemma record_alias_keeps (dst from src : string) (off : Z) (m : gmap string XMLObject) :
  m !! dst = None → entries_kept m (record_alias dst from src off m).
Proof.
  intros Hd k inst Hk. unfold record_alias. rewrite lookup_insert_ne by congruence.
  by exists inst.
Qed.

(** X14. [parse_xml] removes no entry from the table of instances and
    changes neither the alias nor the object of an entry that is there; the
    variant and the monochrome flag of the context stay as they are. *)
Theorem pass1_keeps_entries (inc : nat) (src : string) (node : xml_node)
    (parent_tag : ETag) (depth : nat) (we : bool) (s : pstate) (r : result) (s' : pstate) :
  parse_xml reg inc src node parent_tag depth we s = Ok (r, s') →
  entries_kept (instances (ps_ctx s)) (instances (ps_ctx s'))
  ∧ variant (ps_ctx s') = variant (ps_ctx s)
  ∧ monochrome (ps_ctx s') = monochrome (ps_ctx s).
Proof.
  apply (parse_xml_keeps
           (λ s s', entries_kept (instances (ps_ctx s)) (instances (ps_ctx s'))
                    ∧ variant (ps_ctx s') = variant (ps_ctx s)
                    ∧ monochrome (ps_ctx s') = monochrome (ps_ctx s)));
    simpl; try (intros; split; [apply entries_kept_refl | done]).
  - intros s1 s2 s3 (H1 & Hv1 & Hm1) (H2 & Hv2 & Hm2).
    split; [by eapply entries_kept_trans | split; congruence].
  - done.
  - intros. split; [apply record_object_keeps | done].
  - intros. split; [by apply record_alias_keeps | done].
Qed.

Lemma record_object_resolves (id : string) (p : Properties) (c : Class) (src : string)
    (off : Z) (m : gmap string XMLObject) :
  (aliases_resolve m → aliases_resolve (record_object id p c src off m))
  ∧ (nothing_instantiated m → nothing_instantiated (record_object id p c src off m)).
Proof.
  unfold record_object. split.
  - intros Hm k inst Hk Ha. apply lookup_insert_is_Some'. right.
    destruct (decide (id = k)) as [->|Hne].
    + rewrite lookup_insert_eq in Hk. inversion Hk. subst inst. simpl in *.
      destruct (m !! k) as [old|] eqn:Hold; simpl in *; [by eapply Hm | done].
    + rewrite lookup_insert_ne in Hk by done. by eapply Hm.
  - intros Hm k inst Hk. destruct (decide (id = k)) as [->|Hne].
    + rewrite lookup_insert_eq in Hk. inversion Hk. simpl.
      destruct (m !! k) as [old|] eqn:Hold; simpl; [by eapply Hm | done].
    + rewrite lookup_insert_ne in Hk by done. by eapply Hm.
Qed.

Lemma record_alias_resolves (dst from src : string) (off : Z) (m : gmap string XMLObject) :
  m !! dst = None → is_Some (m !! from) →
  (aliases_resolve m → aliases_resolve (record_alias dst from src off m))
  ∧ (nothing_instantiated m → nothing_instantiated (record_alias dst from src off m)).
Proof.
  intros Hd Hf. unfold record_alias. rewrite Hd. simpl. split.
  - intros Hm k inst Hk Ha. apply lookup_insert_is_Some'. right.
    destruct (decide (dst = k)) as [->|Hne].
    + rewrite lookup_insert_eq in Hk. inversion Hk. by subst inst.
    + rewrite lookup_insert_ne in Hk by done. by eapply Hm.
  - intros Hm k inst Hk. destruct (decide (dst = k)) as [->|Hne].
    + rewrite lookup_insert_eq in Hk. by inversion Hk.
    + rewrite lookup_insert_ne in Hk by done. by eapply Hm.
Qed.

(** X15. After pass 1 every alias of the table leads to an id of the
    table, and no entry holds an object yet: pass 1 records, and
    instantiates nothing. *)
Theorem pass1_table_is_closed (src : string) (root : xml_node) (variant : string)
    (mono : bool) (param : ParameterList) (arg_counter : N) (r : result) (s : pstate) :
  pass1 reg src root variant mono param arg_counter = Ok (r, s) →
  aliases_resolve (instances (ps_ctx s)) ∧ nothing_instantiated (instances (ps_ctx s)).
Proof.
  unfold pass1. intros H.
  assert (Hinv : ∀ s0 : pstate,
            parse_xml reg MTS_XML_INCLUDE_MAX_RECURSION src root EInvalid 0 false s0
            = Ok (r, s) →
            aliases_resolve (instances (ps_ctx s0))
            ∧ nothing_instantiated (instances (ps_ctx s0)) →
            aliases_resolve (instances (ps_ctx s))
            ∧ nothing_instantiated (instances (ps_ctx s))).
  { intros s0.
    apply (parse_xml_keeps
             (λ s s', aliases_resolve (instances (ps_ctx s))
                      ∧ nothing_instantiated (instances (ps_ctx s)) →
                      aliases_resolve (instances (ps_ctx s'))
                      ∧ nothing_instantiated (instances (ps_ctx s')))); simpl; try done.
    - intros s1 s2 s3 H1 H2 H0. auto.
    - intros s1 id p c src' off [Ha Hn].
      destruct (record_object_resolves id p c src' off (instances (ps_ctx s1))). auto.
    - intros s1 dst from src' off Hd Hf [Ha Hn].
      destruct (record_alias_resolves dst from src' off (instances (ps_ctx s1)) Hd Hf).
      auto. }
  apply Hinv in H; [done|]. simpl. split.
  - intros id inst Hid. by rewrite lookup_empty in Hid.
  - intros id inst Hid. by rewrite lookup_empty in Hid.
Qed.

(** X16. The id that pass 1 returns for the root element is in the table,
    with a class, the source and the offset of the root: the call of
    [instantiate_node] that follows in [load_string] and [load_file] finds
    the scene it asks for. *)
Theorem pass1_records_the_root (src : string) (root : xml_node) (variant : string)
    (mono : bool) (param : ParameterList) (arg_counter : N) (r : result) (s : pstate) :
  n_type root = node_element →
  pass1 reg src root variant mono param arg_counter = Ok (r, s) →
  ∃ inst, instances (ps_ctx s) !! r.2 = Some inst
          ∧ is_Some (o_class inst)
          ∧ o_src_id inst = src
          ∧ o_location inst = n_offset root.
Proof.
  intros Hty. unfold pass1. rewrite parse_xml_at_root.
  destruct root as [ty name a chs off]. simpl in Hty. subst ty.
  unfold parse_xml_root. intros H.
  apply locate_ok in H. apply bind_ok in H as (h & Hh & H).
  destruct h as [[[tag a1] version]|]; [|by apply head_skipped in Hh].
  pose proof (head_element _ _ _ _ _ _ _ _ _ _ _ _ Hh) as (_ & _ & _ & Hc).
  apply structure_accepted in Hc as [[_ ->]|[[? _]|[? _]]]; [|done..].
  apply bind_ok in H as ([node' m] & _ & H). unfold parse_xml_tail in H.
  apply bind_ok in H as ([a2 s2] & _ & H). apply bind_ok in H as (fl & Hs & H).
  simpl in Hs. unfold case_EObject in Hs. apply bind_ok in Hs as (? & _ & Hs).
  destruct (instances (ps_ctx s2) !! attribute_value "id" a2); [done|].
  destruct (tag_class reg !! _) as [class_|]; [|done].
  apply bind_ok in Hs as (s3 & _ & Hs). inversion Hs. subst fl. inversion H. subst r s.
  simpl. unfold record_object. rewrite lookup_insert_eq. eexists. split; [done|].
  simpl. by eauto.
Qed.

(** ** What pass 2 keeps *)

Lemma instantiation_step_refl (m : gmap string XMLObject) : instantiation_step m m.
Proof. intros id. destruct (m !! id) as [inst|] eqn:H; [|done]. by exists inst. Qed.

Lemma instantiation_step_trans (m1 m2 m3 : gmap string XMLObject) :
  instantiation_step m1 m2 → instantiation_step m2 m3 → instantiation_step m1 m3.
Proof.
  intros H1 H2 id. specialize (H1 id). specialize (H2 id).
  destruct (m1 !! id) as [inst|].
  - destruct H1 as (inst' & Hi & Ha & Hc & Hs & Hl & Hk). rewrite Hi in H2.
    destruct H2 as (inst'' & Hi' & Ha' & Hc' & Hs' & Hl' & Hk'). exists inst''.
    repeat split; try congruence.
    intros Hcond. rewrite Hk' ; [by apply Hk|]. rewrite (Hk Hcond). done.
  - by rewrite H1 in H2.
Qed.

(** The loop over the named references. *)
Lemma references_loop_step (fuel : nat) (src : string) (off : Z) :
  (∀ ctx id obj ctx', instantiate_node fuel ctx id = Ok (obj, ctx') →
     instantiation_step (instances ctx) (instances ctx')) →
  ∀ (refs : list (string * string)) (props : Properties) (ctx : XMLParseContext)
    (props' : Properties) (ctx' : XMLParseContext),
    foldM (λ (acc : Properties * XMLParseContext) (kv : string * string),
             near src off
               ('(obj, ctx') ← instantiate_node fuel acc.2 kv.2;
                Ok (bind_expansion kv.1 obj acc.1, ctx')))
          refs (props, ctx) = Ok (props', ctx') →
    instantiation_step (instances ctx) (instances ctx').
Proof.
  intros IH. induction refs as [|kv refs IHr]; intros props ctx props' ctx'; simpl.
  - intros [= _ <-]. apply instantiation_step_refl.
  - intros H. apply bind_ok in H as ([p1 c1] & H1 & H).
    destruct (instantiate_node fuel ctx kv.2) as [[obj c2]|[]|] eqn:Hi; try done.
    simpl in H1. inversion H1. subst p1 c1.
    eapply instantiation_step_trans; [by eapply IH | by eapply IHr].
Qed.

Lemma instantiate_node_step (fuel : nat) :
  ∀ (ctx : XMLParseContext) (id : string) (obj : Object) (ctx' : XMLParseContext),
    instantiate_node fuel ctx id = Ok (obj, ctx') →
    instantiation_step (instances ctx) (instances ctx').
Proof.
  induction fuel as [|fuel IH]; intros ctx id obj ctx'; simpl; [done|].
  destruct (instances ctx !! id) as [inst|] eqn:Hid; [|done].
  destruct (o_object inst) eqn:Ho; [intros [= _ <-]; apply instantiation_step_refl|].
  destruct (String.eqb (o_alias inst) "") eqn:Ha; simpl; [|apply IH].
  apply String.eqb_eq in Ha.
  intros H. apply bind_ok in H as ([props ctx1] & Hf & H).
  apply references_loop_step in Hf; [|exact IH].
  destruct (o_class inst) as [c|]; [|done].
  destruct (create_object props c) as [why|[obj' queried]]; [done|].
  apply bind_ok in H as (? & _ & H). inversion H. subst obj' ctx'.
  pose proof (Hf id) as Hid1. rewrite Hid in Hid1.
  destruct Hid1 as (inst1 & Hid1 & Ha1 & Hc1 & Hs1 & Hl1 & _).
  intros k. pose proof (Hf k) as Hk. unfold store_object. rewrite Hid1. simpl.
  destruct (decide (id = k)) as [<-|Hne].
  - rewrite Hid, lookup_insert_eq. eexists. repeat split; simpl; [done..|].
    rewrite Ho, Ha. intros [[? [=]]|?]; done.
  - by rewrite lookup_insert_ne.
Qed.

(** X17. A call of [instantiate_node] that returns leaves the set of ids
    as it was, and leaves alone every entry that already held an object
    and every alias: what it fills in are entries that are objects without
    an instance. *)
Theorem instantiation_keeps_the_table (fuel : nat) (ctx : XMLParseContext) (id : string)
    (obj : Object) (ctx' : XMLParseContext) :
  instantiate_node fuel ctx id = Ok (obj, ctx') →
  (∀ k, is_Some (instances ctx' !! k) ↔ is_Some (instances ctx !! k))
  ∧ (∀ k inst, instances ctx !! k = Some inst → is_Some (o_object inst) →
       instances ctx' !! k = Some inst)
  ∧ (∀ k inst, instances ctx !! k = Some inst → o_alias inst ≠ "" →
       instances ctx' !! k = Some inst).
Proof.
  intros H. apply instantiate_node_step in H. repeat split.
  - specialize (H k). destruct (instances ctx !! k); [done|]. rewrite H. by intros [].
  - specialize (H k). destruct (instances ctx !! k) as [inst|].
    + destruct H as (inst' & -> & _). by eexists.
    + by intros [].
  - intros k inst Hk Ho. specialize (H k). rewrite Hk in H.
    destruct H as (inst' & -> & _ & _ & _ & _ & Heq). rewrite Heq; [done | by left].
  - intros k inst Hk Ha. specialize (H k). rewrite Hk in H.
    destruct H as (inst' & -> & _ & _ & _ & _ & Heq). rewrite Heq; [done | by right].
Qed.

(** X18. An object is instantiated once: a second call of
    [instantiate_node] for the same id, on the table that the first call
    left, returns the same object and changes nothing. *)
Theorem instantiate_node_is_memoised (fuel : nat) :
  ∀ (ctx : XMLParseContext) (id : string) (obj : Object) (ctx' : XMLParseContext),
    instantiate_node fuel ctx id = Ok (obj, ctx') →
    instantiate_node fuel ctx' id = Ok (obj, ctx').
Proof.
  induction fuel as [|fuel IH]; intros ctx id obj ctx'; [done|].
  intros H. pose proof H as Hstep. apply instantiate_node_step in Hstep.
  simpl in H. specialize (Hstep id).
  destruct (instances ctx !! id) as [inst|] eqn:Hid; [|done].
  destruct Hstep as (inst' & Hid' & Ha' & Hc' & _ & _ & Heq).
  destruct (o_object inst) eqn:Ho.
  { inversion H. subst. simpl. by rewrite Hid, Ho. }
  destruct (String.eqb (o_alias inst) "") eqn:Ha; simpl in H.
  - apply bind_ok in H as ([props ctx1] & Hf & H).
    destruct (o_class inst) as [c|]; [|done].
    destruct (create_object props c) as [why|[obj' queried]]; [done|].
    apply bind_ok in H as (? & _ & H). inversion H. subst obj' ctx'. clear H.
    simpl. unfold store_object in *.
    destruct (instances ctx1 !! id) as [inst1|] eqn:Hid1.
    + simpl in *. by rewrite lookup_insert_eq.
    + apply references_loop_step in Hf; [|apply instantiate_node_step].
      specialize (Hf id). rewrite Hid in Hf. destruct Hf as (? & Hf & _). congruence.
  - rewrite Heq in Hid'.
    + simpl. rewrite Hid', Ho, Ha. simpl. by eapply IH.
    + right. by apply String.eqb_neq in Ha.
Qed.

Lemma bind_not_ok {A B} (m : outcome A) (f : A → outcome B) :
  is_ok m = false → is_ok (m ≫= f) = false.
Proof. by destruct m. Qed.

(** The loop over the named references stops at a reference to an id that
    is not in the table. *)
Lemma references_loop_dangling (fuel : nat) (src : string) (off : Z) (nm t : string) :
  ∀ (refs : list (string * string)) (props : Properties) (ctx : XMLParseContext),
    (nm, t) ∈ refs → instances ctx !! t = None →
    is_ok (foldM (λ (acc : Properties * XMLParseContext) (kv : string * string),
                    near src off
                      ('(obj, ctx') ← instantiate_node fuel acc.2 kv.2;
                       Ok (bind_expansion kv.1 obj acc.1, ctx')))
                 refs (props, ctx)) = false.
Proof.
  induction refs as [|kv refs IH]; intros props ctx Hin Ht; [by apply elem_of_nil in Hin|].
  simpl. apply elem_of_cons in Hin as [<-|Hin].
  - simpl. destruct fuel as [|fuel]; simpl; [done|]. by rewrite Ht.
  - destruct (instantiate_node fuel ctx kv.2) as [[obj c1]|[]|] eqn:Hi; try done.
    simpl. apply IH; [done|].
    apply instantiate_node_step in Hi. specialize (Hi t). by rewrite Ht in Hi.
Qed.

(** X19. An object with a reference to an id that the table does not hold
    is never instantiated: [instantiate_node] does not return for it,
    whatever the other references are. *)
Theorem dangling_reference_is_refused (fuel : nat) (ctx : XMLParseContext) (id : string)
    (inst : XMLObject) (nm t : string) :
  instances ctx !! id = Some inst →
  o_object inst = None → o_alias inst = "" →
  (nm, t) ∈ named_references (o_props inst) →
  instances ctx !! t = None →
  is_ok (instantiate_node fuel ctx id) = false.
Proof.
  intros Hid Ho Ha Hin Ht. destruct fuel as [|fuel]; [done|].
  simpl. rewrite Hid, Ho, Ha. simpl. apply bind_not_ok.
  by eapply references_loop_dangling.
Qed.

(** ** The upgrade on what needs none *)

Lemma mapM_ok_inv {A B} (f : A → outcome B) (l : list A) :
  ∀ l' : list B, mapM f l = Ok l' → Forall2 (λ x y, f x = Ok y) l l'.
Proof.
  induction l as [|x l IH]; intros l'; simpl.
  - intros [= <-]. constructor.
  - intros H. apply bind_ok in H as (y & Hy & H). apply bind_ok in H as (ys & Hys & H).
    inversion H. constructor; [done | by apply IH].
Qed.

Lemma mapM_id {A} (f : A → outcome A) (l : list A) :
  Forall (λ x, f x = Ok x) l → mapM f l = Ok l.
Proof.
  induction 1 as [|x l Hx _ IH]; simpl; [done|]. rewrite Hx. simpl. by rewrite IH.
Qed.

(** X20. The first rewrite of the upgrade changes the values of the
    attributes called [name] and nothing else: the elements, their names,
    their other attributes, the order of attributes and children stay. *)
Theorem upgrade_names_changes_names_only (n n' : xml_node) :
  upgrade_names n = Ok n' → skeleton n' = skeleton n.
Proof.
  revert n'. induction n as [ty name a chs off IH] using xml_node_induction.
  intros n' H. simpl in H.
  apply bind_ok in H as (a' & Ha & H). apply bind_ok in H as (chs' & Hc & H).
  inversion H. subst n'. clear H. simpl. f_equal.
  - apply mapM_ok_inv in Ha. induction Ha as [|kv kv' a a' Hkv _ IHa]; [done|].
    simpl. rewrite IHa. f_equal. unfold upgrade_name_attr in Hkv.
    destruct (String.eqb kv.1 "name") eqn:Hn.
    + apply bind_ok in Hkv as (v & _ & Hkv). inversion Hkv. simpl. by rewrite Hn.
    + inversion Hkv. subst kv'. by rewrite Hn.
  - apply mapM_ok_inv in Hc. induction Hc as [|c c' chs chs' Hcc _ IHc]; [done|].
    apply Forall_cons in IH as [IH1 IH2]. simpl. rewrite (IH1 _ Hcc). f_equal.
    by apply IHc.
Qed.

Lemma get_no_capital (s : string) :
  ∀ (n : nat) (c : ascii),
    no_capital s = true → String.get n s = Some c → isupper c = false.
Proof.
  unfold no_capital. induction s as [|d s IH]; intros n c; simpl; [done|].
  intros [Hd Hs]%andb_true_iff. destruct n as [|n].
  - intros [= <-]. by apply negb_true_iff in Hd.
  - by apply IH.
Qed.

Lemma string_at_no_capital (s : string) (i : N) (c : ascii) :
  no_capital s = true → string_at s i = Ok c → isupper c = false.
Proof.
  intros Hs. unfold string_at.
  destruct (String.get (N.to_nat i) s) as [d|] eqn:Hg.
  - intros [= <-]. by eapply get_no_capital.
  - destruct (i =? strlen s)%N; [by intros [= <-] | done].
Qed.

Lemma camel_loop_plain (fuel : nat) (name : string) :
  no_capital name = true →
  (1 ≤ String.length name)%nat →
  (2 * Z.of_nat (String.length name) + 1 < 2 ^ 64)%Z →
  ∀ i : N,
    (N.to_nat i ≤ String.length name + 1)%nat →
    (String.length name + 2 - N.to_nat i ≤ fuel)%nat →
    camel_loop fuel name i = Ok name.
Proof.
  intros Hplain H1 Hsz.
  assert (Hbound : size_t_sub (strlen name) 1 = N.of_nat (String.length name - 1)).
  { unfold size_t_sub, strlen, size_t_modulus. rewrite Z.mod_small; lia. }
  induction fuel as [|fuel IH]; intros i Hi Hfuel; [lia|].
  simpl. rewrite Hbound.
  destruct (i <? N.of_nat (String.length name - 1))%N eqn:Hlt; [|done].
  apply N.ltb_lt in Hlt.
  destruct (string_at_within name i) as [c Hc]; [lia|]. rewrite Hc. simpl.
  destruct (islower c); [|apply IH; lia].
  destruct (string_at_within name (i + 1)) as [d Hd]; [lia|]. rewrite Hd. simpl.
  rewrite (string_at_no_capital _ _ _ Hplain Hd). apply IH; lia.
Qed.

Lemma plain_name_spec (name : string) :
  plain_name name = true →
  no_capital name = true ∧ (1 ≤ String.length name)%nat
  ∧ (2 * Z.of_nat (String.length name) + 1 < 2 ^ 64)%Z.
Proof.
  unfold plain_name. intros [[Hne Hc]%andb_true_iff Hsz%Z.ltb_lt]%andb_true_iff.
  repeat split; [done| |done]. destruct name; [done | simpl; lia].
Qed.

(** X21. The camelCase rewrite leaves a name without a capital letter as
    it is (the name being not empty). *)
Theorem upgrade_name_keeps_plain_names (name : string) :
  plain_name name = true → upgrade_name name = Ok name.
Proof.
  intros (Hc & H1 & Hsz)%plain_name_spec. unfold upgrade_name.
  apply camel_loop_plain; [done..| |]; simpl; lia.
Qed.

Lemma forallb_true_Forall {A} (p : A → bool) (l : list A) :
  forallb p l = true → Forall (λ x, p x = true) l.
Proof.
  induction l as [|x l IH]; simpl; [constructor|].
  intros [Hx Hl]%andb_true_iff. constructor; [done | by apply IH].
Qed.

Lemma upgrade_names_plain (n : xml_node) :
  names_plain n = true → upgrade_names n = Ok n.
Proof.
  induction n as [ty name a chs off IH] using xml_node_induction.
  simpl. intros [Ha Hc]%andb_true_iff.
  rewrite (mapM_id upgrade_name_attr a).
  - simpl. rewrite (mapM_id upgrade_names chs); [done|].
    apply forallb_true_Forall in Hc. rewrite Forall_forall in IH, Hc. apply Forall_forall.
    intros c Hin. apply IH; [done|]. by apply Hc.
  - apply forallb_true_Forall in Ha. rewrite Forall_forall in Ha. apply Forall_forall.
    intros [k v] Hin. apply Ha in Hin. unfold upgrade_name_attr. simpl in *.
    destruct (String.eqb k "name"); [|done]. simpl in Hin.
    apply plain_name_spec in Hin as (Hc' & H1 & Hsz). unfold upgrade_name.
    rewrite camel_loop_plain; [done..| |]; simpl; lia.
Qed.

Lemma map_id_on {A} (f : A → A) (l : list A) :
  Forall (λ x, f x = x) l → map f l = l.
Proof. induction 1 as [|x l Hx _ IH]; simpl; [done|]. by rewrite Hx, IH. Qed.

Lemma existsb_false_Forall {A} (p : A → bool) (l : list A) :
  existsb p l = false → Forall (λ x, p x = false) l.
Proof.
  induction l as [|x l IH]; simpl; [constructor|].
  intros [Hx Hl]%orb_false_iff. constructor; [done | by apply IH].
Qed.

Lemma rename_lookat_none (n : xml_node) :
  subtree_any (is_named "lookAt") n = false → rename_lookat n = n.
Proof.
  induction n as [ty name a chs off IH] using xml_node_induction.
  rewrite subtree_any_node, is_named_node. intros [Hn Hc]%orb_false_iff.
  simpl. rewrite Hn. f_equal. apply map_id_on.
  apply existsb_false_Forall in Hc. rewrite Forall_forall in IH, Hc. apply Forall_forall.
  intros c Hin. apply IH; [done | by apply Hc].
Qed.

Lemma upgrade_uv_none (n : xml_node) :
  subtree_selects_uv n = false → upgrade_uv n = Ok n.
Proof.
  induction n as [ty name a chs off IH] using xml_node_induction.
  simpl. intros [Hn Hc]%orb_false_iff.
  change (existsb _ chs) with (selects_uv (XmlNode ty name a chs off)). rewrite Hn.
  rewrite (mapM_id upgrade_uv chs); [done|].
  apply existsb_false_Forall in Hc. rewrite Forall_forall in IH, Hc. apply Forall_forall.
  intros c Hin. apply IH; [done | by apply Hc].
Qed.

(** X22. On a document that needs no rewrite the upgrade changes nothing
    but the flag: when every [name] attribute is plain, no element is
    called [lookAt] and no element has a child [float] called [uoffset],
    [voffset], [uscale] or [vscale], [upgrade_tree] returns the document as
    it was, marked as modified unless its version is the current one. *)
Theorem upgrade_keeps_plain_document (modified : bool) (node : xml_node)
    (version : Version) :
  names_plain node = true →
  subtree_any (is_named "lookAt") node = false →
  subtree_selects_uv node = false →
  upgrade_tree modified node version
  = Ok (node, if Version_eqb version MTS_VERSION then modified else true).
Proof.
  intros Hn Hl Hu. unfold upgrade_tree.
  destruct (Version_eqb version MTS_VERSION); [done|].
  destruct (Version_ltb version (mkVersion 2 0 0)); [|done].
  rewrite upgrade_names_plain by done. simpl.
  rewrite rename_lookat_none by done. by rewrite upgrade_uv_none.
Qed.

(** ** Smaller facts about pass 1 *)

(** X23. The substitution of parameters rewrites values and nothing else:
    the attributes keep their names, their number and their order; a value
    without a dollar sign stays as it is, and so does every value when
    there is no parameter. *)
Theorem substitution_keeps_names (param : ParameterList) (a : attrs) :
  (substitute param a).*1 = a.*1
  ∧ (∀ kv, kv ∈ a → contains_dollar kv.2 = false → kv ∈ substitute param a)
  ∧ substitute [] a = a.
Proof.
  unfold substitute. destruct param as [|p param]; [by repeat split|].
  split; [|split; [|done]].
  - induction a as [|kv a IH]; [done|]. simpl.
    f_equal; [by destruct (contains_dollar kv.2) | exact IH].
  - intros kv Hin Hd. apply list_elem_of_In, in_map_iff. exists kv. rewrite Hd.
    split; [done | by apply list_elem_of_In].
Qed.

(** X24. The root element of a document has to be an object: for an
    element with any other tag pass 1 fails, with the name of the element
    in the error. *)
Theorem root_must_be_an_object (src : string) (root : xml_node) (variant : string)
    (mono : bool) (param : ParameterList) (arg_counter : N) (tag : ETag) :
  n_type root = node_element →
  resolve_tag reg (n_name root) (substitute param (n_attrs root)) variant = Some tag →
  tag ≠ EObject →
  pass1 reg src root variant mono param arg_counter
  = Throw (Located src (n_offset root) (RootNotObject (n_name root))).
Proof.
  intros Hty Hr Htag. unfold pass1. rewrite parse_xml_at_root.
  destruct root as [ty name a chs off]. simpl in *. subst ty.
  unfold parse_xml_root, parse_xml_head. simpl. rewrite Hr. simpl.
  assert (Hc : check_structure src off name tag EInvalid
               = Throw (Located src off (RootNotObject name)))
    by (destruct tag; done).
  by rewrite Hc.
Qed.

Lemma check_attributes_outcome (src : string) (off : Z) (elem : string) (a : attrs)
    (expected : list string) (expect_all : bool) :
  check_attributes src off elem a expected expect_all = Ok tt
  ∨ ∃ m, check_attributes src off elem a expected expect_all = Throw (Located src off m).
Proof.
  unfold check_attributes.
  destruct (check_attributes_loop a expected false) as [k|[[|m rest] f]];
    [right; by eexists | by left |].
  destruct (negb f || expect_all); [right; by eexists | by left].
Qed.

(** X25. An alias cannot stand for itself: an [alias] element whose [id]
    and [as] are the same is refused, whatever the table holds, as a
    duplicate when the id is there and as not found when it is not. *)
Theorem alias_to_itself_is_refused (src : string) (off : Z) (elem : string) (a : attrs)
    (s : pstate) :
  attribute_value "id" a = attribute_value "as" a →
  ∃ m, case_EAlias src off elem a s = Throw (Located src off m).
Proof.
  intros Heq. unfold case_EAlias.
  destruct (check_attributes_outcome src off elem a ["as"; "id"] true) as [->|[m ->]];
    [|by eexists].
  simpl. rewrite Heq.
  destruct (instances (ps_ctx s) !! attribute_value "as" a); by eexists.
Qed.

(** X26. In a document at the largest depth of inclusion an [include] of
    a file that exists fails with the error of the recursion limit, located
    at the element, before the file is looked at. *)
Theorem include_beyond_the_limit (src : string) (name : string) (a : attrs)
    (chs : list xml_node) (off : Z) (depth : nat) (we : bool) (s : pstate) (f : string) :
  resolve_tag reg name [("filename", f)] (variant (ps_ctx s)) = Some EInclude →
  name ≠ "scene" →
  substitute (ps_param s) a = [("filename", f)] →
  fs_exists (fs_resolve f) = true →
  parse_xml reg 0 src (XmlNode node_element name a chs off) EObject (S depth) we s
  = Throw (Located src off IncludeRecursion).
Proof.
  intros Hr Hn Ha He. rewrite parse_xml_below_root.
  unfold parse_xml_below, parse_xml_head. rewrite Ha. simpl. rewrite Hr. simpl.
  unfold parse_xml_tail. apply String.eqb_neq in Hn. rewrite Hn. simpl.
  unfold case_EInclude. simpl.
  unfold attribute_value. simpl. by rewrite He.
Qed.

(** X27. An object or a reference within an object is bound in the
    properties of that object as a named reference to its id, under its
    name, and changes nothing else of these properties. *)
Theorem child_is_bound_by_reference (inc : nat) (src : string) (name : string) (a : attrs)
    (chs : list xml_node) (off : Z) (depth : nat) (we : bool) (s s' : pstate)
    (tag : ETag) (nm id : string) :
  resolve_tag reg name (substitute (ps_param s) a) (variant (ps_ctx s)) = Some tag →
  tag = EObject ∨ tag = ENamedReference →
  attribute "name" (substitute (ps_param s) a) = Some nm →
  attribute "id" (substitute (ps_param s) a) = Some id →
  id ≠ "" →
  parse_child (parse_xml reg inc) src EObject (S depth) we s
              (XmlNode node_element name a chs off) = Ok s' →
  ps_props s' = props_set nm (PNamedReference id) (ps_props s).
Proof.
  intros Hr Htag Hnm Hid Hne. unfold parse_child. intros H.
  apply bind_ok in H as ([r s1] & H & Hb). rewrite parse_xml_below_root in H.
  unfold parse_xml_below in H. apply locate_ok in H. apply bind_ok in H as (h & Hh & H).
  destruct h as [[[tag' a1] version]|]; [|by apply head_skipped in Hh].
  pose proof (head_element _ _ _ _ _ _ _ _ _ _ _ _ Hh) as (_ & -> & Hr' & _).
  rewrite Hr in Hr'. inversion Hr'. subst tag'. clear Hr'.
  apply bind_ok in H as (m & _ & H). unfold parse_xml_tail in H.
  apply bind_ok in H as ([a2 s2] & Hn & H).
  set (a0 := remove_version version (substitute (ps_param s) a)) in *.
  set (a1 := if String.eqb name "scene" then append_attribute "type" "scene" a0 else a0) in *.
  assert (Hnm1 : attribute "name" a1 = Some nm ∧ attribute "id" a1 = Some id).
  { assert (attribute "name" a0 = Some nm ∧ attribute "id" a0 = Some id) as [H1 H2].
    { unfold a0, remove_version. destruct version; [|done].
      by rewrite !attribute_remove_other. }
    unfold a1, append_attribute. destruct (String.eqb name "scene"); [|done].
    by rewrite (attribute_app_present _ _ _ _ H1), (attribute_app_present _ _ _ _ H2). }
  destruct Hnm1 as [Hnm1 Hid1].
  assert (Ha2 : a2 = a1 ∧ ps_props s2 = ps_props s).
  { unfold name_and_id in Hn. rewrite Hnm1 in Hn.
    destruct (starts_with nm "_"); [done|]. simpl in Hn. rewrite Hid1 in Hn.
    destruct (starts_with id "_"); [done|]. inversion Hn.
    split; [done|]. by destruct (_ && _). }
  destruct Ha2 as [-> Hp2].
  apply bind_ok in H as (fl & Hs & H).
  assert (Hret : fl = Return (nm, id) s1 ∧ ps_props s1 = ps_props s).
  { destruct Htag as [-> | ->]; simpl in Hs.
    - unfold case_EObject in Hs. apply bind_ok in Hs as (? & _ & Hs).
      destruct (instances (ps_ctx s2) !! attribute_value "id" a1); [done|].
      destruct (tag_class reg !! _); [|done].
      apply bind_ok in Hs as (s3 & _ & Hs). inversion Hs. subst fl.
      inversion H. subst r s1. unfold attribute_value. rewrite Hnm1, Hid1. done.
    - unfold case_ENamedReference in Hs. apply bind_ok in Hs as (? & _ & Hs).
      inversion Hs. subst fl. inversion H. subst r s1.
      unfold attribute_value. rewrite Hnm1, Hid1. done. }
  destruct Hret as [-> Hp1]. inversion H. subst r. inversion Hb.
  unfold bind_reference. simpl. apply String.eqb_neq in Hne. rewrite Hne. simpl.
  by rewrite Hp1.
Qed.

(** ** detail::stof *)

Lemma get_substr_from (s : string) :
  ∀ offset i : nat, String.get i (substr_from s offset) = String.get (offset + i) s.
Proof.
  induction s as [|c s IH]; intros [|offset] i; by simpl.
Qed.

Lemma forallb_get (p : ascii → bool) (s : string) :
  forallb p (list_ascii_of_string s) = true
  ↔ ∀ (i : nat) (c : ascii), String.get i s = Some c → p c = true.
Proof.
  induction s as [|d s IH]; simpl.
  - split; [by intros _ i c | done].
  - rewrite andb_true_iff, IH. split.
    + intros [Hd Hs] [|i] c; [by intros [= <-] | apply Hs].
    + intros H. split; [by apply (H 0%nat) | intros i c; apply (H (S i))].
Qed.

(** X28. [check_whitespace_only] returns normally exactly when every
    character from the offset on is white space, so also when the offset is
    at the end of the text or beyond; and [detail::stof] returns a number
    exactly when [std::stof] converts a prefix of the text and nothing but
    white space follows it. *)
Theorem stof_accepts_trailing_space_only (s : string) :
  (∀ offset : nat,
     check_whitespace_only s offset = Ok tt
     ↔ ∀ (i : nat) (c : ascii), (offset ≤ i)%nat → String.get i s = Some c →
         isspace c = true)
  ∧ (∀ v : Float,
       stof s = Ok v
       ↔ ∃ n : nat, std_stof s = Some (v, n)
           ∧ ∀ (i : nat) (c : ascii), (n ≤ i)%nat → String.get i s = Some c →
               isspace c = true).
Proof.
  assert (Hcheck : ∀ offset : nat,
            check_whitespace_only s offset = Ok tt
            ↔ ∀ (i : nat) (c : ascii), (offset ≤ i)%nat → String.get i s = Some c →
                isspace c = true).
  { intros offset. unfold check_whitespace_only.
    destruct (forallb isspace (list_ascii_of_string (substr_from s offset))) eqn:Hf.
    - split; [|done]. intros _ i c Hi Hg. apply forallb_get with (i := (i - offset)%nat) (c := c) in Hf;
        [done|]. rewrite get_substr_from. by replace (offset + (i - offset))%nat with i by lia.
    - split; [done|]. intros H. apply not_true_iff_false in Hf. destruct Hf.
      apply forallb_get. intros i c Hg. rewrite get_substr_from in Hg.
      apply (H (offset + i)%nat); [lia | done]. }
  split; [exact Hcheck|].
  intros v. unfold stof. destruct (std_stof s) as [[v' n]|]; simpl.
  - destruct (check_whitespace_only s n) as [[]|e|st] eqn:Hc; simpl.
    + split.
      * intros [= ->]. exists n. split; [done|]. by apply Hcheck.
      * by intros (n' & [= -> ->] & _).
    + split; [done|]. intros (n' & [= -> ->] & H). apply Hcheck in H. congruence.
    + split; [done|]. intros (n' & [= -> ->] & H). apply Hcheck in H. congruence.
  - split; [done|]. by intros (n & Hn & _).
Qed.

(** ** Names and ids *)

(** X29. What the check of the name and the id leaves: the attributes of
    the document, unchanged and in their order, followed by the name and
    the id that were generated. A given name or id is refused when it starts
    with an underscore. A missing name is generated for an object and for a
    reference, from the argument counter, and a missing id for an object,
    from the id counter of the context; the counter used goes up by one. *)
Theorem name_and_id_completes (src : string) (off : Z) (name : string) (tag : ETag)
    (a : attrs) (s : pstate) (a' : attrs) (s' : pstate) :
  name_and_id src off name tag a s = Ok (a', s') →
  ∃ (names ids : attrs),
    a' = a ++ names ++ ids
    ∧ match attribute "name" a with
      | Some nm => starts_with nm "_" = false ∧ names = []
                   ∧ ps_arg_counter s' = ps_arg_counter s
      | None =>
          if bool_decide (tag = EObject) || bool_decide (tag = ENamedReference)
          then names = [("name", "_arg_" +:+ pretty (ps_arg_counter s))]
               ∧ ps_arg_counter s' = size_t_succ (ps_arg_counter s)
          else names = [] ∧ ps_arg_counter s' = ps_arg_counter s
      end
    ∧ match attribute "id" a with
      | Some id => starts_with id "_" = false ∧ ids = []
                   ∧ id_counter (ps_ctx s') = id_counter (ps_ctx s)
      | None =>
          if bool_decide (tag = EObject)
          then ids = [("id", "_unnamed_" +:+ pretty (id_counter (ps_ctx s)))]
               ∧ id_counter (ps_ctx s') = size_t_succ (id_counter (ps_ctx s))
          else ids = [] ∧ id_counter (ps_ctx s') = id_counter (ps_ctx s)
      end.
Proof.
  unfold name_and_id, append_attribute. intros H.
  apply bind_ok in H as ([a1 s1] & H1 & H).
  assert (Hfirst : ∃ names, a1 = a ++ names
            ∧ id_counter (ps_ctx s1) = id_counter (ps_ctx s)
            ∧ attribute "id" names = None
            ∧ match attribute "name" a with
              | Some nm => starts_with nm "_" = false ∧ names = []
                           ∧ ps_arg_counter s1 = ps_arg_counter s
              | None =>
                  if bool_decide (tag = EObject) || bool_decide (tag = ENamedReference)
                  then names = [("name", "_arg_" +:+ pretty (ps_arg_counter s))]
                       ∧ ps_arg_counter s1 = size_t_succ (ps_arg_counter s)
                  else names = [] ∧ ps_arg_counter s1 = ps_arg_counter s
              end).
  { destruct (attribute "name" a) as [nm|].
    - destruct (starts_with nm "_") eqn:Hst; [done|]. inversion H1. subst a1 s1.
      exists []. by rewrite app_nil_r.
    - destruct (bool_decide (tag = EObject) || bool_decide (tag = ENamedReference));
        inversion H1; subst a1 s1.
      + by eexists.
      + exists []. by rewrite app_nil_r. }
  destruct Hfirst as (names & -> & Hctr & Hnid & Hnames).
  assert (Hid : attribute "id" (a ++ names) = attribute "id" a).
  { destruct (attribute "id" a) as [id|] eqn:Ha.
    - by apply attribute_app_present.
    - by rewrite attribute_app_absent. }
  rewrite Hid in H. exists names.
  destruct (attribute "id" a) as [id|].
  - destruct (starts_with id "_") eqn:Hst; [done|]. inversion H. subst a' s'.
    exists []. rewrite app_nil_r. by destruct (attribute "name" a).
  - destruct (bool_decide (tag = EObject)); inversion H; subst a' s'.
    + eexists. rewrite <- app_assoc. split; [done|]. simpl. rewrite Hctr.
      split; [|done]. by destruct (attribute "name" a).
    + exists []. rewrite app_nil_r. by destruct (attribute "name" a).
Qed.

(** ** Aliases in pass 2 *)

(** X30. An alias is resolved by instantiating the id it stands for, and
    the object is not stored under the alias: after the call the entry of
    the alias is as it was. *)
Theorem alias_is_followed (fuel : nat) (ctx : XMLParseContext) (id : string)
    (inst : XMLObject) :
  instances ctx !! id = Some inst →
  o_object inst = None →
  o_alias inst ≠ "" →
  instantiate_node (S fuel) ctx id = instantiate_node fuel ctx (o_alias inst)
  ∧ ∀ obj ctx', instantiate_node (S fuel) ctx id = Ok (obj, ctx') →
                instances ctx' !! id = Some inst.
Proof.
  intros Hid Ho Ha.
  assert (Heq : instantiate_node (S fuel) ctx id = instantiate_node fuel ctx (o_alias inst)).
  { simpl. rewrite Hid, Ho. apply String.eqb_neq in Ha. by rewrite Ha. }
  split; [exact Heq|]. intros obj ctx' H. apply instantiate_node_step in H.
  specialize (H id). rewrite Hid in H. destruct H as (inst' & -> & _ & _ & _ & _ & Hsame).
  rewrite Hsame; [done | by right].
Qed.

End Further.

(** ** The camelCase rewrite (C9) *)

(** C9 (defect of the code). The claim: for every value of a [name]
    attribute the rewrite loop of the upgrade ends and reads the string only
    within its bounds, the empty string included. On the empty string the
    bound [name.length() - 1] of the loop wraps around to the largest size_t;
    the loop reads [name[0]], the terminating null, goes on, and reads
    [name[1]], one position beyond the end of a string of length 0. *)
Theorem C9_empty_name_read_out_of_bounds :
  size_t_sub (strlen "") 1 = (2 ^ 64 - 1)%N
  ∧ upgrade_name "" = Stuck (OutOfBounds 1 0).
Proof. split; reflexivity. Qed.

(** ** Pass 2 on an object that expands into two (C1) *)

(** C1 (defect of the code). The claim: when the object behind a named
    reference expands into more than one object, the i-th of them is bound
    under [name_i]. In the example the material [mat] refers to [pair] under
    the name [tex], and [pair] expands into [pair.0] and [pair.1]; after the
    instantiation of [mat] both [tex_0] and [tex_1] hold [pair.0], and
    [pair.1] is bound nowhere. *)
Theorem C1_every_slot_holds_first_expansion :
  Bench.instantiated_props Bench.doc_expansion "mat"
  = Ok (Some [("tex", Bench.VNamedReference "pair");
              ("tex_0", Bench.VObject (Bench.Obj "pair.0" []));
              ("tex_1", Bench.VObject (Bench.Obj "pair.0" []))]).
Proof. vm_compute. reflexivity. Qed.

Import Bench.

(** ** Examples for duplicate ids (C5) *)

(** C5 (defect of the code). The claim: two objects with the same id make
    pass 1 fail, also when one of them lies within the other. The object
    case looks the id up before it parses the children and records the
    object after them. In the example the texture at offset 20 lies within
    the material at offset 10 and both have the id [x]: pass 1 ends without
    an error, and the one entry for [x] is the material, holding a reference
    to [x], that is to itself. *)
Theorem C5_nested_duplicate_id_is_accepted :
  Bench.parsed_props Bench.doc_nested_duplicate [] "x"
  = Ok (Some ("main.xml", 10%Z, [("_arg_0", Bench.VNamedReference "x")])).
Proof. vm_compute. reflexivity. Qed.

(** Side by side the second of the two is refused, with the offset of the
    first in the error. *)
Lemma sibling_duplicate_id_is_refused :
  Bench.parsed_props Bench.doc_sibling_duplicate [] "x"
  = Throw (Located "main.xml" 20 (DuplicateId "texture" "x" "main.xml" 10)).
Proof. vm_compute. reflexivity. Qed.

(** ** Examples for spectra (C3) *)

(** The claim of C3 as it was stated, that wavelengths which are not
    strictly increasing are refused, fails on two equal wavelengths: the
    spectrum is accepted and an interpolated spectrum is bound. *)
Lemma C3_equal_wavelengths_are_accepted :
  Bench.parsed_props (Bench.doc_spectrum "400:1 400:2") [] "x"
  = Ok (Some ("main.xml", 10%Z, [("s", Bench.VObject (Bench.Obj "interpolated" []))])).
Proof. vm_compute. reflexivity. Qed.

Lemma C3_spectrum_order_and_spacing_witness :
  spectrum_pairs "main.xml" 20 [("name", "s"); ("value", "400:1 300:2")]
                 ["400:1"; "300:2"] false state0
  = throw_error "main.xml" 20 WavelengthOrder.
Proof.
  apply (C3_spectrum_order_and_spacing "main.xml" 20 [("name", "s"); ("value", "400:1 300:2")]
           ["400:1"; "300:2"] false state0 [(whole 400, whole 1); (whole 300, whole 2)]); reflexivity.
Defined.

(** Regularly spaced wavelengths give an interpolated spectrum; a spacing
    that exceeds the first is refused. *)
Lemma regular_spectrum_is_accepted :
  Bench.parsed_props (Bench.doc_spectrum "400:1 500:2 600:3") [] "x"
  = Ok (Some ("main.xml", 10%Z, [("s", Bench.VObject (Bench.Obj "interpolated" []))])).
Proof. vm_compute. reflexivity. Qed.

Lemma wider_spacing_is_refused :
  Bench.parsed_props (Bench.doc_spectrum "400:1 500:2 650:3") [] "x"
  = Throw (Located "main.xml" 20 IrregularSpectrum).
Proof. vm_compute. reflexivity. Qed.

(** The test of the spacing is one-sided, [(distance - interval) > Epsilon]:
    a spacing that falls short of the first is not noticed. *)
Lemma narrower_spacing_is_accepted :
  Bench.parsed_props (Bench.doc_spectrum "400:1 500:2 550:3") [] "x"
  = Ok (Some ("main.xml", 10%Z, [("s", Bench.VObject (Bench.Obj "interpolated" []))])).
Proof. vm_compute. reflexivity. Qed.

(** ** Examples for the boolean case (C4) *)

(** The claim of C4 as it was stated, that every text other than the
    lowercase [true] and [false] is refused, fails on [True]: the element is
    accepted and the property is bound to true. *)
Lemma C4_capitalised_true_is_accepted :
  Bench.parsed_props (Bench.doc_boolean "True") [] "x"
  = Ok (Some ("main.xml", 10%Z, [("b", Bench.VBool true)])).
Proof. vm_compute. reflexivity. Qed.

Lemma C4_boolean_compares_lowered_value_witness :
  case_EBoolean "main.xml" 20 "boolean" [("name", "b"); ("value", "True")] state0
  = Ok (bind_property [("name", "b"); ("value", "True")] (PBool true) state0).
Proof.
  apply (C4_boolean_compares_lowered_value "main.xml" 20 "boolean"
           [("name", "b"); ("value", "True")] state0); reflexivity.
Defined.

(** ** Examples for the value attribute and the defaults (C7) *)

Lemma C7_value_expansion_and_defaults_witness :
  ∃ v : Vector3f,
    [Scale (whole 2, whole 1, whole 1)] = transform_scale v
    ∧ (attribute "x" [("x", "2")] = None → v.1.1 = f1)
    ∧ (attribute "y" [("x", "2")] = None → v.1.2 = f1)
    ∧ (attribute "z" [("x", "2")] = None → v.2 = f1).
Proof.
  pose proof (C7_value_expansion_and_defaults (P := platform) "main.xml" 0 "scale"
                [("x", "2")]) as (_ & _ & Hscale & _).
  exact (Hscale [Scale (whole 2, whole 1, whole 1)] eq_refl).
Defined.

Lemma single_value_is_broadcast :
  op_ETranslate "main.xml" 0 "translate" [("value", "3")]
  = Ok [Translate (whole 3, whole 3, whole 3)].
Proof. reflexivity. Qed.

Lemma three_values_are_split :
  op_ERotate "main.xml" 0 "rotate" [("value", "0 1 0"); ("angle", "90")]
  = Ok [Rotate (whole 0, whole 1, whole 0) (whole 90)].
Proof. reflexivity. Qed.

Lemma two_values_are_refused :
  op_EScale "main.xml" 0 "scale" [("value", "1 2")]
  = Throw (Located "main.xml" 0 ValueElementCount).
Proof. reflexivity. Qed.

Lemma value_next_to_x_is_refused :
  op_ERotate "main.xml" 0 "rotate" [("value", "1"); ("x", "1"); ("angle", "90")]
  = Throw (Located "main.xml" 0 MixValueXYZ).
Proof. reflexivity. Qed.

Lemma translate_defaults_to_zero :
  op_ETranslate "main.xml" 0 "translate" [("y", "5")]
  = Ok [Translate (whole 0, whole 5, whole 0)].
Proof. reflexivity. Qed.

(** An element with none of the attributes is refused by the check of the
    attributes. *)
Lemma empty_translate_is_refused :
  op_ETranslate "main.xml" 0 "translate" []
  = Throw (Located "main.xml" 0 (MissingAttribute "x" "translate")).
Proof. reflexivity. Qed.

(** ** Examples for defaults (C8) *)

(** The claim of C8 as it was stated, that the substituted attribute values
    do not depend on the order of the declarations, fails when one name is
    the beginning of another: with [a] declared before [ab] the value [$ab]
    becomes [1b], with [ab] declared first it becomes [2]. *)
Lemma C8_substitution_depends_on_order :
  Bench.parsed_props (Bench.doc_defaults Bench.default_a Bench.default_ab) [] "x"
  = Ok (Some ("main.xml", 10%Z, [("s", Bench.VString "1b")]))
  ∧ Bench.parsed_props (Bench.doc_defaults Bench.default_ab Bench.default_a) [] "x"
    = Ok (Some ("main.xml", 10%Z, [("s", Bench.VString "2")])).
Proof. split; vm_compute; reflexivity. Qed.

Lemma C8_defaults_never_override_witness :
  case_EDefault "main.xml" 3 "default" [("name", "a"); ("value", "1")] state0
  = Ok (Return no_result (with_param (ps_param state0 ++ [("a", "1")]) state0)).
Proof.
  apply (proj1 (C8_defaults_never_override "main.xml" 3 "default"
                  [("name", "a"); ("value", "1")] state0)); [reflexivity | done | reflexivity].
Defined.

(** A value that the caller supplies wins over the default of the document. *)
Lemma supplied_parameter_wins :
  Bench.parsed_props (Bench.doc_defaults Bench.default_ab Bench.default_a) [("ab", "7")] "x"
  = Ok (Some ("main.xml", 10%Z, [("s", Bench.VString "7")])).
Proof. vm_compute. reflexivity. Qed.

(** ** Examples for included documents (C10) *)

Lemma C10_included_root_and_version_witness :
  is_throw (case_EInclude (included_parser registry 15) "main.xml" 5 "include"
              [("filename", "material.xml")] EObject state0) = true.
Proof.
  refine (proj2 (proj1 (C10_included_root_and_version registry 15 "main.xml" 5 "include"
                          [("filename", "material.xml")] EObject state0
                          (XmlNode node_element "bsdf" [("type", "diffuse"); ("id", "m1")] [] 0)
                          _ _) _) _); [reflexivity | reflexivity | done | reflexivity].
Defined.

(** A material without a version as the root of an included file is
    refused; with a version it is accepted; the children of an included
    scene without a version are accepted. *)
Lemma included_root_needs_version :
  Bench.parsed_props (Bench.doc_include "material.xml") [] "m1"
  = Throw (Rewrapped "main.xml" 5 (Located "material.xml" 0 (MissingVersion "bsdf"))).
Proof. vm_compute. reflexivity. Qed.

Lemma included_root_with_version :
  Bench.parsed_props (Bench.doc_include "versioned.xml") [] "m2"
  = Ok (Some ("versioned.xml", 0%Z, [])).
Proof. vm_compute. reflexivity. Qed.

Lemma included_scene_needs_no_version :
  Bench.parsed_props (Bench.doc_include "part.xml") [] "m3"
  = Ok (Some ("part.xml", 7%Z, [])).
Proof. vm_compute. reflexivity. Qed.

(** ** Examples for transforms (C6) *)

(** In the example platform a product is the list of its factors: the
    transform that is bound lists the last operation first. *)
Lemma transform_example :
  Bench.parsed_props Bench.doc_transform [] "x"
  = Ok (Some ("main.xml", 10%Z,
              [("to_world",
                Bench.VTransform
                  [Rotate (whole 0, whole 1, whole 0) (whole 90);
                   Scale (whole 2, whole 2, whole 2);
                   Translate (whole 1, whole 0, whole 0)])])).
Proof. vm_compute. reflexivity. Qed.

Lemma C6_transform_is_left_fold_witness :
  ∃ ops : list (option Transform4f),
    mapM (child_operation registry "main.xml" [] variant0) transform_children = Ok ops
    ∧ props_get "to_world" (ps_props transform_after)
      = Some (PTransform (left_fold (omap id ops) transform_identity)).
Proof.
  refine (proj2 (C6_transform_is_left_fold registry 15 "main.xml")
            (elem_at 20 "transform" [("name", "to_world")] transform_children)
            EObject 1 false transform_before no_result transform_after _ _ _);
    reflexivity.
Defined.

(** ** Examples for the upgrade (C2) *)

(** The claim of C2 as it was stated, that a child written [uOffset] is
    replaced by a [to_uv] transform, fails: the first step renames the
    property [u_offset], the third step looks for [uoffset], and the
    property stays where it was, with no transform added. *)
Lemma C2_camel_case_offset_is_kept :
  upgrade_tree false (doc_old "uOffset") (mkVersion 1 0 0)
  = Ok (elem "scene" [("version", "1.0.0")]
          [elem_at 10 "bsdf" [("type", "diffuse"); ("id", "x")]
             [elem_at 20 "float" [("name", "u_offset"); ("value", "0.5")] [];
              upgraded_to_world]],
        true).
Proof. vm_compute. reflexivity. Qed.

(** Written [uoffset], the property is replaced. *)
Lemma lower_case_offset_is_replaced :
  upgrade_tree false (doc_old "uoffset") (mkVersion 1 0 0)
  = Ok (elem "scene" [("version", "1.0.0")]
          [elem_at 10 "bsdf" [("type", "diffuse"); ("id", "x")]
             [upgraded_to_world; to_uv_half]],
        true).
Proof. vm_compute. reflexivity. Qed.

Lemma C2_upgrade_rewrites_witness :
  ∃ (ox oy sx sy : Float) (kept : list xml_node),
    uv_value "uoffset" f0 (n_children (old_material "uoffset")) = Ok ox
    ∧ uv_value "voffset" f0 (n_children (old_material "uoffset")) = Ok oy
    ∧ uv_value "uscale" f1 (n_children (old_material "uoffset")) = Ok sx
    ∧ uv_value "vscale" f1 (n_children (old_material "uoffset")) = Ok sy
    ∧ mapM upgrade_uv
        (drop_positions (first_uv (n_children (old_material "uoffset"))) 0
           (n_children (old_material "uoffset")))
      = Ok kept
    ∧ elem_at 10 "bsdf" [("type", "diffuse"); ("id", "x")]
        [elem_at 30 "transform" [("name", "toWorld")]
           [elem_at 40 "lookAt" [("origin", "0 0 0"); ("target", "0 0 1"); ("up", "0 1 0")] []];
         to_uv_half]
      = XmlNode (n_type (old_material "uoffset")) (n_name (old_material "uoffset"))
                (n_attrs (old_material "uoffset")) (kept ++ [to_uv ox oy sx sy])
                (n_offset (old_material "uoffset")).
Proof.
  pose proof (C2_upgrade_rewrites (P := platform)) as (_ & _ & Huv & _).
  apply (Huv (old_material "uoffset")); reflexivity.
Defined.

(** Pass 1 on the two documents: the property that was written [uOffset]
    reaches the material as [u_offset]. *)
Lemma old_document_with_camel_case_offset :
  Bench.parsed_props (doc_old "uOffset") [] "x"
  = Ok (Some ("main.xml", 10%Z,
              [("u_offset", Bench.VFloat (QArith_base.Qmake 1 2));
               ("to_world",
                Bench.VTransform
                  [LookAt (whole 0, whole 0, whole 0) (whole 0, whole 0, whole 1)
                          (whole 0, whole 1, whole 0)])])).
Proof. vm_compute. reflexivity. Qed.

(** ** Examples for the further properties *)

(** In the text [ab], [cd], [ef] of three lines the position 6, on the last
    line, is a byte offset, and the position 4, the [d] of the second line,
    is the column 2 of line 2. *)
Lemma string_offset_byte_offset_witness :
  string_offset text 6 = Ok (ByteOffset 6).
Proof.
  apply (string_offset_byte_offset text 6); [done|].
  intros j Hj. do 8 (destruct j as [|j]; [try lia; done|]). done.
Defined.

Lemma string_offset_line_and_column_witness :
  string_offset text 4 = Ok (LineCol 2 2).
Proof.
  refine (proj2 (string_offset_line_and_column text 4 ["a"; "b"] ["c"; "d"] ["e"; "f"]
                   _ _) _ _)%char.
  - done.
  - intros H. repeat (apply elem_of_cons in H as [H|H]; [discriminate H|]).
    by apply elem_of_nil in H.
  - reflexivity.
  - simpl. lia.
Defined.

(** A second class with the alias [bsdf], of another variant, changes
    nothing once [bsdf] is the tag of an object. *)
Lemma class_under_object_alias_is_dropped_witness :
  register_class (Some registry) (mkClass "Diffuse" "bsdf" "scalar-spectral") = registry
  ∧ tag_class (register_class (Some registry) (mkClass "Diffuse" "bsdf" "scalar-spectral"))
      !! "bsdf.scalar-spectral"
    = tag_class registry !! "bsdf.scalar-spectral".
Proof.
  apply (class_under_object_alias_is_dropped registry
           (mkClass "Diffuse" "bsdf" "scalar-spectral")); [reflexivity | done].
Defined.

(** With a spectrum class registered, [<spectrum type=...>] is an object. *)
Lemma spectrum_element_is_object_by_type_witness :
  resolve_tag (registered (mkClass "Spectrum" "spectrum" variant0)
                          [mkClass "BSDF" "bsdf" variant0])
              "spectrum" [("type", "bitmap")] variant0
  = Some EObject.
Proof.
  apply (spectrum_element_is_object_by_type (P := platform)
           (mkClass "Spectrum" "spectrum" variant0) [mkClass "BSDF" "bsdf" variant0]
           (mkClass "Spectrum" "spectrum" variant0) [("type", "bitmap")]);
    [apply list_elem_of_here | reflexivity].
Defined.

(** A [float] within a [float] is refused. *)
Lemma child_of_property_is_refused_witness :
  ∃ m, parse_xml registry 15 "main.xml"
                 (elem_at 30 "float" [("name", "x"); ("value", "1")] []) EFloat 2 false
                 state0
       = Throw (Located "main.xml" 30 m).
Proof.
  apply (child_of_property_is_refused registry 15 "main.xml"
           (elem_at 30 "float" [("name", "x"); ("value", "1")] []) EFloat 2 false state0);
    done.
Defined.

(** A reference with a child that is no element of a scene is parsed as
    the reference without it. *)
Lemma children_of_reference_are_ignored_witness :
  parse_xml registry 15 "main.xml" (ref_with_child [elem_at 40 "anything" [] []])
            EObject 2 false state0
  = parse_xml registry 15 "main.xml" (ref_with_child []) EObject 2 false state0.
Proof.
  apply (children_of_reference_are_ignored registry 15 "main.xml" node_element "ref"
           [("id", "pair"); ("name", "tex")] [elem_at 40 "anything" [] []] 30 EObject 1
           false state0 ENamedReference); [reflexivity | by left].
Defined.



(** What [after], [parsed] and [instantiated] stand for. *)
Lemma after_pass1 (root : xml_node) :
  is_ok (pass1 registry "main.xml" root variant0 false [] 0) = true →
  pass1 registry "main.xml" root variant0 false [] 0 = Ok ((after root).1, (after root).2).
Proof.
  unfold after.
  destruct (pass1 registry "main.xml" root variant0 false [] 0) as [[r s]| |]; done.
Qed.

Lemma parsed_parse_xml (root : xml_node) :
  is_ok (parse_xml registry 15 "main.xml" root EInvalid 0 false state0) = true →
  parse_xml registry 15 "main.xml" root EInvalid 0 false state0
  = Ok ((parsed root).1, (parsed root).2).
Proof.
  unfold parsed.
  destruct (parse_xml registry 15 "main.xml" root EInvalid 0 false state0) as [[r s]| |];
    done.
Qed.

Lemma instantiated_node (root : xml_node) (id : string) :
  is_ok (instantiate_node 10 (ps_ctx (after root).2) id) = true →
  instantiate_node 10 (ps_ctx (after root).2) id
  = Ok ((instantiated root id).1, (instantiated root id).2).
Proof.
  unfold instantiated.
  destruct (instantiate_node 10 (ps_ctx (after root).2) id) as [[o c]| |]; done.
Qed.

Lemma lookup_present {A} (m : gmap string A) (k : string) (d : A) :
  match m !! k with Some _ => true | None => false end = true →
  m !! k = Some (default d (m !! k)).
Proof. by destruct (m !! k). Qed.

Lemma option_absent {A} (o : option A) :
  match o with Some _ => false | None => true end = true → o = None.
Proof. by destruct o. Qed.

(** Pass 1 on the document with the two defaults: the parameters are
    appended to and the table keeps what it had. *)
Lemma parameters_are_only_appended_witness :
  ps_param state0 `prefix_of` ps_param (parsed (doc_defaults default_a default_ab)).2
  ∧ ∀ k v, param_value k (ps_param state0) = Some v →
           param_value k (ps_param (parsed (doc_defaults default_a default_ab)).2) = Some v.
Proof.
  refine (parameters_are_only_appended registry 15 "main.xml"
            (doc_defaults default_a default_ab) EInvalid 0 false state0
            (parsed (doc_defaults default_a default_ab)).1
            (parsed (doc_defaults default_a default_ab)).2 _).
  refine (parsed_parse_xml (doc_defaults default_a default_ab) _). vm_compute. reflexivity.
Defined.

Lemma pass1_keeps_entries_witness :
  entries_kept (instances (ps_ctx state0))
               (instances (ps_ctx (parsed (doc_defaults default_a default_ab)).2))
  ∧ variant (ps_ctx (parsed (doc_defaults default_a default_ab)).2) = variant (ps_ctx state0)
  ∧ monochrome (ps_ctx (parsed (doc_defaults default_a default_ab)).2)
    = monochrome (ps_ctx state0).
Proof.
  refine (pass1_keeps_entries registry 15 "main.xml"
            (doc_defaults default_a default_ab) EInvalid 0 false state0
            (parsed (doc_defaults default_a default_ab)).1
            (parsed (doc_defaults default_a default_ab)).2 _).
  refine (parsed_parse_xml (doc_defaults default_a default_ab) _). vm_compute. reflexivity.
Defined.

(** Pass 1 on the document with the expansion: every alias resolves,
    nothing is instantiated, and the id of the scene is recorded. *)
Lemma pass1_table_is_closed_witness :
  aliases_resolve (instances (ps_ctx (after doc_expansion).2))
  ∧ nothing_instantiated (instances (ps_ctx (after doc_expansion).2)).
Proof.
  refine (pass1_table_is_closed registry "main.xml" doc_expansion variant0 false [] 0
            (after doc_expansion).1 (after doc_expansion).2 _).
  refine (after_pass1 doc_expansion _). vm_compute. reflexivity.
Defined.

Lemma pass1_records_the_root_witness :
  ∃ inst, instances (ps_ctx (after doc_expansion).2) !! (after doc_expansion).1.2
          = Some inst
          ∧ is_Some (o_class inst) ∧ o_src_id inst = "main.xml"
          ∧ o_location inst = n_offset doc_expansion.
Proof.
  refine (pass1_records_the_root registry "main.xml" doc_expansion variant0 false [] 0
            (after doc_expansion).1 (after doc_expansion).2 _ _).
  - reflexivity.
  - refine (after_pass1 doc_expansion _). vm_compute. reflexivity.
Defined.

(** Pass 2 on the material of that document. *)
Lemma instantiation_keeps_the_table_witness :
  (∀ k, is_Some (instances (instantiated doc_expansion "mat").2 !! k)
        ↔ is_Some (instances (ps_ctx (after doc_expansion).2) !! k))
  ∧ (∀ k inst, instances (ps_ctx (after doc_expansion).2) !! k = Some inst →
               is_Some (o_object inst) →
               instances (instantiated doc_expansion "mat").2 !! k = Some inst)
  ∧ (∀ k inst, instances (ps_ctx (after doc_expansion).2) !! k = Some inst →
               o_alias inst ≠ "" →
               instances (instantiated doc_expansion "mat").2 !! k = Some inst).
Proof.
  refine (instantiation_keeps_the_table 10 (ps_ctx (after doc_expansion).2) "mat"
            (instantiated doc_expansion "mat").1 (instantiated doc_expansion "mat").2 _).
  refine (instantiated_node doc_expansion "mat" _). vm_compute. reflexivity.
Defined.

Lemma instantiate_node_is_memoised_witness :
  instantiate_node 10 (instantiated doc_expansion "mat").2 "mat"
  = Ok ((instantiated doc_expansion "mat").1, (instantiated doc_expansion "mat").2).
Proof.
  refine (instantiate_node_is_memoised 10 (ps_ctx (after doc_expansion).2) "mat"
            (instantiated doc_expansion "mat").1 (instantiated doc_expansion "mat").2 _).
  refine (instantiated_node doc_expansion "mat" _). vm_compute. reflexivity.
Defined.

(** The material that refers to the id [missing] is not instantiated. *)
Lemma dangling_reference_is_refused_witness :
  is_ok (instantiate_node 10 (ps_ctx (after doc_dangling).2) "x") = false.
Proof.
  refine (dangling_reference_is_refused 10 (ps_ctx (after doc_dangling).2) "x"
            (default XMLObject_new (instances (ps_ctx (after doc_dangling).2) !! "x"))
            "n" "missing" _ _ _ _ _).
  - refine (lookup_present _ _ _ _). vm_compute. reflexivity.
  - refine (option_absent _ _). vm_compute. reflexivity.
  - apply String.eqb_eq. vm_compute. reflexivity.
  - apply list_elem_of_In. vm_compute. by left.
  - refine (option_absent _ _). vm_compute. reflexivity.
Defined.

(** The first rewrite on the old material with the offset written
    [uOffset]: what changes is the value of a [name] attribute. *)
Lemma upgrade_names_changes_names_only_witness :
  skeleton (renamed (old_material "uOffset")) = skeleton (old_material "uOffset").
Proof.
  refine (upgrade_names_changes_names_only (old_material "uOffset")
            (renamed (old_material "uOffset")) _).
  vm_compute. reflexivity.
Defined.

Lemma upgrade_name_keeps_plain_names_witness :
  upgrade_name "to_world" = Ok "to_world".
Proof. apply (upgrade_name_keeps_plain_names "to_world"). reflexivity. Defined.

(** A document of version 1.0.0 in the spelling of version 2.0.0 is left
    as it is and marked as modified. *)
Lemma upgrade_keeps_plain_document_witness :
  upgrade_tree false doc_plain (mkVersion 1 0 0) = Ok (doc_plain, true).
Proof.
  refine (upgrade_keeps_plain_document (P := platform) false doc_plain (mkVersion 1 0 0)
            _ _ _); reflexivity.
Defined.

(** A document whose root is a [float]. *)
Lemma root_must_be_an_object_witness :
  pass1 registry "main.xml"
        (elem_at 7 "float" [("version", "2.0.0"); ("name", "x"); ("value", "1")] [])
        variant0 false [] 0
  = Throw (Located "main.xml" 7 (RootNotObject "float")).
Proof.
  refine (root_must_be_an_object registry "main.xml"
            (elem_at 7 "float" [("version", "2.0.0"); ("name", "x"); ("value", "1")] [])
            variant0 false [] 0 EFloat _ _ _); [reflexivity | reflexivity | done].
Defined.

Lemma alias_to_itself_is_refused_witness :
  ∃ m, case_EAlias "main.xml" 5 "alias" [("id", "x"); ("as", "x")] state0
       = Throw (Located "main.xml" 5 m).
Proof.
  apply (alias_to_itself_is_refused "main.xml" 5 "alias" [("id", "x"); ("as", "x")] state0).
  reflexivity.
Defined.

(** An [include] in a document that is itself included at the largest
    depth. *)
Lemma include_beyond_the_limit_witness :
  parse_xml registry 0 "deep.xml"
            (XmlNode node_element "include" [("filename", "material.xml")] [] 5)
            EObject 1 false state0
  = Throw (Located "deep.xml" 5 IncludeRecursion).
Proof.
  refine (include_beyond_the_limit registry "deep.xml" "include"
            [("filename", "material.xml")] [] 5 0 false state0 "material.xml" _ _ _ _);
    [reflexivity | done | reflexivity | reflexivity].
Defined.

(** The reference to [pair] under the name [tex]. *)
Lemma child_is_bound_by_reference_witness :
  ps_props (with_props (props_set "tex" (PNamedReference "pair") (ps_props state0)) state0)
  = props_set "tex" (PNamedReference "pair") (ps_props state0).
Proof.
  refine (child_is_bound_by_reference registry 15 "main.xml" "ref"
            [("id", "pair"); ("name", "tex")] [] 30 1 false state0
            (with_props (props_set "tex" (PNamedReference "pair") (ps_props state0)) state0)
            ENamedReference "tex" "pair" _ _ _ _ _ _);
    [reflexivity | by right | reflexivity | reflexivity | done | reflexivity].
Defined.

(** A material with neither a name nor an id gets both. *)
Lemma name_and_id_completes_witness :
  ∃ names ids : attrs,
    [("type", "diffuse"); ("name", "_arg_0"); ("id", "_unnamed_0")]
    = [("type", "diffuse")] ++ names ++ ids
    ∧ match attribute "name" [("type", "diffuse")] with
      | Some nm => starts_with nm "_" = false ∧ names = []
                   ∧ ps_arg_counter named_state = ps_arg_counter state0
      | None =>
          if bool_decide (EObject = EObject) || bool_decide (EObject = ENamedReference)
          then names = [("name", "_arg_" +:+ pretty (ps_arg_counter state0))]
               ∧ ps_arg_counter named_state = size_t_succ (ps_arg_counter state0)
          else names = [] ∧ ps_arg_counter named_state = ps_arg_counter state0
      end
    ∧ match attribute "id" [("type", "diffuse")] with
      | Some id => starts_with id "_" = false ∧ ids = []
                   ∧ id_counter (ps_ctx named_state) = id_counter (ps_ctx state0)
      | None =>
          if bool_decide (EObject = EObject)
          then ids = [("id", "_unnamed_" +:+ pretty (id_counter (ps_ctx state0)))]
               ∧ id_counter (ps_ctx named_state) = size_t_succ (id_counter (ps_ctx state0))
          else ids = [] ∧ id_counter (ps_ctx named_state) = id_counter (ps_ctx state0)
      end.
Proof.
  refine (name_and_id_completes "main.xml" 10 "bsdf" EObject [("type", "diffuse")] state0
            [("type", "diffuse"); ("name", "_arg_0"); ("id", "_unnamed_0")] named_state _).
  reflexivity.
Defined.

(** The alias [y] of the material [x]. *)
Lemma alias_is_followed_witness :
  instantiate_node 10 (ps_ctx (after doc_alias).2) "y"
  = instantiate_node 9 (ps_ctx (after doc_alias).2)
      (o_alias (default XMLObject_new (instances (ps_ctx (after doc_alias).2) !! "y")))
  ∧ ∀ obj ctx', instantiate_node 10 (ps_ctx (after doc_alias).2) "y" = Ok (obj, ctx') →
                instances ctx' !! "y"
                = Some (default XMLObject_new (instances (ps_ctx (after doc_alias).2) !! "y")).
Proof.
  refine (alias_is_followed 9 (ps_ctx (after doc_alias).2) "y"
            (default XMLObject_new (instances (ps_ctx (after doc_alias).2) !! "y")) _ _ _).
  - refine (lookup_present _ _ _ _). vm_compute. reflexivity.
  - refine (option_absent _ _). vm_compute. reflexivity.
  - apply String.eqb_neq. vm_compute. reflexivity.
Defined.
